(** * ghard: contact loading, naming, filtering, sorting and export

    A shallow embedding of the Go packages [pkg/vcard], [internal/config]
    and [internal/app] of ghard, and the properties of the specification and
    of the code proved over it.

    Go strings are byte sequences and are modelled by [string]; Go [int]
    values that hold calendar fields are modelled by [Z]; slices are lists. *)

From Stdlib Require Import ZArith Lia Bool List Ascii String DecimalString Permutation.
From stdpp Require Import base list strings gmap.

Local Open Scope Z_scope.

(** ** The Go runtime the program runs in

    [strings.ToLower], [strings.ToUpper] and [strings.TrimSpace] consult the
    Unicode tables as soon as a string holds a byte outside ASCII,
    [time.Now().Year()] reads the clock, and [sort.Slice] scatters elements
    with a pseudo-random generator of its own.  These are the runtime's, not
    the program's; every definition below takes them from this class. *)

Class GoRuntime := {
  (** [strings.Map(unicode.ToLower, s)] *)
  unicode_ToLower : string -> string;
  (** [strings.Map(unicode.ToUpper, s)] *)
  unicode_ToUpper : string -> string;
  (** [strings.TrimFunc(s, unicode.IsSpace)] *)
  unicode_TrimSpace : string -> string;
  (** [strings.TrimRightFunc(s, unicode.IsSpace)] *)
  unicode_TrimRightSpace : string -> string;
  (** [time.Now().Year()] *)
  Now_Year : Z;
  (** [xorshift.Next] of package [sort]: one step of the generator, on the
      64-bit state *)
  sort_xorshift_Next : N -> N
}.

(** ** Package [strings] *)

Module GoStrings.

Definition byte_val (c : ascii) : N := N_of_ascii c.

(** [c >= utf8.RuneSelf] *)
Definition nonASCII (c : ascii) : bool := (128 <=? byte_val c)%N.

Definition isUpperASCII (c : ascii) : bool :=
  ((65 <=? byte_val c) && (byte_val c <=? 90))%N.

Definition isLowerASCII (c : ascii) : bool :=
  ((97 <=? byte_val c) && (byte_val c <=? 122))%N.

Definition lowerByte (c : ascii) : ascii :=
  if isUpperASCII c then ascii_of_N (byte_val c + 32) else c.

Definition upperByte (c : ascii) : ascii :=
  if isLowerASCII c then ascii_of_N (byte_val c - 32) else c.

Fixpoint allASCII (s : string) : bool :=
  match s with
  | EmptyString => true
  | String c s' => negb (nonASCII c) && allASCII s'
  end.

Fixpoint mapBytes (f : ascii -> ascii) (s : string) : string :=
  match s with
  | EmptyString => EmptyString
  | String c s' => String (f c) (mapBytes f s')
  end.

(** [strings.ToLower]: the ASCII fast path is byte-wise, anything else goes
    through the Unicode tables. *)
Definition ToLower `{GoRuntime} (s : string) : string :=
  if allASCII s then mapBytes lowerByte s else unicode_ToLower s.

Definition ToUpper `{GoRuntime} (s : string) : string :=
  if allASCII s then mapBytes upperByte s else unicode_ToUpper s.

(** the [asciiSpace] table: tab, newline, vertical tab, form feed, carriage
    return and space *)
Definition asciiSpace (c : ascii) : bool :=
  let n := byte_val c in
  ((n =? 9) || (n =? 10) || (n =? 11) || (n =? 12) || (n =? 13) || (n =? 32))%N.

Fixpoint string_rev_onto (s acc : string) : string :=
  match s with
  | EmptyString => acc
  | String c s' => string_rev_onto s' (String c acc)
  end.

Definition string_rev (s : string) : string := string_rev_onto s EmptyString.

(** Skips ASCII white space from the front; the flag tells that the scan
    stopped on a byte outside ASCII. *)
Fixpoint skipSpace (s : string) : string * bool :=
  match s with
  | EmptyString => (EmptyString, false)
  | String c s' =>
      if nonASCII c then (s, true)
      else if asciiSpace c then skipSpace s'
      else (s, false)
  end.

(** [strings.TrimSpace] *)
Definition TrimSpace `{GoRuntime} (s : string) : string :=
  let '(s1, u1) := skipSpace s in
  if u1 then unicode_TrimSpace s1
  else
    let '(r2, u2) := skipSpace (string_rev s1) in
    if u2 then unicode_TrimRightSpace (string_rev r2)
    else string_rev r2.

(** [strings.Join] *)
Fixpoint Join (elems : list string) (sep : string) : string :=
  match elems with
  | [] => EmptyString
  | [e] => e
  | e :: rest => e +:+ sep +:+ Join rest sep
  end.

(** [strings.HasPrefix(s, prefix)] *)
Fixpoint HasPrefix (s prefix : string) {struct prefix} : bool :=
  match prefix, s with
  | EmptyString, _ => true
  | String p prefix', String c s' => Ascii.eqb c p && HasPrefix s' prefix'
  | String _ _, EmptyString => false
  end.

(** [strings.Contains(s, substr)]: [substr] starts at some offset of [s]. *)
Fixpoint Contains (s substr : string) : bool :=
  HasPrefix s substr ||
  match s with
  | EmptyString => false
  | String _ s' => Contains s' substr
  end.

(** [strings.HasSuffix(s, suffix)] *)
Definition HasSuffix (s suffix : string) : bool :=
  HasPrefix (string_rev s) (string_rev suffix).

(** One field of [strings.Split(s, sep)] for a one-byte separator: the text
    up to the first separator, and what follows it if there is one. *)
Fixpoint cutByte (sep : ascii) (s : string) : string * option string :=
  match s with
  | EmptyString => (EmptyString, None)
  | String c s' =>
      if Ascii.eqb c sep then (EmptyString, Some s')
      else let '(hd, tl) := cutByte sep s' in (String c hd, tl)
  end.

Fixpoint splitByte_fuel (fuel : nat) (sep : ascii) (s : string) : list string :=
  match fuel with
  | O => [s]
  | S fuel' =>
      match cutByte sep s with
      | (hd, None) => [hd]
      | (hd, Some tl) => hd :: splitByte_fuel fuel' sep tl
      end
  end.

(** [strings.Split(s, sep)] where [sep] is a single byte (the program only
    splits on a semicolon). *)
Definition Split (s : string) (sep : ascii) : list string :=
  splitByte_fuel (String.length s) sep s.

End GoStrings.

(** ** Package [fmt]: the [%0wd] verb *)

Module GoFmt.

(** the decimal digits of a natural number, as [strconv] writes them *)
Definition decimal (n : N) : string :=
  DecimalString.NilZero.string_of_uint (N.to_uint n).

Fixpoint zeros (k : nat) : string :=
  match k with
  | O => EmptyString
  | S k' => String "0" (zeros k')
  end.

Definition padZero (w : nat) (s : string) : string :=
  zeros (w - String.length s) +:+ s.

(** [fmt.Sprintf("%0wd", n)]: with the zero flag the sign comes first and the
    digits are padded to what is left of the width. *)
Definition Sprintf_0d (w : nat) (n : Z) : string :=
  if n <? 0 then String "-" (padZero (w - 1) (decimal (Z.to_N (- n))))
  else padZero w (decimal (Z.to_N n)).

End GoFmt.

(** ** Package [time]

    All times of the program are in UTC ([time.Parse] without a zone, and
    [time.Date(..., time.UTC)]); a [Time] is given by the civil date and
    time of day that [Year()], [Month()], [Day()] and the clock read back.
    The zero [Time] is January 1, year 1, 00:00:00 UTC. *)

Module GoTime.

Record Time := mkTime {
  Year : Z;
  Month : Z;
  Day : Z;
  Hour : Z;
  Minute : Z;
  Second : Z;
  Nanosecond : Z
}.

(** [time.Time{}] *)
Definition zeroTime : Time := mkTime 1 1 1 0 0 0 0.

(** [t.IsZero()]: the instant January 1, year 1, 00:00:00.000000000 UTC *)
Definition IsZero (t : Time) : bool :=
  (Year t =? 1) && (Month t =? 1) && (Day t =? 1) &&
  (Hour t =? 0) && (Minute t =? 0) && (Second t =? 0) && (Nanosecond t =? 0).

Definition isLeap (year : Z) : bool :=
  (Z.rem year 4 =? 0) && (negb (Z.rem year 100 =? 0) || (Z.rem year 400 =? 0)).

Definition daysIn (m year : Z) : Z :=
  if (m =? 2) && isLeap year then 29
  else if m =? 2 then 28
  else if (m =? 4) || (m =? 6) || (m =? 9) || (m =? 11) then 30
  else 31.

(** Day overflow of [time.Date]: days past the end of the month roll into the
    following months.  The month is in 1..12 and the day at least 1, which is
    what a parsed date hands over. *)
Fixpoint rollDays (fuel : nat) (y m d : Z) : Z * Z * Z :=
  match fuel with
  | O => (y, m, d)
  | S fuel' =>
      if daysIn m y <? d then
        if m =? 12 then rollDays fuel' (y + 1) 1 (d - daysIn m y)
        else rollDays fuel' y (m + 1) (d - daysIn m y)
      else (y, m, d)
  end.

(** [time.Date(year, month, day, hour, min, sec, nsec, time.UTC)] *)
Definition Date (year month day hour min sec nsec : Z) : Time :=
  let '(y, m, d) := rollDays 12 year month day in
  mkTime y m d hour min sec nsec.

(** The pieces [nextStdChunk] cuts a layout into: literal text and the
    reference-time fields the program's layouts use. *)
Inductive chunk :=
| lit (text : string)
| stdLongYear      (* 2006 *)
| stdZeroMonth     (* 01 *)
| stdZeroDay       (* 02 *)
| stdHour          (* 15 *)
| stdZeroMinute    (* 04 *)
| stdZeroSecond.   (* 05 *)

Definition digitOf (c : ascii) : option Z :=
  let n := GoStrings.byte_val c in
  if ((48 <=? n) && (n <=? 57))%N then Some (Z.of_N n - 48) else None.

(** [getnum(s, fixed)]: one or two leading digits; exactly two when [fixed] *)
Definition getnum (s : string) (fixed : bool) : option (Z * string) :=
  match s with
  | String c0 s1 =>
      match digitOf c0 with
      | None => None
      | Some d0 =>
          match s1 with
          | String c1 s2 =>
              match digitOf c1 with
              | Some d1 => Some (d0 * 10 + d1, s2)
              | None => if fixed then None else Some (d0, s1)
              end
          | EmptyString => if fixed then None else Some (d0, s1)
          end
      end
  | EmptyString => None
  end.

(** the four-digit year of [stdLongYear] *)
Definition getyear (s : string) : option (Z * string) :=
  match s with
  | String c0 (String c1 (String c2 (String c3 rest))) =>
      match digitOf c0, digitOf c1, digitOf c2, digitOf c3 with
      | Some d0, Some d1, Some d2, Some d3 =>
          Some (d0 * 1000 + d1 * 100 + d2 * 10 + d3, rest)
      | _, _, _, _ => None
      end
  | _ => None
  end.

(** [skip(value, prefix)] for a prefix without spaces *)
Fixpoint skip (value prefix : string) {struct prefix} : option string :=
  match prefix with
  | EmptyString => Some value
  | String p prefix' =>
      match value with
      | String c value' => if Ascii.eqb c p then skip value' prefix' else None
      | EmptyString => None
      end
  end.

(** the run of digits at the head of a string, and what follows *)
Fixpoint leadingDigits (s : string) : list Z * string :=
  match s with
  | String c s' =>
      match digitOf c with
      | Some d => let '(ds, rest) := leadingDigits s' in (d :: ds, rest)
      | None => ([], s)
      end
  | EmptyString => ([], s)
  end.

(** [parseNanoseconds]: at most nine fraction digits count, scaled to
    nanoseconds *)
Definition nanosOfDigits (ds : list Z) : Z :=
  let used := firstn 9 ds in
  fold_left (fun acc d => acc * 10 + d) used 0 * 10 ^ Z.of_nat (9 - length used).

(** A fractional second in the input that the layout does not mention is
    still read after the seconds field. *)
Definition fraction (value : string) : Z * string :=
  match value with
  | String c value' =>
      if (Ascii.eqb c "." || Ascii.eqb c ",")%bool then
        match leadingDigits value' with
        | ([], _) => (0, value)
        | (ds, rest) => (nanosOfDigits ds, rest)
        end
      else (0, value)
  | EmptyString => (0, value)
  end.

(** the fields [Parse] fills while it walks the layout *)
Record fields := mkFields {
  f_year : Z; f_month : Z; f_day : Z;
  f_hour : Z; f_min : Z; f_sec : Z; f_nsec : Z
}.

Definition noFields : fields := mkFields 0 (-1) (-1) 0 0 0 0.

Fixpoint parseChunks (layout : list chunk) (value : string) (f : fields)
  : option fields :=
  match layout with
  | [] => if String.eqb value EmptyString then Some f else None
  | lit text :: layout' =>
      match skip value text with
      | Some value' => parseChunks layout' value' f
      | None => None
      end
  | stdLongYear :: layout' =>
      match getyear value with
      | Some (y, value') =>
          parseChunks layout' value'
            (mkFields y (f_month f) (f_day f) (f_hour f) (f_min f) (f_sec f) (f_nsec f))
      | None => None
      end
  | stdZeroMonth :: layout' =>
      match getnum value true with
      | Some (m, value') =>
          if (m <=? 0) || (12 <? m) then None
          else parseChunks layout' value'
                 (mkFields (f_year f) m (f_day f) (f_hour f) (f_min f) (f_sec f) (f_nsec f))
      | None => None
      end
  | stdZeroDay :: layout' =>
      match getnum value true with
      | Some (d, value') =>
          parseChunks layout' value'
            (mkFields (f_year f) (f_month f) d (f_hour f) (f_min f) (f_sec f) (f_nsec f))
      | None => None
      end
  | stdHour :: layout' =>
      match getnum value false with
      | Some (h, value') =>
          if (h <? 0) || (24 <=? h) then None
          else parseChunks layout' value'
                 (mkFields (f_year f) (f_month f) (f_day f) h (f_min f) (f_sec f) (f_nsec f))
      | None => None
      end
  | stdZeroMinute :: layout' =>
      match getnum value true with
      | Some (mi, value') =>
          if (mi <? 0) || (60 <=? mi) then None
          else parseChunks layout' value'
                 (mkFields (f_year f) (f_month f) (f_day f) (f_hour f) mi (f_sec f) (f_nsec f))
      | None => None
      end
  | stdZeroSecond :: layout' =>
      match getnum value true with
      | Some (s, value') =>
          if (s <? 0) || (60 <=? s) then None
          else
            let '(ns, value'') := fraction value' in
            parseChunks layout' value''
              (mkFields (f_year f) (f_month f) (f_day f) (f_hour f) (f_min f) s ns)
      | None => None
      end
  end.

(** [time.Parse(layout, value)]: [None] is a parse error.  The day of the
    month is validated against the month and year once the layout is
    consumed; a field the layout lacks keeps its default (year 0). *)
Definition Parse (layout : list chunk) (value : string) : option Time :=
  match parseChunks layout value noFields with
  | Some f =>
      let month := if f_month f <? 0 then 1 else f_month f in
      let day := if f_day f <? 0 then 1 else f_day f in
      if (day <? 1) || (daysIn month (f_year f) <? day) then None
      else Some (Date (f_year f) month day (f_hour f) (f_min f) (f_sec f) (f_nsec f))
  | None => None
  end.

End GoTime.

(** ** Package [sort]: [sort.Slice]

    [sort.Slice(x, less)] sorts in place with [pdqsort_func] over the pair
    of closures [lessSwap{less, swap}]; [less(i, j)] and [swap(i, j)] index
    the slice.  The slice is a list, read with total lookup and written
    with [<[i:=x]>]; the loops never leave [a, b). *)

Module GoSort.

Section WithLess.

Context {A : Type} `{Inhabited A} `{GoRuntime}.

(** the comparison of the elements that the caller's [less(i, j)] indexes *)
Variable less : A -> A -> bool.

(** [data.Less(i, j)] *)
Definition Less (data : list A) (i j : nat) : bool :=
  less (data !!! i) (data !!! j).

(** [data.Swap(i, j)] *)
Definition Swap (data : list A) (i j : nat) : list A :=
  <[i := data !!! j]> (<[j := data !!! i]> data).

(** [for j := i; j > a && data.Less(j, j-1); j-- { data.Swap(j, j-1) }] *)
Fixpoint insertionShift (data : list A) (a j : nat) : list A :=
  match j with
  | O => data
  | S j' =>
      if (a <? j)%nat && Less data j j'
      then insertionShift (Swap data j j') a j'
      else data
  end.

(** [insertionSort_func] sorts [data[a:b]] using insertion sort. *)
Definition insertionSort_func (data : list A) (a b : nat) : list A :=
  fold_left (fun data i => insertionShift data a i) (seq (a + 1) (b - (a + 1))) data.

(** the loop of [siftDown_func]; [root] grows at every turn *)
Fixpoint siftDown_loop (fuel : nat) (data : list A) (root hi first : nat) : list A :=
  match fuel with
  | O => data
  | S fuel' =>
      let child := (2 * root + 1)%nat in
      if (hi <=? child)%nat then data
      else
        let child :=
          if (child + 1 <? hi)%nat && Less data (first + child) (first + child + 1)
          then (child + 1)%nat else child in
        if negb (Less data (first + root) (first + child)) then data
        else siftDown_loop fuel' (Swap data (first + root) (first + child)) child hi first
  end.

(** [siftDown_func] implements the heap property on [data[lo:hi]]. *)
Definition siftDown_func (data : list A) (lo hi first : nat) : list A :=
  siftDown_loop hi data lo hi first.

Definition heapSort_func (data : list A) (a b : nat) : list A :=
  let first := a in
  let lo := 0%nat in
  let hi := (b - a)%nat in
  (* for i := (hi - 1) / 2; i >= 0; i-- *)
  let data :=
    fold_left (fun data i => siftDown_func data i hi first)
      (rev (seq 0 ((hi - 1) / 2 + 1))) data in
  (* for i := hi - 1; i >= 0; i-- *)
  fold_left (fun data i => siftDown_func (Swap data first (first + i)) lo i first)
    (rev (seq 0 hi)) data.

(** [for i <= j && data.Less(i, a) { i++ }] *)
Fixpoint scanLess (fuel : nat) (data : list A) (a i j : nat) : nat :=
  match fuel with
  | O => i
  | S fuel' =>
      if (i <=? j)%nat && Less data i a then scanLess fuel' data a (i + 1) j else i
  end.

(** [for i <= j && !data.Less(j, a) { j-- }] *)
Fixpoint scanNotLess (fuel : nat) (data : list A) (a i j : nat) : nat :=
  match fuel with
  | O => j
  | S fuel' =>
      if (i <=? j)%nat && negb (Less data j a) then scanNotLess fuel' data a i (j - 1) else j
  end.

(** the closing [for] of [partition_func] *)
Fixpoint partition_loop (fuel : nat) (data : list A) (a b i j : nat) : list A * nat :=
  match fuel with
  | O => (data, j)
  | S fuel' =>
      let i := scanLess (b - a) data a i j in
      let j := scanNotLess (b - a) data a i j in
      if (j <? i)%nat then (data, j)
      else partition_loop fuel' (Swap data i j) a b (i + 1) (j - 1)
  end.

(** [partition_func] does one quicksort partition: with [p = data[pivot]],
    it moves the elements of [data[a:b]] so that [data[i] < p] before the
    new pivot place and [data[j] >= p] after it. *)
Definition partition_func (data : list A) (a b pivot : nat) : list A * nat * bool :=
  let data := Swap data a pivot in
  let i := (a + 1)%nat in
  let j := (b - 1)%nat in
  let i := scanLess (b - a) data a i j in
  let j := scanNotLess (b - a) data a i j in
  if (j <? i)%nat then (Swap data j a, j, true)
  else
    let data := Swap data i j in
    let '(data, j) := partition_loop (b - a) data a b (i + 1) (j - 1) in
    (Swap data j a, j, false).

(** [for i <= j && !data.Less(a, i) { i++ }] *)
Fixpoint scanNotGreater (fuel : nat) (data : list A) (a i j : nat) : nat :=
  match fuel with
  | O => i
  | S fuel' =>
      if (i <=? j)%nat && negb (Less data a i) then scanNotGreater fuel' data a (i + 1) j
      else i
  end.

(** [for i <= j && data.Less(a, j) { j-- }] *)
Fixpoint scanGreater (fuel : nat) (data : list A) (a i j : nat) : nat :=
  match fuel with
  | O => j
  | S fuel' =>
      if (i <=? j)%nat && Less data a j then scanGreater fuel' data a i (j - 1) else j
  end.

Fixpoint partitionEqual_loop (fuel : nat) (data : list A) (a b i j : nat) : list A * nat :=
  match fuel with
  | O => (data, i)
  | S fuel' =>
      let i := scanNotGreater (b - a) data a i j in
      let j := scanGreater (b - a) data a i j in
      if (j <? i)%nat then (data, i)
      else partitionEqual_loop fuel' (Swap data i j) a b (i + 1) (j - 1)
  end.

(** [partitionEqual_func] partitions [data[a:b]] into elements equal to
    [data[pivot]] followed by elements greater than [data[pivot]]; it assumes
    that [data[a:b]] holds no element smaller than [data[pivot]]. *)
Definition partitionEqual_func (data : list A) (a b pivot : nat) : list A * nat :=
  let data := Swap data a pivot in
  partitionEqual_loop (b - a + 1) data a b (a + 1) (b - 1).

(** [for i < b && !data.Less(i, i-1) { i++ }] *)
Fixpoint scanOrdered (fuel : nat) (data : list A) (i b : nat) : nat :=
  match fuel with
  | O => i
  | S fuel' =>
      if (i <? b)%nat && negb (Less data i (i - 1)) then scanOrdered fuel' data (i + 1) b
      else i
  end.

(** [for j := i - 1; j >= 1; j-- { if !data.Less(j, j-1) { break }; data.Swap(j, j-1) }] *)
Fixpoint shiftSmaller (data : list A) (j : nat) : list A :=
  match j with
  | O => data
  | S j' => if negb (Less data j j') then data else shiftSmaller (Swap data j j') j'
  end.

(** [for j := i + 1; j < b; j++ { if !data.Less(j, j-1) { break }; data.Swap(j, j-1) }] *)
Fixpoint shiftGreater (fuel : nat) (data : list A) (j b : nat) : list A :=
  match fuel with
  | O => data
  | S fuel' =>
      if (j <? b)%nat then
        if negb (Less data j (j - 1)) then data
        else shiftGreater fuel' (Swap data j (j - 1)) (j + 1) b
      else data
  end.

(** the loop [for j := 0; j < maxSteps; j++] of [partialInsertionSort_func] *)
Fixpoint partialInsertionSort_loop (steps : nat) (data : list A) (a b i : nat)
  : list A * bool :=
  match steps with
  | O => (data, false)
  | S steps' =>
      let i := scanOrdered (b - a) data i b in
      if (i =? b)%nat then (data, true)
      else if (b - a <? 50)%nat then (data, false)      (* shortestShifting *)
      else
        let data := Swap data i (i - 1) in
        let data := if (2 <=? i - a)%nat then shiftSmaller data (i - 1) else data in
        let data := if (2 <=? b - i)%nat then shiftGreater (b - i) data (i + 1) b else data in
        partialInsertionSort_loop steps' data a b i
  end.

(** [partialInsertionSort_func] partially sorts a slice, returns true if the
    slice is sorted at the end. *)
Definition partialInsertionSort_func (data : list A) (a b : nat) : list A * bool :=
  partialInsertionSort_loop 5 data a b (a + 1).              (* maxSteps *)

(** [bits.Len(uint(n))] *)
Definition bits_Len (n : nat) : nat := N.to_nat (N.size (N.of_nat n)).

(** [nextPowerOfTwo] *)
Definition nextPowerOfTwo (length : nat) : N := N.shiftl 1 (N.of_nat (bits_Len length)).

(** the three swaps of [breakPatterns_func], with the generator threaded *)
Fixpoint breakPatterns_loop (turns : list nat) (data : list A) (a length idx : nat)
  (random modulus : N) : list A :=
  match turns with
  | [] => data
  | i :: turns' =>
      let random := sort_xorshift_Next random in
      let other := N.to_nat (N.land random (modulus - 1)) in
      let other := if (length <=? other)%nat then (other - length)%nat else other in
      breakPatterns_loop turns' (Swap data (idx - 1 + i) (a + other)) a length idx random modulus
  end.

(** [breakPatterns_func] scatters some elements around in an attempt to
    break some patterns that might cause imbalanced partitions. *)
Definition breakPatterns_func (data : list A) (a b : nat) : list A :=
  let length := (b - a)%nat in
  if (8 <=? length)%nat then
    let random := N.of_nat length in
    let modulus := nextPowerOfTwo length in
    let idx := (a + (length / 4) * 2 - 1)%nat in
    breakPatterns_loop [0; 1; 2]%nat data a length idx random modulus
  else data.

Inductive sortedHint := unknownHint | increasingHint | decreasingHint.

(** [order2_func] returns [x, y] where [data[x] <= data[y]] *)
Definition order2_func (data : list A) (a b swaps : nat) : nat * nat * nat :=
  if Less data b a then (b, a, S swaps) else (a, b, swaps).

(** [median_func] returns [x] where [data[x]] is the median of [data[a]],
    [data[b]], [data[c]] *)
Definition median_func (data : list A) (a b c swaps : nat) : nat * nat :=
  let '(a, b, swaps) := order2_func data a b swaps in
  let '(b, c, swaps) := order2_func data b c swaps in
  let '(a, b, swaps) := order2_func data a b swaps in
  (b, swaps).

(** [medianAdjacent_func] finds the median of [data[a-1]], [data[a]],
    [data[a+1]] *)
Definition medianAdjacent_func (data : list A) (a swaps : nat) : nat * nat :=
  median_func data (a - 1) a (a + 1) swaps.

(** [choosePivot_func] chooses a pivot in [data[a:b]]: a static one below 8
    elements, the median of three below 50, the Tukey ninther from there. *)
Definition choosePivot_func (data : list A) (a b : nat) : nat * sortedHint :=
  let l := (b - a)%nat in
  let swaps := 0%nat in
  let i := (a + l / 4 * 1)%nat in
  let j := (a + l / 4 * 2)%nat in
  let k := (a + l / 4 * 3)%nat in
  let '(j, swaps) :=
    if (8 <=? l)%nat then
      let '(i, j, k, swaps) :=
        if (50 <=? l)%nat then                             (* shortestNinther *)
          let '(i, swaps) := medianAdjacent_func data i swaps in
          let '(j, swaps) := medianAdjacent_func data j swaps in
          let '(k, swaps) := medianAdjacent_func data k swaps in
          (i, j, k, swaps)
        else (i, j, k, swaps) in
      median_func data i j k swaps
    else (j, swaps) in
  if (swaps =? 0)%nat then (j, increasingHint)
  else if (swaps =? 12)%nat then (j, decreasingHint)       (* maxSwaps = 4 * 3 *)
  else (j, unknownHint).

(** [for i < j { data.Swap(i, j); i++; j-- }] *)
Fixpoint reverseRange_loop (fuel : nat) (data : list A) (i j : nat) : list A :=
  match fuel with
  | O => data
  | S fuel' =>
      if (i <? j)%nat then reverseRange_loop fuel' (Swap data i j) (i + 1) (j - 1)
      else data
  end.

Definition reverseRange_func (data : list A) (a b : nat) : list A :=
  reverseRange_loop (b - a) data a (b - 1).

Definition isIncreasing (hint : sortedHint) : bool :=
  match hint with increasingHint => true | _ => false end.

Definition isDecreasing (hint : sortedHint) : bool :=
  match hint with decreasingHint => true | _ => false end.

(** [pdqsort_func] sorts [data[a:b]].  One unit of fuel pays for one turn of
    its [for] loop or one recursive call; the range shrinks at each, so
    [b - a + 1] units are enough. *)
Fixpoint pdqsort_func (fuel : nat) (data : list A) (a b limit : nat)
  (wasBalanced wasPartitioned : bool) : list A :=
  match fuel with
  | O => data
  | S fuel' =>
      let length := (b - a)%nat in
      if (length <=? 12)%nat then insertionSort_func data a b   (* maxInsertion *)
      else if (limit =? 0)%nat then heapSort_func data a b
      else
        let '(data, limit) :=
          if negb wasBalanced then (breakPatterns_func data a b, (limit - 1)%nat)
          else (data, limit) in
        let '(pivot, hint) := choosePivot_func data a b in
        let '(data, pivot, hint) :=
          if isDecreasing hint
          then (reverseRange_func data a b, ((b - 1) - (pivot - a))%nat, increasingHint)
          else (data, pivot, hint) in
        let '(data, sorted) :=
          if wasBalanced && wasPartitioned && isIncreasing hint
          then partialInsertionSort_func data a b
          else (data, false) in
        if sorted then data
        else if (0 <? a)%nat && negb (Less data (a - 1) pivot) then
          let '(data, mid) := partitionEqual_func data a b pivot in
          pdqsort_func fuel' data mid b limit wasBalanced wasPartitioned
        else
          let '(data, mid, alreadyPartitioned) := partition_func data a b pivot in
          let wasPartitioned := alreadyPartitioned in
          let leftLen := (mid - a)%nat in
          let rightLen := (b - mid)%nat in
          let balanceThreshold := (length / 8)%nat in
          if (leftLen <? rightLen)%nat then
            let wasBalanced := (balanceThreshold <=? leftLen)%nat in
            let data := pdqsort_func fuel' data a mid limit true true in
            pdqsort_func fuel' data (mid + 1) b limit wasBalanced wasPartitioned
          else
            let wasBalanced := (balanceThreshold <=? rightLen)%nat in
            let data := pdqsort_func fuel' data (mid + 1) b limit true true in
            pdqsort_func fuel' data a mid limit wasBalanced wasPartitioned
  end.

(** [sort.Slice(x, less)] *)
Definition Slice (x : list A) : list A :=
  let length := length x in
  let limit := bits_Len length in
  pdqsort_func (length + 1) x 0 length limit true true.

End WithLess.

End GoSort.

(** ** Logging ([log/slog]) and Go's [error]

    An [error] is its message, [None] being [nil].  The default logger is
    process-wide state; it is threaded as the list of records written. *)

Definition error := option string.

Inductive Level := LevelDebug | LevelInfo | LevelWarn.

Record LogRecord := mkLog {
  log_level : Level;
  log_msg : string;
  log_attr : string
}.

Definition Log := list LogRecord.

(** ** Package [go-vcard]: a decoded card

    A [Card] maps a field name to its fields; a field has a value and
    parameters.  [Params] is a Go map that [getFieldType] ranges over: the
    list holds its entries in the order the run visits them. *)

Module GoVCard.

Record Field := mkField {
  Value : string;
  Params : list (string * list string)
}.

Abbreviation Card := (gmap string (list Field)).

Definition FieldFormattedName : string := "FN".
Definition FieldName : string := "N".
Definition FieldEmail : string := "EMAIL".
Definition FieldTelephone : string := "TEL".
Definition FieldOrganization : string := "ORG".
Definition FieldNote : string := "NOTE".
Definition FieldAddress : string := "ADR".
Definition FieldBirthday : string := "BDAY".

(** [card.Get(k)]: the first field of that name *)
Definition Get (card : Card) (k : string) : option Field :=
  match card !! k with
  | Some (f :: _) => Some f
  | _ => None
  end.

(** What a file shows to [os.Open] and then to [Decoder.Decode]: the cards
    decoded one after the other and how the stream ends, [None] for
    [io.EOF] and a message for a decode error. *)
Inductive FileView :=
| OpenFails (err : string)
| Opened (cards : list Card) (ending : error).

End GoVCard.

(** ** Package [pkg/vcard] *)

Module vcard.

Import GoVCard.

Record EmailEntry := mkEmail {
  EmailValue : string;
  EmailType : string
}.

Record PhoneEntry := mkPhone {
  PhoneValue : string;
  PhoneType : string
}.

Record Contact := mkContact {
  Name : string;
  FamilyName : string;
  GivenName : string;
  MiddleName : string;
  Prefix : string;
  Suffix : string;
  Emails : list EmailEntry;
  Phones : list PhoneEntry;
  Organization : string;
  Note : string;
  Address : string;
  Birthday : GoTime.Time;
  FileName : string
}.

(** [Contact{FileName: filePath}] *)
Definition emptyContact (filePath : string) : Contact :=
  mkContact "" "" "" "" "" "" [] [] "" "" "" GoTime.zeroTime filePath.

#[global] Instance Contact_inhabited : Inhabited Contact := populate (emptyContact "").

Definition nonEmpty (s : string) : bool := negb (String.eqb s "").

(** [parts[i]] when [len(parts) > i && parts[i] != ""], else the field keeps
    its zero value *)
Definition part (parts : list string) (i : nat) : string :=
  match parts !! i with
  | Some p => p
  | None => ""
  end.

Definition formatAddress (address : string) : string :=
  let parts := GoStrings.Split address ";" in
  let addressParts :=
    filter (fun p => nonEmpty p = true)
      (omap (fun i => parts !! i) [2; 3; 4; 5; 6]%nat) in
  GoStrings.Join addressParts ", ".

Definition layouts : list (list GoTime.chunk) :=
  let dash := GoTime.lit "-" in
  let colon := GoTime.lit ":" in
  let date := [GoTime.stdLongYear; dash; GoTime.stdZeroMonth; dash; GoTime.stdZeroDay] in
  let clock := [GoTime.lit "T"; GoTime.stdHour; colon; GoTime.stdZeroMinute;
                colon; GoTime.stdZeroSecond] in
  [ date                                                        (* 2006-01-02 *)
  ; [GoTime.stdLongYear; GoTime.stdZeroMonth; GoTime.stdZeroDay] (* 20060102 *)
  ; [GoTime.lit "--"; GoTime.stdZeroMonth; dash; GoTime.stdZeroDay] (* --01-02 *)
  ; [GoTime.lit "--"; GoTime.stdZeroMonth; GoTime.stdZeroDay]   (* --0102 *)
  ; date ++ clock ++ [GoTime.lit "Z"]                 (* 2006-01-02T15:04:05Z *)
  ; date ++ clock ].                                   (* 2006-01-02T15:04:05 *)

Definition isoDate : list GoTime.chunk :=
  [GoTime.stdLongYear; GoTime.lit "-"; GoTime.stdZeroMonth; GoTime.lit "-";
   GoTime.stdZeroDay].

(** the loop over [formats]: the first layout that parses decides *)
Fixpoint tryFormats `{GoRuntime} (formats : list (list GoTime.chunk))
  (birthday : string) : option GoTime.Time :=
  match formats with
  | [] => None
  | format :: formats' =>
      match GoTime.Parse format birthday with
      | Some parsedTime =>
          if GoStrings.HasPrefix birthday "--" then
            Some (GoTime.Date Now_Year (GoTime.Month parsedTime)
                    (GoTime.Day parsedTime) 0 0 0 0)
          else Some parsedTime
      | None => tryFormats formats' birthday
      end
  end.

(** The date [parseBirthday] finds in the trimmed text, if any: one of the
    layouts, else the first ten bytes as an ISO date. *)
Definition matchBirthday `{GoRuntime} (birthday : string) : option GoTime.Time :=
  match tryFormats layouts birthday with
  | Some t => Some t
  | None =>
      if (10 <=? String.length birthday)%nat
      then GoTime.Parse isoDate (String.substring 0 10 birthday)
      else None
  end.

Definition parseBirthday `{GoRuntime} (birthday : string) : GoTime.Time :=
  let birthday := GoStrings.TrimSpace birthday in
  if String.eqb birthday "" then GoTime.zeroTime
  else
    match matchBirthday birthday with
    | Some t => t
    | None => GoTime.zeroTime
    end.

Definition FormatBirthdayForDisplay `{GoRuntime} (birthday : GoTime.Time) : string :=
  if GoTime.IsZero birthday then ""
  else
    let currentYear := Now_Year in
    if GoTime.Year birthday =? currentYear then
      GoFmt.Sprintf_0d 2 (GoTime.Month birthday) +:+ "/" +:+
      GoFmt.Sprintf_0d 2 (GoTime.Day birthday)
    else
      GoFmt.Sprintf_0d 2 (GoTime.Month birthday) +:+ "/" +:+
      GoFmt.Sprintf_0d 2 (GoTime.Day birthday) +:+ "/" +:+
      GoFmt.Sprintf_0d 4 (GoTime.Year birthday).

Definition legacyTypes : list string :=
  ["HOME"; "WORK"; "CELL"; "FAX"; "PAGER"; "VOICE"; "MSG"].

Definition getFieldType `{GoRuntime} (params : list (string * list string)) : string :=
  match List.find (fun kv => String.eqb (fst kv) "TYPE") params with
  | Some (_, t :: _) => GoStrings.ToUpper t
  | _ =>
      match List.find
              (fun kv => existsb (String.eqb (GoStrings.ToUpper (fst kv))) legacyTypes)
              params with
      | Some (param, _) => GoStrings.ToUpper param
      | None => ""
      end
  end.

(** the body of the decode loop: one card becomes one contact *)
Definition contactOfCard `{GoRuntime} (filePath : string) (card : Card) : Contact :=
  let name := match Get card FieldFormattedName with
              | Some fn => Value fn | None => "" end in
  let parts := match Get card FieldName with
               | Some nameField => GoStrings.Split (Value nameField) ";"
               | None => [] end in
  let emails := match card !! FieldEmail with
                | Some emailFields =>
                    map (fun field => mkEmail (Value field) (getFieldType (Params field)))
                      emailFields
                | None => [] end in
  let phones := match card !! FieldTelephone with
                | Some phoneFields =>
                    map (fun field => mkPhone (Value field) (getFieldType (Params field)))
                      phoneFields
                | None => [] end in
  let org := match Get card FieldOrganization with
             | Some org => Value org | None => "" end in
  let note := match Get card FieldNote with
              | Some note => Value note | None => "" end in
  let addr := match Get card FieldAddress with
              | Some addr => formatAddress (Value addr) | None => "" end in
  let bday := match Get card FieldBirthday with
              | Some bday => parseBirthday (Value bday) | None => GoTime.zeroTime end in
  mkContact name (part parts 0) (part parts 1) (part parts 2) (part parts 3)
    (part parts 4) emails phones org note addr bday filePath.

(** The decode loop of [processVCardFile].  [contacts] is the caller's
    slice, reached through the pointer: every card is appended to it as soon
    as it is decoded, and what was appended stays when a later [Decode]
    fails. *)
Fixpoint decodeLoop `{GoRuntime} (filePath : string) (cards : list Card)
  (ending : error) (contacts : list Contact) (log : Log) (fileContacts : nat)
  : list Contact * Log * error :=
  match cards with
  | card :: cards' =>
      let contact := contactOfCard filePath card in
      let log := log ++ [mkLog LevelDebug "Loaded contact" (Name contact)] in
      decodeLoop filePath cards' ending (contacts ++ [contact]) log (S fileContacts)
  | [] =>
      match ending with
      | Some err => (contacts, log, Some ("failed to decode vCard: " +:+ err))
      | None =>
          if (fileContacts =? 0)%nat
          then (contacts, log, Some "no valid contacts found in file")
          else (contacts, log, None)
      end
  end.

Definition processVCardFile `{GoRuntime} (filePath : string) (view : FileView)
  (contacts : list Contact) (log : Log) : list Contact * Log * error :=
  match view with
  | OpenFails err => (contacts, log, Some ("failed to open file: " +:+ err))
  | Opened cards ending => decodeLoop filePath cards ending contacts log 0
  end.

(** What [filepath.WalkDir] hands to its callback, entry by entry. *)
Inductive WalkEvent :=
| WalkError (filePath : string) (err : string)
| WalkDirectory (filePath : string)
| WalkFile (filePath : string) (view : FileView).

(** [filepath.WalkDir]: the callback runs on every entry until it returns an
    error, which is then the walk's result. *)
Fixpoint WalkDir {S : Type} (events : list WalkEvent)
  (fn : WalkEvent -> S -> S * error) (st : S) : S * error :=
  match events with
  | [] => (st, None)
  | ev :: events' =>
      match fn ev st with
      | (st', None) => WalkDir events' fn st'
      | (st', Some err) => (st', Some err)
      end
  end.

(** The address books as the file system shows them: a path that is absent
    does not exist for [os.Stat]; a present one lists what the walk finds. *)
Abbreviation FileSystem := (gmap string (list WalkEvent)).

(** the variables the walk callback of [loadContactsFromPath] closes over *)
Record walkState := mkWalk {
  w_contacts : list Contact;
  w_vcfCount : nat;
  w_processedCount : nat;
  w_errorCount : nat;
  w_log : Log
}.

Definition walkFn `{GoRuntime} (ev : WalkEvent) (st : walkState) : walkState * error :=
  match ev with
  | WalkError filePath err =>
      (mkWalk (w_contacts st) (w_vcfCount st) (w_processedCount st) (w_errorCount st)
         (w_log st ++ [mkLog LevelWarn "Error accessing file during directory walk" filePath]),
       None)
  | WalkDirectory _ => (st, None)
  | WalkFile filePath view =>
      if negb (GoStrings.HasSuffix (GoStrings.ToLower filePath) ".vcf") then
        (mkWalk (w_contacts st) (w_vcfCount st) (w_processedCount st) (w_errorCount st)
           (w_log st ++ [mkLog LevelDebug "Skipping non-vcf file" filePath]),
         None)
      else
        let log := w_log st ++ [mkLog LevelDebug "Processing vCard file" filePath] in
        match processVCardFile filePath view (w_contacts st) log with
        | (contacts, log, Some err) =>
            (mkWalk contacts (S (w_vcfCount st)) (w_processedCount st)
               (S (w_errorCount st))
               (log ++ [mkLog LevelWarn "Failed to process vCard file" filePath]),
             None)
        | (contacts, log, None) =>
            (mkWalk contacts (S (w_vcfCount st)) (S (w_processedCount st))
               (w_errorCount st) log,
             None)
        end
  end.

Definition loadContactsFromPath `{GoRuntime} (fs : FileSystem) (path : string)
  (log : Log) : list Contact * error * Log :=
  let log := log ++ [mkLog LevelDebug "Loading contacts from path" path] in
  match fs !! path with
  | None => ([], Some ("path does not exist: " +:+ path), log)
  | Some events =>
      match WalkDir events walkFn (mkWalk [] 0 0 0 log) with
      | (st, Some err) =>
          ([], Some ("error scanning directory " +:+ path +:+ ": " +:+ err), w_log st)
      | (st, None) =>
          let log := w_log st ++ [mkLog LevelDebug "Finished processing directory" path] in
          if (w_vcfCount st =? 0)%nat then
            ([], Some ("no .vcf files found in directory: " +:+ path), log)
          else if (w_processedCount st =? 0)%nat && (0 <? w_errorCount st)%nat then
            ([], Some ("failed to process any vCard files in directory: " +:+ path), log)
          else (w_contacts st, None, log)
      end
  end.

(** the state of the loop of [LoadContacts] *)
Record loadState := mkLoad {
  l_contacts : list Contact;
  l_loadErrors : list string;
  l_log : Log
}.

Definition loadStep `{GoRuntime} (fs : FileSystem) (st : loadState) (path : string)
  : loadState :=
  match loadContactsFromPath fs path (l_log st) with
  | (_, Some err, log) =>
      mkLoad (l_contacts st) (l_loadErrors st ++ [path +:+ ": " +:+ err]) log
  | (pathContacts, None, log) =>
      mkLoad (l_contacts st ++ pathContacts) (l_loadErrors st) log
  end.

Definition loadLoop `{GoRuntime} (fs : FileSystem) (addressBookPaths : list string)
  (log : Log) : loadState :=
  fold_left (loadStep fs) addressBookPaths (mkLoad [] [] log).

Definition LoadContacts `{GoRuntime} (fs : FileSystem) (addressBookPaths : list string)
  (log : Log) : list Contact * error * Log :=
  let st := loadLoop fs addressBookPaths log in
  let contacts := l_contacts st in
  let loadErrors := l_loadErrors st in
  if (0 <? length loadErrors)%nat && (length contacts =? 0)%nat then
    ([], Some ("failed to load contacts from any address book:" +:+ String "010" "  - "
               +:+ GoStrings.Join loadErrors (String "010" "  - ")),
     l_log st)
  else
    let log := l_log st ++
      map (fun errMsg => mkLog LevelWarn "Failed to load contacts from address book" errMsg)
        loadErrors in
    let log := if (length contacts =? 0)%nat
               then log ++ [mkLog LevelInfo "No contacts found in any address book" ""]
               else log ++ [mkLog LevelDebug "Loaded contacts" ""] in
    (contacts, None, log).

(** *** Display helpers of a contact *)

(** [GetPrimaryEmail] is a helper for display formatting: the first email,
    [fmt.Sprintf("%s (%s)", email.Value, email.Type)] when it has a type *)
Definition GetPrimaryEmail (c : Contact) : string :=
  match Emails c with
  | [] => ""
  | email :: _ =>
      if nonEmpty (EmailType email)
      then EmailValue email +:+ " (" +:+ EmailType email +:+ ")"
      else EmailValue email
  end.

Definition GetPrimaryPhone (c : Contact) : string :=
  match Phones c with
  | [] => ""
  | phone :: _ =>
      if nonEmpty (PhoneType phone)
      then PhoneValue phone +:+ " (" +:+ PhoneType phone +:+ ")"
      else PhoneValue phone
  end.

Definition FormatEmails (c : Contact) : string :=
  if (length (Emails c) =? 0)%nat then ""
  else
    GoStrings.Join
      (map (fun email =>
              if nonEmpty (EmailType email)
              then EmailValue email +:+ " (" +:+ EmailType email +:+ ")"
              else EmailValue email) (Emails c)) ", ".

Definition FormatPhones (c : Contact) : string :=
  if (length (Phones c) =? 0)%nat then ""
  else
    GoStrings.Join
      (map (fun phone =>
              if nonEmpty (PhoneType phone)
              then PhoneValue phone +:+ " (" +:+ PhoneType phone +:+ ")"
              else PhoneValue phone) (Phones c)) ", ".

End vcard.

(** ** Package [internal/config]: the address books of the configuration *)

Module config.

(** [AddressBook] represents a single address book configuration *)
Record AddressBook := mkAddressBook {
  (** the filesystem path to the directory containing vCard files *)
  Path : string
}.

(** [Config.AddressBooks] maps address book names to their configurations.
    It is a Go map that the program only ranges over: the list holds its
    entries in the order a run visits them. *)
Record Config := mkConfig {
  AddressBooks : list (string * AddressBook)
}.

(** what [os.Stat] and [os.Open] show of a path that exists *)
Inductive PathView :=
| StatFails (err : string)        (* [os.Stat] fails, not with [os.IsNotExist] *)
| IsFile                          (* [info.IsDir()] is false *)
| IsDir (opened : error).         (* a directory, and what [os.Open] returns *)

(** The host the configuration is checked on: the home directory that
    [os.UserHomeDir] returns or the error it fails with, the paths that exist
    (an absent path is one [os.IsNotExist] holds of), and [filepath.Join],
    which is the library's. *)
Record Host := mkHost {
  UserHomeDir : string * error;
  paths : gmap string PathView;
  filepath_Join : string -> string -> string
}.

(** [path[2:]] *)
Definition from2 (path : string) : string :=
  String.substring 2 (String.length path - 2) path.

Definition expandPath (os : Host) (path : string) (log : Log) : string * Log :=
  if GoStrings.HasPrefix path "~/" then
    match UserHomeDir os with
    | (homeDir, None) => (filepath_Join os homeDir (from2 path), log)
    | (_, Some err) =>
        (* Log the error but continue with unexpanded path *)
        (path,
         log ++ [mkLog LevelWarn "Failed to get home directory for path expansion" path])
    end
  else (path, log).

(** [validateAddressBook] validates a single address book configuration *)
Definition validateAddressBook (os : Host) (name : string) (ab : AddressBook) (log : Log)
  : error * Log :=
  if String.eqb (Path ab) "" then
    (Some ("address book '" +:+ name +:+ "': path cannot be empty"), log)
  else
    let '(expandedPath, log) := expandPath os (Path ab) log in
    match paths os !! expandedPath with
    | None =>
        (Some ("address book '" +:+ name +:+ "': path does not exist: " +:+ expandedPath
               +:+ " (expanded from: " +:+ Path ab +:+ ")"), log)
    | Some (StatFails err) =>
        (Some ("address book '" +:+ name +:+ "': cannot access path " +:+ expandedPath
               +:+ ": " +:+ err), log)
    | Some IsFile =>
        (Some ("address book '" +:+ name +:+ "': path must be a directory, got file: "
               +:+ expandedPath), log)
    | Some (IsDir (Some err)) =>
        (Some ("address book '" +:+ name +:+ "': directory is not readable: "
               +:+ expandedPath +:+ " (" +:+ err +:+ ")"), log)
    | Some (IsDir None) => (None, log)
    end.

(** the loop of [Validate] over the address books *)
Definition validateStep (os : Host) (st : list string * Log) (entry : string * AddressBook)
  : list string * Log :=
  let '(validationErrors, log) := st in
  let '(name, ab) := entry in
  match validateAddressBook os name ab log with
  | (Some err, log) => (validationErrors ++ [err], log)
  | (None, log) => (validationErrors, log)
  end.

(** [Validate] checks the configuration for common issues and provides
    helpful error messages *)
Definition Validate (os : Host) (c : Config) (log : Log) : error * Log :=
  if (length (AddressBooks c) =? 0)%nat then
    (Some ("no address books configured. Please add at least one [addressbook.name] "
           +:+ "section to your config file"), log)
  else
    let '(validationErrors, log) :=
      fold_left (validateStep os) (AddressBooks c) ([], log) in
    if (0 <? length validationErrors)%nat then
      (Some ("address book validation errors:" +:+ String "010" "  - "
             +:+ GoStrings.Join validationErrors (String "010" "  - ")), log)
    else (None, log).

Definition GetAddressBookPaths (os : Host) (c : Config) (log : Log) : list string * Log :=
  fold_left (fun '(paths, log) '(_, ab) =>
               let '(path, log) := expandPath os (Path ab) log in
               (paths ++ [path], log))
    (AddressBooks c) ([], log).

End config.

(** ** Package [internal/app]: names, filter, export *)

(** [encoding/csv] and [encoding/json] are libraries; what they emit for a
    record, or for the contact list, is the runtime's. *)
Class GoEncoders := {
  (** the line [csv.Writer.Write(record)] emits with that [Comma]; [None]
      when the writer refuses *)
  csv_Write : ascii -> list string -> option string;
  (** the text [json.Encoder.Encode(contacts)] emits with two-space
      indentation; [None] when it refuses *)
  json_Encode : list vcard.Contact -> option string
}.

Module app.

Import vcard.

(** [strings.Builder] *)
Definition Builder := string.
Definition WriteString (b : Builder) (s : string) : Builder := b +:+ s.
Definition WriteRune (b : Builder) (r : ascii) : Builder := b +:+ String r "".

Definition addEmail `{GoRuntime} (builder : Builder) (email : EmailEntry) : Builder :=
  let builder := WriteRune (WriteString builder (GoStrings.ToLower (EmailValue email))) " " in
  if nonEmpty (EmailType email)
  then WriteRune (WriteString builder (GoStrings.ToLower (EmailType email))) " "
  else builder.

Definition addPhone `{GoRuntime} (builder : Builder) (phone : PhoneEntry) : Builder :=
  let builder := WriteRune (WriteString builder (GoStrings.ToLower (PhoneValue phone))) " " in
  if nonEmpty (PhoneType phone)
  then WriteRune (WriteString builder (GoStrings.ToLower (PhoneType phone))) " "
  else builder.

Definition addOptional `{GoRuntime} (builder : Builder) (field : string) : Builder :=
  if nonEmpty field
  then WriteRune (WriteString builder (GoStrings.ToLower field)) " "
  else builder.

Definition buildContactSearchText `{GoRuntime} (contact : Contact) : string :=
  let builder : Builder := "" in
  let builder := addOptional builder (Name contact) in
  let builder := fold_left addEmail (Emails contact) builder in
  let builder := fold_left addPhone (Phones contact) builder in
  let builder := addOptional builder (Organization contact) in
  let builder := addOptional builder (Note contact) in
  let builder := addOptional builder (Address contact) in
  GoStrings.TrimSpace builder.

Definition matchesFilter `{GoRuntime} (contact : Contact) (filter : list string) : bool :=
  if (length filter =? 0)%nat then true
  else
    let searchString := GoStrings.ToLower (GoStrings.Join filter " ") in
    let contactText := buildContactSearchText contact in
    GoStrings.Contains contactText searchString.

Definition extractSortKey `{GoRuntime} (contact : Contact) : string :=
  if nonEmpty (FamilyName contact) then GoStrings.ToLower (FamilyName contact)
  else if nonEmpty (Organization contact) && nonEmpty (Name contact)
  then GoStrings.ToLower (Organization contact)
  else if nonEmpty (Name contact) then GoStrings.ToLower (Name contact)
  else "".

(** the [less] closure of [sortContacts], on the two contacts it indexes;
    Go compares strings byte by byte *)
Definition sortKeyLess `{GoRuntime} (reverse : bool) (ci cj : Contact) : bool :=
  let keyI := extractSortKey ci in
  let keyJ := extractSortKey cj in
  if reverse then String.ltb keyJ keyI   (* keyI > keyJ *)
  else String.ltb keyI keyJ.

(** the [less] closure of [sortContactsByBirthday] *)
Definition birthdayLess (reverse : bool) (ci cj : Contact) : bool :=
  let timeI := Birthday ci in
  let timeJ := Birthday cj in
  if GoTime.IsZero timeI && GoTime.IsZero timeJ then false
  else if GoTime.IsZero timeI then false
  else if GoTime.IsZero timeJ then true
  else
    let monthI := GoTime.Month timeI in
    let monthJ := GoTime.Month timeJ in
    if negb (monthI =? monthJ) then
      if reverse then monthJ <? monthI else monthI <? monthJ
    else
      let dayI := GoTime.Day timeI in
      let dayJ := GoTime.Day timeJ in
      if reverse then dayJ <? dayI else dayI <? dayJ.

(** [sortContacts] sorts contacts by last name (for people) or full name
    (for companies) *)
Definition sortContacts `{GoRuntime} (contacts : list Contact) (reverse : bool)
  : list Contact :=
  GoSort.Slice (sortKeyLess reverse) contacts.

(** [sortContactsByBirthday] sorts contacts by birthday month and day *)
Definition sortContactsByBirthday `{GoRuntime} (contacts : list Contact) (reverse : bool)
  : list Contact :=
  GoSort.Slice (birthdayLess reverse) contacts.

(** What the export can touch: the address books it reads, the paths that
    exist for [os.Stat] with their content, the paths [os.Create] fails on,
    standard output and the log. *)
Record World := mkWorld {
  books : FileSystem;
  files : gmap string string;
  createFails : gmap string string;
  stdout : string;
  wlog : Log
}.

Record App := mkApp {
  (** [a.config.GetAddressBookPaths()] *)
  addressBookPaths : list string
}.

(** an [io.Writer]: [os.Stdout] or the created file *)
Inductive Writer := toStdout | toFile (path : string).

Definition write (w : World) (writer : Writer) (text : string) : World :=
  match writer with
  | toStdout => mkWorld (books w) (files w) (createFails w) (stdout w +:+ text) (wlog w)
  | toFile path =>
      mkWorld (books w) (alter (fun old => old +:+ text) path (files w))
        (createFails w) (stdout w) (wlog w)
  end.

Definition loadAndFilterContacts `{GoRuntime} (a : App) (w : World) (filter : list string)
  : World * list Contact * error :=
  match LoadContacts (books w) (addressBookPaths a) (wlog w) with
  | (_, Some err, log) =>
      (mkWorld (books w) (files w) (createFails w) (stdout w) log, [],
       Some ("failed to load contacts: " +:+ err))
  | (contacts, None, log) =>
      let w := mkWorld (books w) (files w) (createFails w) (stdout w) log in
      if (length filter =? 0)%nat then (w, contacts, None)
      else (w, List.filter (fun contact => matchesFilter contact filter) contacts, None)
  end.

Definition formatEmailsForExport `{GoRuntime} (emails : list EmailEntry) : string :=
  GoStrings.Join
    (map (fun email =>
            if nonEmpty (EmailType email)
            then EmailValue email +:+ " (" +:+ GoStrings.ToLower (EmailType email) +:+ ")"
            else EmailValue email) emails) "; ".

Definition formatPhonesForExport `{GoRuntime} (phones : list PhoneEntry) : string :=
  GoStrings.Join
    (map (fun phone =>
            if nonEmpty (PhoneType phone)
            then PhoneValue phone +:+ " (" +:+ GoStrings.ToLower (PhoneType phone) +:+ ")"
            else PhoneValue phone) phones) "; ".

(** the rows of [exportCSV], written one after the other until one fails *)
Fixpoint writeRows `{GoEncoders} (comma : ascii) (rows : list (list string))
  (w : World) (writer : Writer) (what : string) : World * error :=
  match rows with
  | [] => (w, None)
  | row :: rows' =>
      match csv_Write comma row with
      | Some line => writeRows comma rows' (write w writer line) writer what
      | None => (w, Some what)
      end
  end.

Definition exportCSV `{GoRuntime} `{GoEncoders} (w : World) (writer : Writer)
  (contacts : list Contact) (delimiter : string) : World * error :=
  let comma := match delimiter with String c _ => c | EmptyString => "," end%char in
  let header := ["Name"; "Emails"; "Phones"; "Organization"; "Note"; "Address"]%string in
  match writeRows comma [header] w writer "failed to write CSV header" with
  | (w, Some err) => (w, Some err)
  | (w, None) =>
      writeRows comma
        (map (fun contact =>
                [Name contact; formatEmailsForExport (Emails contact);
                 formatPhonesForExport (Phones contact); Organization contact;
                 Note contact; Address contact]) contacts)
        w writer "failed to write CSV record"
  end.

Definition exportJSON `{GoEncoders} (w : World) (writer : Writer)
  (contacts : list Contact) : World * error :=
  match json_Encode contacts with
  | Some text => (write w writer text, None)
  | None => (w, Some "failed to encode JSON")
  end.

(** the [switch format] at the end of [ExportContacts] *)
Definition exportSwitch `{GoRuntime} `{GoEncoders} (w : World) (writer : Writer)
  (contacts : list Contact) (format delimiter : string) : World * error :=
  if String.eqb format "csv" then exportCSV w writer contacts delimiter
  else if String.eqb format "json" then exportJSON w writer contacts
  else (w, Some ("unsupported format: " +:+ format)).

Definition ExportContacts `{GoRuntime} `{GoEncoders} (a : App) (w : World)
  (format delimiter output : string) (filter : list string) : World * error :=
  match loadAndFilterContacts a w filter with
  | (w, _, Some err) => (w, Some err)
  | (w, contacts, None) =>
      if nonEmpty output then
        match files w !! output with
        | Some _ => (w, Some ("output file already exists: " +:+ output))
        | None =>
            match createFails w !! output with
            | Some err => (w, Some ("failed to create output file: " +:+ err))
            | None =>
                (* os.Create: the file now exists, empty *)
                let w := mkWorld (books w) (<[output := ""%string]> (files w))
                           (createFails w) (stdout w) (wlog w) in
                exportSwitch w (toFile output) contacts format delimiter
            end
        end
      else exportSwitch w toStdout contacts format delimiter
  end.

(** *** Display names and the listings *)

Definition defaultEmailType : string := "email".
Definition defaultPhoneType : string := "phone".

(** [formatEntryType] returns the formatted type for display (email or
    phone) *)
Definition formatEntryType `{GoRuntime} (entryType defaultType : string) : string :=
  if String.eqb entryType "" then defaultType else GoStrings.ToLower entryType.

(** [if s != "" { parts = append(parts, s) }] *)
Definition appendNonEmpty (parts : list string) (s : string) : list string :=
  if nonEmpty s then parts ++ [s] else parts.

(** [formatNameForDisplay] formats names using the structured fields *)
Definition formatNameForDisplay (contact : Contact) : string :=
  let fallback := if nonEmpty (Name contact) then Name contact else ""%string in
  if nonEmpty (FamilyName contact) || nonEmpty (GivenName contact) then
    let parts := appendNonEmpty [] (FamilyName contact) in
    let givenParts := appendNonEmpty [] (Prefix contact) in
    let givenParts := appendNonEmpty givenParts (GivenName contact) in
    let givenParts := appendNonEmpty givenParts (MiddleName contact) in
    let givenParts := appendNonEmpty givenParts (Suffix contact) in
    if (0 <? length givenParts)%nat then
      if (0 <? length parts)%nat
      then GoStrings.Join parts "" +:+ ", " +:+ GoStrings.Join givenParts " "
      else GoStrings.Join givenParts " "
    else if (0 <? length parts)%nat then GoStrings.Join parts ""
    else fallback
  else fallback.

Definition tab : string := String "009" "".
Definition newline : string := String "010" "".

(** [fmt.Println(s)] and [fmt.Printf] with a format that ends in a newline:
    the text goes to standard output *)
Definition Println (w : World) (s : string) : World := write w toStdout (s +:+ newline).

(** [buildContactParts] creates the tab-separated parts for a contact
    display *)
Definition buildContactParts `{GoRuntime} (contact : Contact) (long : bool) : list string :=
  let parts := [formatNameForDisplay contact] in
  let parts :=
    fold_left (fun parts email =>
                 let emailType := formatEntryType (EmailType email) defaultEmailType in
                 parts ++ [emailType +:+ ": " +:+ EmailValue email])
      (Emails contact) parts in
  let parts :=
    fold_left (fun parts phone =>
                 let phoneType := formatEntryType (PhoneType phone) defaultPhoneType in
                 parts ++ [phoneType +:+ ": " +:+ PhoneValue phone])
      (Phones contact) parts in
  if long then
    let parts := if nonEmpty (Organization contact)
                 then parts ++ ["org: " +:+ Organization contact] else parts in
    let parts := if nonEmpty (Note contact)
                 then parts ++ ["note: " +:+ Note contact] else parts in
    let parts := if nonEmpty (Address contact)
                 then parts ++ ["address: " +:+ Address contact] else parts in
    parts
  else parts.

(** [ListContacts] lists all contacts with optional long format and
    filtering *)
Definition ListContacts `{GoRuntime} (a : App) (w : World) (long reverse : bool)
  (filter : list string) : World * error :=
  match loadAndFilterContacts a w filter with
  | (w, _, Some err) => (w, Some err)
  | (w, contacts, None) =>
      if (length contacts =? 0)%nat then (Println w "No contacts found", None)
      else
        let contacts := sortContacts contacts reverse in
        (fold_left (fun w contact =>
                      let parts := buildContactParts contact long in
                      Println w (GoStrings.Join parts tab))
           contacts w,
         None)
  end.

(** [ListEmails] lists only email entries for all contacts with filtering *)
Definition ListEmails `{GoRuntime} (a : App) (w : World) (parsable reverse : bool)
  (filter : list string) : World * error :=
  match loadAndFilterContacts a w filter with
  | (w, _, Some err) => (w, Some err)
  | (w, contacts, None) =>
      let contacts := sortContacts contacts reverse in
      if parsable then
        (fold_left (fun w contact =>
                      fold_left (fun w email =>
                                   let emailType :=
                                     formatEntryType (EmailType email) defaultEmailType in
                                   write w toStdout
                                     (EmailValue email +:+ tab +:+ Name contact +:+ tab +:+
                                      emailType +:+ newline))
                        (Emails contact) w)
           contacts w,
         None)
      else
        let w := Println w ("Name" +:+ tab +:+ "Email") in
        (fold_left (fun w contact =>
                      fold_left (fun w email =>
                                   let emailType :=
                                     formatEntryType (EmailType email) defaultEmailType in
                                   write w toStdout
                                     (formatNameForDisplay contact +:+ tab +:+ emailType +:+
                                      ": " +:+ EmailValue email +:+ newline))
                        (Emails contact) w)
           contacts w,
         None)
  end.

(** [ListPhones] lists only phone entries for all contacts with filtering *)
Definition ListPhones `{GoRuntime} (a : App) (w : World) (reverse : bool)
  (filter : list string) : World * error :=
  match loadAndFilterContacts a w filter with
  | (w, _, Some err) => (w, Some err)
  | (w, contacts, None) =>
      let contacts := sortContacts contacts reverse in
      let w := Println w ("Name" +:+ tab +:+ "Phone") in
      (fold_left (fun w contact =>
                    fold_left (fun w phone =>
                                 let phoneType :=
                                   formatEntryType (PhoneType phone) defaultPhoneType in
                                 write w toStdout
                                   (formatNameForDisplay contact +:+ tab +:+ phoneType +:+
                                    ": " +:+ PhoneValue phone +:+ newline))
                      (Phones contact) w)
         contacts w,
       None)
  end.

(** [GetBirthdayContacts] returns all contacts that have birthdays, sorted by
    month/day *)
Definition GetBirthdayContacts `{GoRuntime} (a : App) (w : World) (reverse : bool)
  (filter : list string) : World * list Contact * error :=
  match loadAndFilterContacts a w filter with
  | (w, _, Some err) => (w, [], Some err)
  | (w, contacts, None) =>
      let birthdayContacts :=
        List.filter (fun contact => negb (GoTime.IsZero (Birthday contact))) contacts in
      (w, sortContactsByBirthday birthdayContacts reverse, None)
  end.

(** [PrintBirthdays] displays contacts with birthdays in a formatted table *)
Definition PrintBirthdays `{GoRuntime} (a : App) (w : World) (reverse : bool)
  (filter : list string) : World * error :=
  match GetBirthdayContacts a w reverse filter with
  | (w, _, Some err) => (w, Some err)
  | (w, birthdayContacts, None) =>
      if (length birthdayContacts =? 0)%nat
      then (Println w "No contacts with birthdays found", None)
      else
        let w := Println w ("Name" +:+ tab +:+ "Birthday") in
        (fold_left (fun w contact =>
                      write w toStdout
                        (formatNameForDisplay contact +:+ tab +:+
                         FormatBirthdayForDisplay (Birthday contact) +:+ newline))
           birthdayContacts w,
         None)
  end.

(** [ListBirthdays] is kept for backward compatibility, calls
    [PrintBirthdays] *)
Definition ListBirthdays `{GoRuntime} (a : App) (w : World) (reverse : bool)
  (filter : list string) : World * error :=
  PrintBirthdays a w reverse filter.

End app.

(** ** The specification's own words, to compare the code with *)

Module Spec.

Import vcard.

(** SortKey: family name if present, else organization if it and the name
    are present, else the name if present, else empty; always lowercased. *)
Definition SortKey `{GoRuntime} (c : Contact) : string :=
  if decide (FamilyName c <> ""%string) then GoStrings.ToLower (FamilyName c)
  else if decide (Organization c <> ""%string /\ Name c <> ""%string)
  then GoStrings.ToLower (Organization c)
  else if decide (Name c <> ""%string) then GoStrings.ToLower (Name c)
  else ""%string.

(** a value, present or not *)
Definition present (s : string) : list string :=
  if decide (s <> ""%string) then [s] else [].

(** The pieces of the search blob in their fixed order: formatted name, each
    email's value then its type if present, each phone's value then its type
    if present, organization, note, address. *)
Definition blobParts (c : Contact) : list string :=
  present (Name c)
  ++ flat_map (fun e => EmailValue e :: present (EmailType e)) (Emails c)
  ++ flat_map (fun p => PhoneValue p :: present (PhoneType p)) (Phones c)
  ++ present (Organization c) ++ present (Note c) ++ present (Address c).

Fixpoint spaced (parts : list string) : string :=
  match parts with
  | [] => ""%string
  | p :: parts' => p +:+ " " +:+ spaced parts'
  end.

(** the lowercase blob: the lowercased pieces, a space after each, trimmed *)
Definition searchBlob `{GoRuntime} (c : Contact) : string :=
  GoStrings.TrimSpace (spaced (map GoStrings.ToLower (blobParts c))).

(** a calendar date with a four-digit year *)
Definition validDate (y m d : Z) : Prop :=
  0 <= y <= 9999 /\ 1 <= m <= 12 /\ 1 <= d <= GoTime.daysIn m y.

(** the full ISO form YYYY-MM-DD of a date *)
Definition isoText (y m d : Z) : string :=
  GoFmt.Sprintf_0d 4 y +:+ "-" +:+ GoFmt.Sprintf_0d 2 m +:+ "-" +:+ GoFmt.Sprintf_0d 2 d.

(** the display form MM/DD/YYYY of a date *)
Definition displayText (y m d : Z) : string :=
  GoFmt.Sprintf_0d 2 m +:+ "/" +:+ GoFmt.Sprintf_0d 2 d +:+ "/" +:+ GoFmt.Sprintf_0d 4 y.

(** the parser accepts the text: it is not blank and one of the layouts, or
    the ten-byte retry, reads a date from it *)
Definition accepted `{GoRuntime} (birthday : string) : Prop :=
  GoStrings.TrimSpace birthday <> ""%string /\
  vcard.matchBirthday (GoStrings.TrimSpace birthday) <> None.

(** what one address-book path yields, whatever the log holds *)
Definition pathOutcome `{GoRuntime} (fs : vcard.FileSystem) (path : string)
  : list vcard.Contact * error :=
  fst (vcard.loadContactsFromPath fs path []).

(** the path failed: [loadContactsFromPath] returned an error *)
Definition pathFails `{GoRuntime} (fs : vcard.FileSystem) (path : string) : Prop :=
  snd (pathOutcome fs path) <> None.

(** the contacts collected from the paths, concatenated in path order (a
    path that fails yields none) *)
Definition collected `{GoRuntime} (fs : vcard.FileSystem) (paths : list string)
  : list vcard.Contact :=
  flat_map (fun path => fst (pathOutcome fs path)) paths.

(** the cards of a source file that precede the end of its decoding *)
Definition decodedCards (view : GoVCard.FileView) : list GoVCard.Card :=
  match view with
  | GoVCard.OpenFails _ => []
  | GoVCard.Opened cards _ => cards
  end.

(** decoding the file produces a decode error *)
Definition decodeFails (view : GoVCard.FileView) : Prop :=
  match view with
  | GoVCard.Opened _ (Some _) => True
  | _ => False
  end.

(** one birthday comes strictly before another: month first, then day on a
    month tie; [reverse] inverts both comparisons *)
Definition monthDayLess (reverse : bool) (mi di mj dj : Z) : bool :=
  if reverse then (mj <? mi) || ((mi =? mj) && (dj <? di))
  else (mi <? mj) || ((mi =? mj) && (di <? dj)).

(** the contacts whose sort key is [key], in the order they stand in *)
Definition withKey `{GoRuntime} (key : string) (contacts : list vcard.Contact)
  : list vcard.Contact :=
  List.filter (fun c => String.eqb (app.extractSortKey c) key) contacts.

(** [needle] occurs as one contiguous substring of [hay] *)
Definition occursIn (needle hay : string) : Prop :=
  exists before after : string, hay = before +:+ needle +:+ after.

End Spec.

(** A runtime to evaluate with: the Unicode fallbacks leave the text alone
    (they are never reached on ASCII text), the clock reads 2026, the
    generator is a xorshift (no evaluation below reaches it). *)
Definition sampleRuntime : GoRuntime :=
  {| unicode_ToLower := fun s => s;
     unicode_ToUpper := fun s => s;
     unicode_TrimSpace := fun s => s;
     unicode_TrimRightSpace := fun s => s;
     Now_Year := 2026;
     sort_xorshift_Next := fun r =>
       let wrap x := N.land x (2 ^ 64 - 1)%N in
       let r := N.lxor r (wrap (N.shiftl r 13)) in
       let r := N.lxor r (N.shiftr r 17) in
       N.lxor r (wrap (N.shiftl r 5)) |}.

(** An address book to evaluate with: [a.vcf] holds a complete card followed
    by a card that is cut short, so its second [Decode] fails; [b.vcf] holds
    one complete card. *)
Definition cardNamed (name : string) : GoVCard.Card :=
  {[ GoVCard.FieldFormattedName := [GoVCard.mkField name []] ]}.

Definition brokenFile : GoVCard.FileView :=
  GoVCard.Opened [cardNamed "Alice"] (Some "vcard: no END field found"%string).

Definition soundFile : GoVCard.FileView :=
  GoVCard.Opened [cardNamed "Bob"] None.

Definition mixedBook : vcard.FileSystem :=
  {[ "book"%string :=
       [vcard.WalkDirectory "book";
        vcard.WalkFile "book/a.vcf" brokenFile;
        vcard.WalkFile "book/b.vcf" soundFile] ]}.

Definition brokenBook : vcard.FileSystem :=
  {[ "book"%string :=
       [vcard.WalkDirectory "book"; vcard.WalkFile "book/a.vcf" brokenFile] ]}.

(** Encoders to evaluate with; an unsupported format never reaches them. *)
Definition sampleEncoders : GoEncoders :=
  {| csv_Write := fun comma row =>
       Some (GoStrings.Join row (String comma "") +:+ String "010" "")%string;
     json_Encode := fun _ => Some "[]"%string |}.

(** a world without address books and without files *)
Definition emptyWorld : app.World := app.mkWorld ∅ ∅ ∅ "" [].

(** thirteen contacts, the first named Baker and twelve named Abel, told
    apart by their given names *)
Definition abel (given : string) : vcard.Contact :=
  vcard.mkContact "" "Abel" given "" "" "" [] [] "" "" "" GoTime.zeroTime "".

Definition thirteen : list vcard.Contact :=
  vcard.mkContact "" "Baker" "Zoe" "" "" "" [] [] "" "" "" GoTime.zeroTime ""
  :: map abel ["Ann"; "Ben"; "Cid"; "Dan"; "Eve"; "Fay"; "Gus"; "Hal"; "Ida"; "Jim";
               "Kay"; "Lee"]%string.

(** thirteen contacts named Abel, told apart by their given names *)
Definition thirteenAbels : list vcard.Contact :=
  map abel ["Ann"; "Ben"; "Cid"; "Dan"; "Eve"; "Fay"; "Gus"; "Hal"; "Ida"; "Jim";
            "Kay"; "Lee"; "Max"]%string.

(** A host to evaluate with: the home directory is [/home/ann], where
    [contacts] is a directory that can be opened; [filepath.Join] puts a
    slash between its arguments (the paths below need no cleaning). *)
Definition sampleHost : config.Host :=
  config.mkHost ("/home/ann"%string, None)
    {[ "/home/ann/contacts"%string := config.IsDir None ]}
    (fun dir name => dir +:+ "/" +:+ name)%string.

Definition sampleConfig : config.Config :=
  config.mkConfig [("personal"%string, config.mkAddressBook "~/contacts")].

(** ** Vocabulary of the proofs

    Checks, abbreviations and invariants that the properties below are
    stated and proved with. *)

(** [Sprintf_0d 2 n] is two digits that read back as [n] *)
Definition twoDigitsOK (n : Z) : bool :=
  match GoFmt.Sprintf_0d 2 n with
  | String a (String b EmptyString) =>
      match GoTime.digitOf a, GoTime.digitOf b with
      | Some x, Some y => x * 10 + y =? n
      | _, _ => false
      end
  | _ => false
  end.

(** [Sprintf_0d 4 n] is four digits that read back as [n] *)
Definition fourDigitsOK (n : Z) : bool :=
  match GoFmt.Sprintf_0d 4 n with
  | String a (String b (String c (String d EmptyString))) =>
      match GoTime.digitOf a, GoTime.digitOf b, GoTime.digitOf c, GoTime.digitOf d with
      | Some x, Some y, Some z, Some w => x * 1000 + y * 100 + z * 10 + w =? n
      | _, _, _, _ => false
      end
  | _ => false
  end.

(** the date fields are only written by the date chunks *)
Definition clockOnly (c : GoTime.chunk) : bool :=
  match c with
  | GoTime.stdLongYear | GoTime.stdZeroMonth | GoTime.stdZeroDay => false
  | _ => true
  end.

(** the record the decode loop logs for a card *)
Definition loadedRecord `{GoRuntime} (filePath : string) (card : GoVCard.Card) : LogRecord :=
  mkLog LevelDebug "Loaded contact" (vcard.Name (vcard.contactOfCard filePath card)).

(** the error the decode loop ends with, given how the stream ends and how
    many cards were decoded *)
Definition decodeEnd (ending : error) (fileContacts : nat) : error :=
  match ending with
  | Some err => Some ("failed to decode vCard: " +:+ err)%string
  | None => if (fileContacts =? 0)%nat then Some "no valid contacts found in file"%string
            else None
  end.

(** the variables of the walk apart from the log *)
Definition counts (st : vcard.walkState) : list vcard.Contact * nat * nat * nat :=
  (vcard.w_contacts st, vcard.w_vcfCount st, vcard.w_processedCount st,
   vcard.w_errorCount st).

(** every .vcf file seen so far was processed or failed, and a processed
    file has left a contact *)
Definition walkInv (st : vcard.walkState) : Prop :=
  vcard.w_vcfCount st = (vcard.w_processedCount st + vcard.w_errorCount st)%nat /\
  ((0 < vcard.w_processedCount st)%nat -> vcard.w_contacts st <> []).

(** the contacts one walk entry adds to the slice of its path *)
Definition entryContacts `{GoRuntime} (ev : vcard.WalkEvent) : list vcard.Contact :=
  match ev with
  | vcard.WalkFile filePath view =>
      if GoStrings.HasSuffix (GoStrings.ToLower filePath) ".vcf"
      then map (vcard.contactOfCard filePath) (Spec.decodedCards view)
      else []
  | _ => []
  end.

(** the comparison handed to [sort.Slice] is a strict weak order *)
Record strictWeakOrder {A : Type} (less : A -> A -> bool) : Prop := {
  less_irrefl : forall x, less x x = false;
  less_trans : forall x y z, less x y = true -> less y z = true -> less x z = true;
  less_ntrans : forall x y z, less x y = false -> less y z = false -> less x z = false
}.

(** [c] is a child of [r] in the implicit binary tree *)
Definition isChild (r c : nat) : Prop := c = (2 * r + 1)%nat \/ c = (2 * r + 2)%nat.

Section SortVocabulary.

Context {A : Type} `{Inhabited A}.

Implicit Types l : list A.

(** [l'] comes from [l] by swaps of places inside [a, b) *)
Inductive swaps (a b : nat) : list A -> list A -> Prop :=
| swaps_refl l : swaps a b l l
| swaps_step l l' i j :
    (a <= i < b)%nat -> (a <= j < b)%nat -> (b <= length l)%nat ->
    swaps a b (GoSort.Swap l i j) l' -> swaps a b l l'.

Variable less : A -> A -> bool.

(** [data[a:b]] is in order: no element is less than an earlier one *)
Definition sortedRange l (a b : nat) : Prop :=
  forall i j : nat, (a <= i)%nat -> (i < j)%nat -> (j < b)%nat ->
    less (l !!! j) (l !!! i) = false.

(** the cursors of [partition_func]: between them nothing is known yet;
    before [i] everything is less than the pivot at [a], after [j] nothing
    is *)
Definition partitionInv l (a b i j : nat) : Prop :=
  (a + 1 <= i)%nat /\ (i <= j + 1)%nat /\ (j + 1 <= b)%nat /\
  (forall k, (a < k < i)%nat -> less (l !!! k) (l !!! a) = true) /\
  (forall k, (j < k < b)%nat -> less (l !!! k) (l !!! a) = false).

(** the cursors of [partitionEqual_func]: before [i] nothing is greater than
    the pivot at [a], after [j] everything is *)
Definition partitionEqualInv l (a b i j : nat) : Prop :=
  (a + 1 <= i)%nat /\ (i <= j + 1)%nat /\ (j + 1 <= b)%nat /\
  (forall k, (a < k < i)%nat -> less (l !!! a) (l !!! k) = false) /\
  (forall k, (j < k < b)%nat -> less (l !!! a) (l !!! k) = true).

(** nothing in [data[a:b]] is less than the element just before the range *)
Definition boundedBelow l (a b : nat) : Prop :=
  a = 0%nat \/
  forall k, (a <= k < b)%nat -> less (l !!! k) (l !!! (a - 1)%nat) = false.

(** no node of [lo, n) is less than one of its children below [n]; the tree
    lies at offset [first] *)
Definition heapFrom l (first lo n : nat) : Prop :=
  forall r c, (lo <= r)%nat -> isChild r c -> (c < n)%nat ->
    less (l !!! (first + r)%nat) (l !!! (first + c)%nat) = false.

(** the loop of [siftDown_func] at [root]: every other node is in place, and
    the parent of [root] is not less than the children of [root] *)
Definition siftInv l (first lo hi root : nat) : Prop :=
  (forall r c, (lo <= r)%nat -> r <> root -> isChild r c -> (c < hi)%nat ->
     less (l !!! (first + r)%nat) (l !!! (first + c)%nat) = false) /\
  (forall p c, (lo <= p)%nat -> isChild p root -> isChild root c -> (c < hi)%nat ->
     less (l !!! (first + p)%nat) (l !!! (first + c)%nat) = false).

End SortVocabulary.

(** the text of some lines, each ended by a newline *)
Definition textOf (lines : list string) : string :=
  foldr (fun line text => line +:+ app.newline +:+ text)%string ""%string lines.

(** the compact form YYYYMMDD of a date *)
Definition compactText (y m d : Z) : string :=
  GoFmt.Sprintf_0d 4 y +:+ GoFmt.Sprintf_0d 2 m +:+ GoFmt.Sprintf_0d 2 d.

(** the year-unknown forms --MM-DD and --MMDD of a day of the year *)
Definition yearlessText (m d : Z) : string :=
  "--" +:+ GoFmt.Sprintf_0d 2 m +:+ "-" +:+ GoFmt.Sprintf_0d 2 d.

Definition yearlessCompactText (m d : Z) : string :=
  "--" +:+ GoFmt.Sprintf_0d 2 m +:+ GoFmt.Sprintf_0d 2 d.

(** the display form MM/DD of a day of the year *)
Definition monthDayText (m d : Z) : string :=
  GoFmt.Sprintf_0d 2 m +:+ "/" +:+ GoFmt.Sprintf_0d 2 d.

(** an address book that [Validate] has nothing to say against: its path is
    set and leads, once expanded, to a directory that can be opened *)
Definition usable (os : config.Host) (entry : string * config.AddressBook) : Prop :=
  config.Path (snd entry) <> ""%string /\
  config.paths os !! fst (config.expandPath os (config.Path (snd entry)) [])
  = Some (config.IsDir None).

(** * Properties *)

(** ** Strings *)

#[local] Arguments String.append !s1 s2 : simpl nomatch.

Section StringFacts.

Lemma append_nil_r (s : string) : s +:+ "" = s.
Proof. induction s as [|c s IH]; simpl; [reflexivity | now rewrite IH]. Qed.

Lemma append_assoc (s1 s2 s3 : string) : (s1 +:+ s2) +:+ s3 = s1 +:+ (s2 +:+ s3).
Proof. induction s1 as [|c s1 IH]; simpl; [reflexivity | now rewrite IH]. Qed.

Lemma nonEmpty_true (s : string) : vcard.nonEmpty s = true <-> s <> ""%string.
Proof.
  unfold vcard.nonEmpty. destruct (String.eqb_spec s ""); simpl; split; intros; congruence.
Qed.

Lemma nonEmpty_decide (s : string) (A : Type) (x y : A) :
  (if vcard.nonEmpty s then x else y) = (if decide (s <> ""%string) then x else y).
Proof.
  destruct (decide (s <> ""%string)) as [Hn | Hn].
  - apply nonEmpty_true in Hn. now rewrite Hn.
  - destruct (vcard.nonEmpty s) eqn:E; [| reflexivity].
    apply nonEmpty_true in E. contradiction.
Qed.

Lemma HasPrefix_spec (s prefix : string) :
  GoStrings.HasPrefix s prefix = true <-> exists rest, s = prefix +:+ rest.
Proof.
  revert s. induction prefix as [|p prefix IH]; intros s; simpl.
  - split; [intros _; now exists s | reflexivity].
  - destruct s as [|c s]; simpl.
    + split; [discriminate | intros [rest Hr]; discriminate].
    + rewrite andb_true_iff, IH. split.
      * intros [Hc [rest ->]]. apply Ascii.eqb_eq in Hc. subst. now exists rest.
      * intros [rest Hr]. injection Hr as -> ->. split; [apply Ascii.eqb_refl | now exists rest].
Qed.

Lemma Contains_spec (s substr : string) :
  GoStrings.Contains s substr = true <-> Spec.occursIn substr s.
Proof.
  unfold Spec.occursIn. induction s as [|c s IH].
  - simpl. rewrite orb_false_r, HasPrefix_spec. split.
    + intros [rest Hr]. now exists ""%string, rest.
    + intros [before [after Hba]]. destruct before; simpl in Hba; [now exists after | discriminate].
  - cbn [GoStrings.Contains]. rewrite orb_true_iff, HasPrefix_spec, IH. split.
    + intros [[rest Hr] | [before [after Hba]]].
      * now exists ""%string, rest.
      * exists (String c before), after. simpl. now rewrite Hba.
    + intros [before [after Hba]]. destruct before as [|b before]; simpl in Hba.
      * left. now exists after.
      * right. injection Hba as _ Hs. now exists before, after.
Qed.

End StringFacts.

(** ** Sort key and filter *)

Section NamesAndFilter.

Context `{GoRuntime}.

Import vcard.

(** C5: [extractSortKey] is the lowercased family name when there is one,
    else the lowercased organization when organization and name are both
    there, else the lowercased name when there is one, else empty.  So an
    organization without name and family name gives the empty key, and a
    family name wins over an organization. *)
Theorem extractSortKey_precedence :
  (forall c : Contact, app.extractSortKey c = Spec.SortKey c) /\
  (forall (org : string) c,
      app.extractSortKey
        (mkContact "" "" (GivenName c) (MiddleName c) (Prefix c) (Suffix c)
           (Emails c) (Phones c) org (Note c) (Address c) (Birthday c) (FileName c))
      = ""%string) /\
  (forall (a : ascii) (family org : string) c,
      app.extractSortKey
        (mkContact (Name c) (String a family) (GivenName c) (MiddleName c) (Prefix c)
           (Suffix c) (Emails c) (Phones c) org (Note c) (Address c) (Birthday c)
           (FileName c))
      = GoStrings.ToLower (String a family)).
Proof.
  split; [| split].
  - intros c. unfold app.extractSortKey, Spec.SortKey.
    rewrite !nonEmpty_decide.
    destruct (decide (FamilyName c <> ""%string)); [reflexivity |].
    destruct (decide (Name c <> ""%string)) as [Hn | Hn];
      destruct (decide (Organization c <> ""%string)) as [Ho | Ho].
    + rewrite (proj2 (nonEmpty_true _) Ho), (proj2 (nonEmpty_true _) Hn). simpl.
      destruct (decide _) as [_ | Hno]; [reflexivity | exfalso; apply Hno; now split].
    + destruct (nonEmpty (Organization c)) eqn:E;
        [apply nonEmpty_true in E; contradiction |]. simpl.
      destruct (decide _) as [[Hx _] | _]; [contradiction | reflexivity].
    + destruct (nonEmpty (Name c)) eqn:E;
        [apply nonEmpty_true in E; contradiction |]. rewrite andb_false_r.
      destruct (decide _) as [[_ Hx] | _]; [contradiction | reflexivity].
    + destruct (nonEmpty (Name c)) eqn:E;
        [apply nonEmpty_true in E; contradiction |]. rewrite andb_false_r.
      destruct (decide _) as [[_ Hx] | _]; [contradiction | reflexivity].
  - intros org c. unfold app.extractSortKey. simpl. now rewrite andb_false_r.
  - intros a family org c. reflexivity.
Qed.

Lemma addOptional_spaced (b : app.Builder) (field : string) :
  app.addOptional b field
  = b +:+ Spec.spaced (map GoStrings.ToLower (Spec.present field)).
Proof.
  unfold app.addOptional, Spec.present. rewrite nonEmpty_decide.
  destruct (decide _); simpl.
  - unfold app.WriteRune, app.WriteString. now rewrite append_assoc.
  - now rewrite append_nil_r.
Qed.

Lemma spaced_app (xs ys : list string) :
  Spec.spaced (xs ++ ys) = Spec.spaced xs +:+ Spec.spaced ys.
Proof.
  induction xs as [|x xs IH]; simpl; [reflexivity |].
  now rewrite IH, !append_assoc.
Qed.

Lemma addEmails_spaced (emails : list EmailEntry) (b : app.Builder) :
  fold_left app.addEmail emails b
  = b +:+ Spec.spaced (map GoStrings.ToLower
            (flat_map (fun e => EmailValue e :: Spec.present (EmailType e)) emails)).
Proof.
  revert b. induction emails as [|e emails IH]; intros b; simpl.
  - now rewrite append_nil_r.
  - rewrite IH. unfold app.addEmail, app.WriteRune, app.WriteString.
    rewrite map_app, spaced_app. unfold Spec.present at 2. rewrite nonEmpty_decide.
    destruct (decide _); simpl; now rewrite ?append_assoc.
Qed.

Lemma addPhones_spaced (phones : list PhoneEntry) (b : app.Builder) :
  fold_left app.addPhone phones b
  = b +:+ Spec.spaced (map GoStrings.ToLower
            (flat_map (fun p => PhoneValue p :: Spec.present (PhoneType p)) phones)).
Proof.
  revert b. induction phones as [|e phones IH]; intros b; simpl.
  - now rewrite append_nil_r.
  - rewrite IH. unfold app.addPhone, app.WriteRune, app.WriteString.
    rewrite map_app, spaced_app. unfold Spec.present at 2. rewrite nonEmpty_decide.
    destruct (decide _); simpl; now rewrite ?append_assoc.
Qed.

Lemma buildContactSearchText_blob (c : Contact) :
  app.buildContactSearchText c = Spec.searchBlob c.
Proof.
  unfold app.buildContactSearchText, Spec.searchBlob, Spec.blobParts.
  rewrite !addOptional_spaced, addEmails_spaced, addPhones_spaced.
  rewrite !map_app, !spaced_app, !append_assoc. reflexivity.
Qed.

(** C6: an empty term list matches every contact; a non-empty one matches
    exactly when the terms, joined by single spaces and lowercased, occur as
    one contiguous substring of the contact's search blob: the lowercased
    name, email values and types, phone values and types, organization, note
    and address, in that order, a space after each, the whole trimmed. *)
Theorem matchesFilter_substring :
  (forall c : Contact, app.matchesFilter c [] = true) /\
  (forall (c : Contact) (term : string) (terms : list string),
      app.matchesFilter c (term :: terms) = true <->
      Spec.occursIn (GoStrings.ToLower (GoStrings.Join (term :: terms) " "))
        (Spec.searchBlob c)).
Proof.
  split; [reflexivity |].
  intros c term terms. unfold app.matchesFilter.
  cbn [length Nat.eqb]. rewrite Contains_spec, buildContactSearchText_blob.
  reflexivity.
Qed.

End NamesAndFilter.

(** ** Birthdays: parsing and display *)

Section DigitFacts.

Import GoTime.

Lemma digitOf_byte (c : ascii) (k : Z) :
  digitOf c = Some k -> (48 <= GoStrings.byte_val c <= 57)%N /\ k = Z.of_N (GoStrings.byte_val c) - 48.
Proof.
  unfold digitOf. destruct (_ && _)%bool eqn:E; [| discriminate].
  apply andb_true_iff in E as [E1 E2]. apply N.leb_le in E1, E2.
  intros [= <-]. split; [lia | reflexivity].
Qed.

Lemma digitOf_range (c : ascii) (k : Z) : digitOf c = Some k -> 0 <= k <= 9.
Proof. intros Hd. apply digitOf_byte in Hd as [Hb ->]. lia. Qed.

Lemma digitOf_plain (c : ascii) (k : Z) :
  digitOf c = Some k ->
  GoStrings.nonASCII c = false /\ GoStrings.asciiSpace c = false /\ Ascii.eqb c "-" = false.
Proof.
  intros Hd. pose proof (digitOf_byte _ _ Hd) as [Hb _]. repeat split.
  - unfold GoStrings.nonASCII. apply N.leb_gt. lia.
  - unfold GoStrings.asciiSpace. cbv zeta.
    repeat (apply orb_false_iff; split); apply N.eqb_neq; lia.
  - destruct (Ascii.eqb_spec c "-") as [-> |]; [| reflexivity].
    vm_compute in Hd. discriminate.
Qed.

Lemma digitOf_char (c : ascii) (k : Z) :
  digitOf c = Some k -> c = ascii_of_N (Z.to_N k + 48).
Proof.
  intros Hd. apply digitOf_byte in Hd as [Hb ->].
  replace (Z.to_N (Z.of_N (GoStrings.byte_val c) - 48) + 48)%N with (GoStrings.byte_val c) by lia.
  unfold GoStrings.byte_val. now rewrite ascii_N_embedding.
Qed.

Lemma twoDigits_all : forallb (fun n => twoDigitsOK (Z.of_nat n)) (seq 0 100) = true.
Proof. vm_compute. reflexivity. Qed.

Lemma fourDigits_all : forallb (fun n => fourDigitsOK (Z.of_nat n)) (seq 0 (Z.to_nat 10000)) = true.
Proof. vm_compute. reflexivity. Qed.

Lemma Sprintf_two (n : Z) :
  0 <= n <= 99 ->
  exists a b x y,
    GoFmt.Sprintf_0d 2 n = String a (String b EmptyString) /\
    digitOf a = Some x /\ digitOf b = Some y /\ x * 10 + y = n.
Proof.
  intros Hn. pose proof twoDigits_all as Hall.
  rewrite forallb_forall in Hall. specialize (Hall (Z.to_nat n)).
  rewrite Z2Nat.id in Hall by lia.
  assert (Hin : In (Z.to_nat n) (seq 0 100)) by (apply in_seq; lia).
  specialize (Hall Hin). unfold twoDigitsOK in Hall.
  destruct (GoFmt.Sprintf_0d 2 n) as [|a [|b [|]]]; try discriminate.
  destruct (digitOf a) as [x|] eqn:Ha; [| discriminate].
  destruct (digitOf b) as [y|] eqn:Hb; [| discriminate].
  apply Z.eqb_eq in Hall. now exists a, b, x, y.
Qed.

Lemma Sprintf_four (n : Z) :
  0 <= n <= 9999 ->
  exists a b c d x y z w,
    GoFmt.Sprintf_0d 4 n = String a (String b (String c (String d EmptyString))) /\
    digitOf a = Some x /\ digitOf b = Some y /\ digitOf c = Some z /\ digitOf d = Some w /\
    x * 1000 + y * 100 + z * 10 + w = n.
Proof.
  intros Hn. pose proof fourDigits_all as Hall.
  rewrite forallb_forall in Hall. specialize (Hall (Z.to_nat n)).
  rewrite Z2Nat.id in Hall by lia.
  assert (Hin : In (Z.to_nat n) (seq 0 (Z.to_nat 10000))) by (apply in_seq; lia).
  specialize (Hall Hin). unfold fourDigitsOK in Hall.
  destruct (GoFmt.Sprintf_0d 4 n) as [|a [|b [|c [|d [|]]]]]; try discriminate.
  destruct (digitOf a) as [x|] eqn:Ha; [| discriminate].
  destruct (digitOf b) as [y|] eqn:Hb; [| discriminate].
  destruct (digitOf c) as [z|] eqn:Hc; [| discriminate].
  destruct (digitOf d) as [w|] eqn:Hd; [| discriminate].
  apply Z.eqb_eq in Hall. now exists a, b, c, d, x, y, z, w.
Qed.

End DigitFacts.

Section BirthdayRoundTrip.

Context `{GoRuntime}.

Import GoTime vcard.

Lemma rollDays_valid (fuel : nat) (y m d : Z) :
  d <= daysIn m y -> rollDays fuel y m d = (y, m, d).
Proof.
  intros Hd. destruct fuel; simpl; [reflexivity |].
  destruct (Z.ltb_spec (daysIn m y) d); [lia | reflexivity].
Qed.

Lemma rollDays_S (fuel : nat) (y m d : Z) :
  rollDays (S fuel) y m d =
  if daysIn m y <? d then
    if m =? 12 then rollDays fuel (y + 1) 1 (d - daysIn m y)
    else rollDays fuel y (m + 1) (d - daysIn m y)
  else (y, m, d).
Proof. reflexivity. Qed.

Lemma Date_valid (y m d h mi s ns : Z) :
  d <= daysIn m y -> Date y m d h mi s ns = mkTime y m d h mi s ns.
Proof. intros Hd. unfold Date. now rewrite rollDays_valid. Qed.

(** the layout 2006-01-02 reads a well-formed ISO date back *)
Lemma Parse_isoText (y m d : Z) :
  Spec.validDate y m d ->
  exists c0 k0 rest,
    Spec.isoText y m d = String c0 rest /\ digitOf c0 = Some k0 /\
    GoStrings.TrimSpace (Spec.isoText y m d) = Spec.isoText y m d /\
    Parse isoDate (Spec.isoText y m d) = Some (mkTime y m d 0 0 0 0).
Proof.
  intros (Hy & Hm & Hd).
  assert (Hd31 : daysIn m y <= 31).
  { unfold daysIn. repeat (destruct (_ : bool)); lia. }
  destruct (Sprintf_four y Hy) as (a & b & c & e & x1 & x2 & x3 & x4 & Ey & Ha & Hb & Hc & He & Hsum).
  destruct (Sprintf_two m) as (m1 & m2 & u1 & u2 & Em & Hm1 & Hm2 & Hmsum); [lia |].
  destruct (Sprintf_two d) as (d1 & d2 & v1 & v2 & Ed & Hd1 & Hd2 & Hdsum); [lia |].
  unfold Spec.isoText. rewrite Ey, Em, Ed. cbn [String.append].
  eexists a, x1, _. split; [reflexivity |]. split; [exact Ha |].
  destruct (digitOf_plain _ _ Ha) as (Ha1 & Ha2 & _).
  destruct (digitOf_plain _ _ Hd2) as (Hz1 & Hz2 & _).
  split.
  - unfold GoStrings.TrimSpace. cbn [GoStrings.skipSpace]. rewrite Ha1, Ha2.
    cbn [GoStrings.string_rev GoStrings.string_rev_onto GoStrings.skipSpace].
    rewrite Hz1, Hz2. reflexivity.
  - unfold Parse, isoDate. cbn [parseChunks getyear]. rewrite Ha, Hb, Hc, He.
    cbn [skip]. rewrite Ascii.eqb_refl. cbn [getnum]. rewrite Hm1, Hm2.
    rewrite Hsum, Hmsum.
    destruct (Z.leb_spec m 0); [lia |]. destruct (Z.ltb_spec 12 m); [lia |].
    cbn [orb skip]. rewrite Ascii.eqb_refl. cbn [getnum]. rewrite Hd1, Hd2, Hdsum.
    cbn [String.eqb f_month f_day f_year f_hour f_min f_sec f_nsec].
    destruct (Z.ltb_spec m 0); [lia |]. destruct (Z.ltb_spec d 0); [lia |].
    destruct (Z.ltb_spec d 1); [lia |]. destruct (Z.ltb_spec (daysIn m y) d); [lia |].
    cbn [orb]. now rewrite Date_valid by lia.
Qed.

Lemma parseBirthday_isoText (y m d : Z) :
  Spec.validDate y m d ->
  parseBirthday (Spec.isoText y m d) = mkTime y m d 0 0 0 0.
Proof.
  intros Hv. destruct (Parse_isoText y m d Hv) as (c0 & k0 & rest & Es & Hc0 & Htrim & Hparse).
  unfold parseBirthday. rewrite Htrim.
  unfold matchBirthday, layouts. cbn [tryFormats].
  change [stdLongYear; lit "-"; stdZeroMonth; lit "-"; stdZeroDay] with isoDate.
  rewrite Hparse. rewrite Es.
  destruct (digitOf_plain _ _ Hc0) as (_ & _ & Hdash).
  cbn [GoStrings.HasPrefix String.eqb]. rewrite Hdash. reflexivity.
Qed.

(** C8 (amended): a birthday in full ISO form YYYY-MM-DD whose year is not
    the current calendar year, and whose date is not January 1 of year 1, is
    displayed as MM/DD/YYYY with the same month, day and year. *)
Theorem birthday_round_trip (y m d : Z) :
  Spec.validDate y m d ->
  y <> Now_Year ->
  (y, m, d) <> (1, 1, 1) ->
  FormatBirthdayForDisplay (parseBirthday (Spec.isoText y m d)) = Spec.displayText y m d.
Proof.
  intros Hv Hyear Hnot1. rewrite parseBirthday_isoText by exact Hv.
  unfold FormatBirthdayForDisplay, IsZero. cbn [Year Month Day Hour Minute Second Nanosecond].
  destruct (Z.eqb_spec y Now_Year); [contradiction |].
  destruct (Z.eqb_spec y 1), (Z.eqb_spec m 1), (Z.eqb_spec d 1); subst;
    try (exfalso; apply Hnot1; reflexivity); reflexivity.
Qed.

End BirthdayRoundTrip.

(** the amended C8 at 15 January 1990, read in 2026 *)
Lemma birthday_round_trip_witness :
  Spec.validDate 1990 1 15 /\ 1990 <> @Now_Year sampleRuntime /\
  (1990, 1, 15) <> (1, 1, 1) /\
  @vcard.FormatBirthdayForDisplay sampleRuntime
    (@vcard.parseBirthday sampleRuntime (Spec.isoText 1990 1 15))
  = Spec.displayText 1990 1 15.
Proof.
  assert (Hv : Spec.validDate 1990 1 15)
    by (unfold Spec.validDate; vm_compute; intuition discriminate).
  assert (Hy : 1990 <> @Now_Year sampleRuntime) by (vm_compute; discriminate).
  assert (Hd : (1990, 1, 15) <> (1, 1, 1)) by (intros [=]).
  split; [exact Hv |]. split; [exact Hy |]. split; [exact Hd |].
  exact (@birthday_round_trip sampleRuntime 1990 1 15 Hv Hy Hd).
Defined.

(** C8 as stated fails at 0001-01-01, a full ISO date whose year is not the
    current one: it parses to the zero [Time] and is displayed as nothing. *)
Lemma birthday_round_trip_fails_0001_01_01 :
  Spec.validDate 1 1 1 /\ 1 <> @Now_Year sampleRuntime /\
  Spec.isoText 1 1 1 = "0001-01-01"%string /\
  Spec.displayText 1 1 1 = "01/01/0001"%string /\
  @vcard.FormatBirthdayForDisplay sampleRuntime
    (@vcard.parseBirthday sampleRuntime (Spec.isoText 1 1 1)) = ""%string /\
  @vcard.FormatBirthdayForDisplay sampleRuntime
    (@vcard.parseBirthday sampleRuntime (Spec.isoText 1 1 1)) <> Spec.displayText 1 1 1.
Proof.
  split; [unfold Spec.validDate; vm_compute; intuition discriminate |].
  split; [vm_compute; discriminate |].
  repeat split; try reflexivity.
  vm_compute. discriminate.
Qed.

Section BirthdayAbsence.

Context `{GoRuntime}.

Import GoTime vcard.

Lemma IsZero_true (t : Time) : IsZero t = true -> t = zeroTime.
Proof.
  destruct t as [y m d h mi s ns]. unfold IsZero. cbn.
  rewrite !andb_true_iff, !Z.eqb_eq. intros [[[[[[-> ->] ->] ->] ->] ->] ->]. reflexivity.
Qed.

Lemma getyear_inv (v v' : string) (y : Z) :
  getyear v = Some (y, v') ->
  exists c0 c1 c2 c3 k0 k1 k2 k3,
    v = String c0 (String c1 (String c2 (String c3 v'))) /\
    digitOf c0 = Some k0 /\ digitOf c1 = Some k1 /\
    digitOf c2 = Some k2 /\ digitOf c3 = Some k3 /\
    y = k0 * 1000 + k1 * 100 + k2 * 10 + k3.
Proof.
  destruct v as [|c0 [|c1 [|c2 [|c3 r]]]]; try discriminate. cbn [getyear].
  destruct (digitOf c0) as [k0|] eqn:E0; [| discriminate].
  destruct (digitOf c1) as [k1|] eqn:E1; [| discriminate].
  destruct (digitOf c2) as [k2|] eqn:E2; [| discriminate].
  destruct (digitOf c3) as [k3|] eqn:E3; [| discriminate].
  intros [= <- <-]. now exists c0, c1, c2, c3, k0, k1, k2, k3.
Qed.

Lemma getnum_fixed_inv (v v' : string) (n : Z) :
  getnum v true = Some (n, v') ->
  exists c0 c1 k0 k1,
    v = String c0 (String c1 v') /\ digitOf c0 = Some k0 /\ digitOf c1 = Some k1 /\
    n = k0 * 10 + k1.
Proof.
  destruct v as [|c0 [|c1 r]]; cbn [getnum]; try discriminate.
  - destruct (digitOf c0); discriminate.
  - destruct (digitOf c0) as [k0|] eqn:E0; [| discriminate].
    destruct (digitOf c1) as [k1|] eqn:E1; [| discriminate].
    intros [= <- <-]. now exists c0, c1, k0, k1.
Qed.

Lemma getnum_range (v v' : string) (n : Z) (fixed : bool) :
  getnum v fixed = Some (n, v') -> 0 <= n <= 99.
Proof.
  destruct v as [|c0 [|c1 r]]; cbn [getnum]; try discriminate.
  - destruct (digitOf c0) as [k0|] eqn:E0; [| discriminate].
    apply digitOf_range in E0. destruct fixed; [discriminate |]. intros [= <- <-]. lia.
  - destruct (digitOf c0) as [k0|] eqn:E0; [| discriminate]. apply digitOf_range in E0.
    destruct (digitOf c1) as [k1|] eqn:E1.
    + apply digitOf_range in E1. intros [= <- <-]. lia.
    + destruct fixed; [discriminate |]. intros [= <- <-]. lia.
Qed.

Lemma skip_inv (v prefix v' : string) : skip v prefix = Some v' -> v = prefix +:+ v'.
Proof.
  revert v. induction prefix as [|p prefix IH]; intros v; cbn [skip].
  - now intros [= ->].
  - destruct v as [|c v]; [discriminate |].
    destruct (Ascii.eqb_spec c p) as [-> |]; [| discriminate].
    intros Hs. apply IH in Hs. subst. reflexivity.
Qed.

Lemma digit_zero (c : ascii) : digitOf c = Some 0 -> c = "0"%char.
Proof. intros Hd. now apply digitOf_char in Hd. Qed.

Lemma digit_one (c : ascii) : digitOf c = Some 1 -> c = "1"%char.
Proof. intros Hd. now apply digitOf_char in Hd. Qed.

Lemma daysIn_le (m y : Z) : 28 <= daysIn m y <= 31.
Proof. unfold daysIn. repeat (destruct (_ : bool)); lia. Qed.

(** a four-digit year that is 1 is written 0001, a two-digit field that
    is 1 is written 01 *)
Lemma year_one (k0 k1 k2 k3 : Z) (c0 c1 c2 c3 : ascii) :
  digitOf c0 = Some k0 -> digitOf c1 = Some k1 -> digitOf c2 = Some k2 ->
  digitOf c3 = Some k3 -> k0 * 1000 + k1 * 100 + k2 * 10 + k3 = 1 ->
  c0 = "0"%char /\ c1 = "0"%char /\ c2 = "0"%char /\ c3 = "1"%char.
Proof.
  intros H0 H1 H2 H3 Hs.
  pose proof (digitOf_range _ _ H0). pose proof (digitOf_range _ _ H1).
  pose proof (digitOf_range _ _ H2). pose proof (digitOf_range _ _ H3).
  assert (k0 = 0) by lia. assert (k1 = 0) by lia. assert (k2 = 0) by lia.
  assert (k3 = 1) by lia. subst.
  repeat split; auto using digit_zero, digit_one.
Qed.

Lemma field_one (k0 k1 : Z) (c0 c1 : ascii) :
  digitOf c0 = Some k0 -> digitOf c1 = Some k1 -> k0 * 10 + k1 = 1 ->
  c0 = "0"%char /\ c1 = "1"%char.
Proof.
  intros H0 H1 Hs.
  pose proof (digitOf_range _ _ H0). pose proof (digitOf_range _ _ H1).
  assert (k0 = 0) by lia. assert (k1 = 1) by lia. subst.
  split; auto using digit_zero, digit_one.
Qed.

Lemma parseChunks_clock (layout : list chunk) (v : string) (f f' : fields) :
  forallb clockOnly layout = true ->
  parseChunks layout v f = Some f' ->
  f_year f' = f_year f /\ f_month f' = f_month f /\ f_day f' = f_day f.
Proof.
  revert v f. induction layout as [|c layout IH]; intros v f Hall Hp.
  - cbn in Hp. destruct (String.eqb v ""); [| discriminate]. now injection Hp as <-.
  - cbn [forallb] in Hall. apply andb_true_iff in Hall as [Hc Hall].
    destruct c; try discriminate Hc; cbn [parseChunks] in Hp.
    + destruct (skip v text); [| discriminate]. now apply IH in Hp.
    + destruct (getnum v false) as [[h v']|]; [| discriminate].
      destruct (_ || _)%bool; [discriminate |]. now apply IH in Hp.
    + destruct (getnum v true) as [[h v']|]; [| discriminate].
      destruct (_ || _)%bool; [discriminate |]. now apply IH in Hp.
    + destruct (getnum v true) as [[h v']|]; [| discriminate].
      destruct (_ || _)%bool; [discriminate |].
      destruct (fraction v') as [ns v'']. now apply IH in Hp.
Qed.

(** the month [Parse] ends with was never read, or lies in 1..12 *)
Lemma parseChunks_month (layout : list chunk) (v : string) (f f' : fields) :
  f_month f = -1 \/ 1 <= f_month f <= 12 ->
  parseChunks layout v f = Some f' ->
  f_month f' = -1 \/ 1 <= f_month f' <= 12.
Proof.
  revert v f. induction layout as [|c layout IH]; intros v f Hm Hp.
  - cbn in Hp. destruct (String.eqb v ""); [| discriminate]. now injection Hp as <-.
  - destruct c; cbn [parseChunks] in Hp.
    + destruct (skip v text); [| discriminate]. now apply IH in Hp.
    + destruct (getyear v) as [[y v']|]; [| discriminate]. now apply IH in Hp.
    + destruct (getnum v true) as [[m v']|]; [| discriminate].
      destruct (Z.leb_spec m 0); [discriminate |].
      destruct (Z.ltb_spec 12 m); [discriminate |]. cbn [orb] in Hp.
      apply IH in Hp; [exact Hp |]. cbn. lia.
    + destruct (getnum v true) as [[d v']|]; [| discriminate]. now apply IH in Hp.
    + destruct (getnum v false) as [[h v']|]; [| discriminate].
      destruct (_ || _)%bool; [discriminate |]. now apply IH in Hp.
    + destruct (getnum v true) as [[h v']|]; [| discriminate].
      destruct (_ || _)%bool; [discriminate |]. now apply IH in Hp.
    + destruct (getnum v true) as [[h v']|]; [| discriminate].
      destruct (_ || _)%bool; [discriminate |].
      destruct (fraction v') as [ns v'']. now apply IH in Hp.
Qed.

(** what [Parse] returns is a date the calendar has *)
Lemma Parse_calendar (layout : list chunk) (v : string) (t : Time) :
  Parse layout v = Some t ->
  1 <= Month t <= 12 /\ 1 <= Day t <= 31.
Proof.
  unfold Parse. destruct (parseChunks layout v noFields) as [f|] eqn:Hp; [| discriminate].
  apply parseChunks_month in Hp; [| left; reflexivity].
  set (month := if f_month f <? 0 then 1 else f_month f).
  set (day := if f_day f <? 0 then 1 else f_day f).
  assert (Hmonth : 1 <= month <= 12).
  { subst month. destruct (Z.ltb_spec (f_month f) 0); lia. }
  destruct (Z.ltb_spec day 1); [discriminate |].
  destruct (Z.ltb_spec (daysIn month (f_year f)) day); [discriminate |].
  cbn [orb]. intros [= <-]. rewrite Date_valid by lia. cbn.
  pose proof (daysIn_le month (f_year f)). lia.
Qed.

Lemma Date_year (y m d h mi s ns : Z) :
  1 <= m <= 12 -> 1 <= d <= 31 -> Year (Date y m d h mi s ns) = y.
Proof.
  intros Hm Hd. unfold Date. change 12%nat with (S 11). rewrite rollDays_S.
  destruct (Z.ltb_spec (daysIn m y) d) as [Hlt | Hle]; [| reflexivity].
  pose proof (daysIn_le m y). pose proof (daysIn_le (m + 1) y).
  destruct (Z.eqb_spec m 12) as [-> | Hm12].
  - exfalso. change (daysIn 12 y) with 31 in Hlt. lia.
  - rewrite rollDays_valid by lia. reflexivity.
Qed.

(** the text an ISO date layout read the zero date from *)
Lemma parse_date_zero (rest : list chunk) (b : string) (t : Time) :
  forallb clockOnly rest = true ->
  Parse (isoDate ++ rest) b = Some t ->
  IsZero t = true ->
  GoStrings.HasPrefix b "0001-01-01" = true.
Proof.
  intros Hrest. unfold Parse.
  destruct (parseChunks (isoDate ++ rest) b noFields) as [f|] eqn:Hp; [| discriminate].
  unfold isoDate in Hp. cbn [List.app parseChunks] in Hp.
  destruct (getyear b) as [[y v1]|] eqn:Ey; [| discriminate].
  destruct (skip v1 "-") as [v2|] eqn:Es1; [| discriminate].
  destruct (getnum v2 true) as [[m v3]|] eqn:Em; [| discriminate].
  destruct (Z.leb_spec m 0); [discriminate |].
  destruct (Z.ltb_spec 12 m); [discriminate |]. cbn [orb] in Hp.
  destruct (skip v3 "-") as [v4|] eqn:Es2; [| discriminate].
  destruct (getnum v4 true) as [[d v5]|] eqn:Ed; [| discriminate].
  apply parseChunks_clock in Hp; [| exact Hrest]. cbn in Hp. destruct Hp as (Hy & Hm & Hd).
  rewrite Hy, Hm, Hd.
  destruct (Z.ltb_spec m 0); [lia |].
  pose proof (getnum_range _ _ _ _ Ed) as Hdr.
  destruct (Z.ltb_spec d 0); [lia |].
  destruct (Z.ltb_spec d 1); [discriminate |].
  destruct (Z.ltb_spec (daysIn m y) d); [discriminate |]. cbn [orb].
  intros [= <-] Hz. rewrite Date_valid in Hz by lia.
  apply IsZero_true in Hz. injection Hz as -> -> -> _ _ _ _.
  apply getyear_inv in Ey as (c0 & c1 & c2 & c3 & k0 & k1 & k2 & k3 & -> & Hc0 & Hc1 & Hc2 & Hc3 & Hs).
  symmetry in Hs. destruct (year_one _ _ _ _ _ _ _ _ Hc0 Hc1 Hc2 Hc3 Hs) as (-> & -> & -> & ->).
  apply skip_inv in Es1 as ->.
  apply getnum_fixed_inv in Em as (e0 & e1 & j0 & j1 & -> & He0 & He1 & Hsm).
  symmetry in Hsm. destruct (field_one _ _ _ _ He0 He1 Hsm) as (-> & ->).
  apply skip_inv in Es2 as ->.
  apply getnum_fixed_inv in Ed as (g0 & g1 & l0 & l1 & -> & Hg0 & Hg1 & Hsd).
  symmetry in Hsd. destruct (field_one _ _ _ _ Hg0 Hg1 Hsd) as (-> & ->).
  reflexivity.
Qed.

Lemma parse_compact_zero (b : string) (t : Time) :
  Parse [stdLongYear; stdZeroMonth; stdZeroDay] b = Some t ->
  IsZero t = true ->
  GoStrings.HasPrefix b "00010101" = true.
Proof.
  unfold Parse.
  destruct (parseChunks _ b noFields) as [f|] eqn:Hp; [| discriminate].
  cbn [parseChunks] in Hp.
  destruct (getyear b) as [[y v1]|] eqn:Ey; [| discriminate].
  destruct (getnum v1 true) as [[m v3]|] eqn:Em; [| discriminate].
  destruct (Z.leb_spec m 0); [discriminate |].
  destruct (Z.ltb_spec 12 m); [discriminate |]. cbn [orb] in Hp.
  destruct (getnum v3 true) as [[d v5]|] eqn:Ed; [| discriminate].
  destruct (String.eqb v5 ""); [| discriminate]. injection Hp as <-. cbn.
  destruct (Z.ltb_spec m 0); [lia |].
  pose proof (getnum_range _ _ _ _ Ed) as Hdr.
  destruct (Z.ltb_spec d 0); [lia |].
  destruct (Z.ltb_spec d 1); [discriminate |].
  destruct (Z.ltb_spec (daysIn m y) d); [discriminate |]. cbn [orb].
  intros [= <-] Hz. rewrite Date_valid in Hz by lia.
  apply IsZero_true in Hz. injection Hz as -> -> ->.
  apply getyear_inv in Ey as (c0 & c1 & c2 & c3 & k0 & k1 & k2 & k3 & -> & Hc0 & Hc1 & Hc2 & Hc3 & Hs).
  symmetry in Hs. destruct (year_one _ _ _ _ _ _ _ _ Hc0 Hc1 Hc2 Hc3 Hs) as (-> & -> & -> & ->).
  apply getnum_fixed_inv in Em as (e0 & e1 & j0 & j1 & -> & He0 & He1 & Hsm).
  symmetry in Hsm. destruct (field_one _ _ _ _ He0 He1 Hsm) as (-> & ->).
  apply getnum_fixed_inv in Ed as (g0 & g1 & l0 & l1 & -> & Hg0 & Hg1 & Hsd).
  symmetry in Hsd. destruct (field_one _ _ _ _ Hg0 Hg1 Hsd) as (-> & ->).
  reflexivity.
Qed.

Lemma parse_yearless_prefix (rest : list chunk) (b : string) (t : Time) :
  Parse (lit "--" :: rest) b = Some t -> GoStrings.HasPrefix b "--" = true.
Proof.
  unfold Parse. cbn [parseChunks].
  destruct (skip b "--") as [v|] eqn:Es; [| discriminate].
  intros _. apply skip_inv in Es as ->. reflexivity.
Qed.

Lemma tryFormats_inv (formats : list (list chunk)) (b : string) (t : Time) :
  tryFormats formats b = Some t ->
  exists format t0,
    In format formats /\ Parse format b = Some t0 /\
    t = if GoStrings.HasPrefix b "--"
        then Date Now_Year (Month t0) (Day t0) 0 0 0 0 else t0.
Proof.
  induction formats as [|format formats IH]; cbn [tryFormats]; [discriminate |].
  destruct (Parse format b) as [t0|] eqn:Hp.
  - intros Ht. exists format, t0. split; [now left |]. split; [exact Hp |].
    destruct (GoStrings.HasPrefix b "--"); now injection Ht as <-.
  - intros Ht. destruct (IH Ht) as (f & t0 & Hin & Hpf & Et).
    exists f, t0. split; [now right | now split].
Qed.

Lemma substring_prefix (n : nat) (b : string) :
  exists tail, b = String.substring 0 n b +:+ tail.
Proof.
  revert b. induction n as [|n IH]; intros b.
  - exists b. now destruct b.
  - destruct b as [|c b]; [now exists ""%string |].
    destruct (IH b) as [tail Ht]. exists tail. cbn [String.substring String.append].
    now rewrite <- Ht.
Qed.

Lemma HasPrefix_substring (n : nat) (b p : string) :
  GoStrings.HasPrefix (String.substring 0 n b) p = true -> GoStrings.HasPrefix b p = true.
Proof.
  rewrite !HasPrefix_spec. intros [rest Hr]. destruct (substring_prefix n b) as [tail Ht].
  exists (rest +:+ tail). rewrite Ht at 1. rewrite Hr. apply append_assoc.
Qed.

(** what the parser reads is the zero [Time] only from a text that begins
    with the date of the zero [Time], or when the clock stands in year 1 *)
Lemma matchBirthday_nonzero (b : string) (t : Time) :
  Now_Year <> 1 ->
  GoStrings.HasPrefix b "0001-01-01" = false ->
  GoStrings.HasPrefix b "00010101" = false ->
  matchBirthday b = Some t ->
  IsZero t = false.
Proof.
  intros Hnow Hiso Hcompact. unfold matchBirthday. intros Hmatch.
  destruct (IsZero t) eqn:Hz; [exfalso | reflexivity]. revert Hmatch.
  destruct (tryFormats layouts b) as [t1|] eqn:Htry.
  - intros [= ->]. apply tryFormats_inv in Htry as (format & t0 & Hin & Hp & Et).
    destruct (GoStrings.HasPrefix b "--") eqn:Hdd.
    + apply Parse_calendar in Hp as [Hm Hd]. subst t.
      apply IsZero_true in Hz. apply (f_equal Year) in Hz.
      rewrite Date_year in Hz by assumption. cbn in Hz. contradiction.
    + subst t0. unfold layouts in Hin. cbv zeta in Hin. cbn [In List.app] in Hin.
      destruct Hin as [<- | [<- | [<- | [<- | [<- | [<- | []]]]]]].
      * apply (parse_date_zero [] b t) in Hz; [congruence | reflexivity | exact Hp].
      * apply (parse_compact_zero b t) in Hz; [congruence | exact Hp].
      * apply parse_yearless_prefix in Hp. congruence.
      * apply parse_yearless_prefix in Hp. congruence.
      * apply (parse_date_zero
                 [lit "T"; stdHour; lit ":"; stdZeroMinute; lit ":"; stdZeroSecond; lit "Z"]
                 b t) in Hz; [congruence | reflexivity | exact Hp].
      * apply (parse_date_zero
                 [lit "T"; stdHour; lit ":"; stdZeroMinute; lit ":"; stdZeroSecond]
                 b t) in Hz; [congruence | reflexivity | exact Hp].
  - destruct (10 <=? String.length b)%nat; [| discriminate].
    intros Hp.
    apply (parse_date_zero [] (String.substring 0 10 b) t) in Hz; [| reflexivity | exact Hp].
    apply HasPrefix_substring in Hz. congruence.
Qed.

Lemma append_cons_nonempty (a b : string) (c : ascii) : a +:+ String c b <> ""%string.
Proof. destruct a; discriminate. Qed.

Lemma FormatBirthdayForDisplay_present (t : Time) :
  IsZero t = false -> FormatBirthdayForDisplay t <> ""%string.
Proof.
  intros Hz. unfold FormatBirthdayForDisplay. rewrite Hz.
  destruct (Year t =? Now_Year); apply append_cons_nonempty.
Qed.

(** the comparator of the birthday sort puts a present birthday before an
    absent one, in both directions *)
Lemma birthdayLess_absent_last (reverse : bool) (c absent : Contact) :
  IsZero (Birthday c) = false -> IsZero (Birthday absent) = true ->
  app.birthdayLess reverse c absent = true /\ app.birthdayLess reverse absent c = false.
Proof.
  intros Hc Ha. unfold app.birthdayLess. cbv zeta. rewrite Hc, Ha. now split.
Qed.

(** C9 (amended): the absent birthday is the zero [Time], which is also what
    the date 0001-01-01 parses to.  Every other birthday text the parser
    accepts (the clock not standing in year 1) parses to a value that is not
    absent: it is displayed, and the birthday order puts it before every
    absent birthday, in both directions. *)
Theorem birthday_absence_distinct (s : string) (reverse : bool) (c absent : Contact) :
  Spec.accepted s ->
  Now_Year <> 1 ->
  GoStrings.HasPrefix (GoStrings.TrimSpace s) "0001-01-01" = false ->
  GoStrings.HasPrefix (GoStrings.TrimSpace s) "00010101" = false ->
  Birthday c = parseBirthday s ->
  IsZero (Birthday absent) = true ->
  IsZero (parseBirthday s) = false /\
  FormatBirthdayForDisplay (parseBirthday s) <> ""%string /\
  app.birthdayLess reverse c absent = true /\
  app.birthdayLess reverse absent c = false.
Proof.
  intros [Hne Hacc] Hnow Hiso Hcompact Hc Ha.
  assert (Hz : IsZero (parseBirthday s) = false).
  { unfold parseBirthday. destruct (String.eqb_spec (GoStrings.TrimSpace s) ""); [contradiction |].
    destruct (matchBirthday (GoStrings.TrimSpace s)) as [t|] eqn:Hm; [| contradiction].
    now apply (matchBirthday_nonzero (GoStrings.TrimSpace s)). }
  split; [exact Hz |]. split; [now apply FormatBirthdayForDisplay_present |].
  apply birthdayLess_absent_last; [now rewrite Hc | exact Ha].
Qed.

End BirthdayAbsence.

(** the amended C9 at the birthday 1990-01-15 against a contact without
    birthday *)
Lemma birthday_absence_distinct_witness :
  let s := "1990-01-15"%string in
  let c := vcard.mkContact "Ann" "" "" "" "" "" [] [] "" "" ""
             (@vcard.parseBirthday sampleRuntime s) "a.vcf" in
  let absent := vcard.emptyContact "b.vcf" in
  GoTime.IsZero (@vcard.parseBirthday sampleRuntime s) = false /\
  @vcard.FormatBirthdayForDisplay sampleRuntime (@vcard.parseBirthday sampleRuntime s)
    <> ""%string /\
  app.birthdayLess false c absent = true /\
  app.birthdayLess false absent c = false.
Proof.
  intros s c absent.
  apply (@birthday_absence_distinct sampleRuntime s false c absent).
  - split; vm_compute; discriminate.
  - vm_compute. discriminate.
  - vm_compute. reflexivity.
  - vm_compute. reflexivity.
  - reflexivity.
  - reflexivity.
Defined.

(** C9 as stated fails at 0001-01-01: the parser accepts this calendar date
    and returns the very value that stands for an absent birthday, so the
    display shows nothing and the birthday order puts the contact after one
    with a birthday, as it does with a contact that has none. *)
Lemma birthday_0001_01_01_is_absent :
  let s := "0001-01-01"%string in
  let c := vcard.mkContact "Ann" "" "" "" "" "" [] [] "" "" ""
             (@vcard.parseBirthday sampleRuntime s) "a.vcf" in
  let other := vcard.mkContact "Bob" "" "" "" "" "" [] [] "" "" ""
                 (@vcard.parseBirthday sampleRuntime "1990-12-31") "b.vcf" in
  @Spec.accepted sampleRuntime s /\
  @vcard.matchBirthday sampleRuntime s = Some (GoTime.mkTime 1 1 1 0 0 0 0) /\
  GoTime.IsZero (@vcard.parseBirthday sampleRuntime s) = true /\
  @vcard.parseBirthday sampleRuntime s = @vcard.parseBirthday sampleRuntime "" /\
  @vcard.FormatBirthdayForDisplay sampleRuntime (@vcard.parseBirthday sampleRuntime s)
    = ""%string /\
  app.birthdayLess false other c = true /\ app.birthdayLess true other c = true /\
  app.birthdayLess false c other = false /\ app.birthdayLess true c other = false.
Proof.
  cbv zeta. split; [split; vm_compute; discriminate |].
  repeat split; vm_compute; reflexivity.
Qed.

(** ** Loading contacts *)

Section Loading.

Context `{GoRuntime}.

Import GoVCard vcard.

(** the decode loop appends every decoded card, whatever the ending *)
Lemma decodeLoop_eq (filePath : string) (cards : list Card) (ending : error)
  (contacts : list Contact) (log : Log) (n : nat) :
  decodeLoop filePath cards ending contacts log n
  = (contacts ++ map (contactOfCard filePath) cards,
     log ++ map (loadedRecord filePath) cards,
     decodeEnd ending (n + length cards)).
Proof.
  revert contacts log n. induction cards as [|card cards IH]; intros contacts log n.
  - cbn [decodeLoop map length]. rewrite !app_nil_r, Nat.add_0_r.
    unfold decodeEnd. destruct ending; [reflexivity |]. now destruct (n =? 0)%nat.
  - cbn [decodeLoop map length]. rewrite IH, <- !app_assoc. cbn [List.app].
    replace (S n + length cards)%nat with (n + S (length cards))%nat by lia.
    reflexivity.
Qed.

Lemma walkFn_no_error (ev : WalkEvent) (st : walkState) : snd (walkFn ev st) = None.
Proof.
  destruct ev as [fp err | fp | fp view]; cbn [walkFn]; try reflexivity.
  destruct (negb _); [reflexivity |].
  destruct (processVCardFile _ _ _ _) as [[cs l] [e|]]; reflexivity.
Qed.

Lemma walkFn_counts (ev : WalkEvent) (st st' : walkState) :
  counts st = counts st' -> counts (fst (walkFn ev st)) = counts (fst (walkFn ev st')).
Proof.
  unfold counts. intros [= Hc Hv Hp He].
  destruct ev as [fp err | fp | fp view]; cbn [walkFn].
  - cbn. congruence.
  - cbn. congruence.
  - destruct (negb _); [cbn; congruence |].
    destruct view as [err | cards ending]; cbn [processVCardFile].
    + cbn. congruence.
    + rewrite !decodeLoop_eq. rewrite Hc.
      destruct (decodeEnd ending (0 + length cards)); cbn; congruence.
Qed.

Lemma WalkDir_counts (events : list WalkEvent) (st st' : walkState) :
  counts st = counts st' ->
  counts (fst (WalkDir events walkFn st)) = counts (fst (WalkDir events walkFn st')) /\
  snd (WalkDir events walkFn st) = None /\ snd (WalkDir events walkFn st') = None.
Proof.
  revert st st'. induction events as [|ev events IH]; intros st st' Hc.
  - cbn. now repeat split.
  - cbn [WalkDir].
    pose proof (walkFn_no_error ev st) as E1. pose proof (walkFn_no_error ev st') as E2.
    pose proof (walkFn_counts ev st st' Hc) as Hstep.
    destruct (walkFn ev st) as [s1 e1], (walkFn ev st') as [s2 e2].
    cbn in E1, E2, Hstep. subst e1 e2. now apply IH.
Qed.

(** the contacts and the error of a path do not depend on the log so far *)
Lemma loadContactsFromPath_outcome (fs : FileSystem) (path : string) (log : Log) :
  fst (loadContactsFromPath fs path log) = Spec.pathOutcome fs path.
Proof.
  unfold Spec.pathOutcome, loadContactsFromPath. destruct (fs !! path) as [events|]; [| reflexivity].
  set (st0 := mkWalk [] 0 0 0 (log ++ _)). set (st1 := mkWalk [] 0 0 0 ([] ++ _)).
  destruct (WalkDir_counts events st0 st1 eq_refl) as (Hc & E0 & E1).
  destruct (WalkDir events walkFn st0) as [s0 e0], (WalkDir events walkFn st1) as [s1 e1].
  cbn in Hc, E0, E1. subst e0 e1. unfold counts in Hc. injection Hc as Hc Hv Hp He.
  rewrite Hc, Hv, Hp, He.
  destruct (w_vcfCount s1 =? 0)%nat; [reflexivity |].
  destruct (_ && _)%bool; reflexivity.
Qed.

Lemma walkFn_inv (ev : WalkEvent) (st : walkState) :
  walkInv st -> walkInv (fst (walkFn ev st)).
Proof.
  intros [Hsum Hne]. destruct ev as [fp err | fp | fp view]; cbn [walkFn].
  - now split.
  - now split.
  - destruct (negb _); [now split |].
    destruct view as [err | cards ending]; cbn [processVCardFile].
    + split; cbn; [lia |]. exact Hne.
    + rewrite decodeLoop_eq.
      destruct (decodeEnd ending (0 + length cards)) as [e|] eqn:Hend; split; cbn.
      * lia.
      * intros Hp Hnil. apply app_eq_nil in Hnil as [Hnil _]. now apply Hne.
      * lia.
      * intros _ Hnil. apply app_eq_nil in Hnil as [_ Hnil].
        unfold decodeEnd in Hend. destruct ending; [discriminate |].
        destruct cards; [discriminate | discriminate].
Qed.

Lemma WalkDir_inv (events : list WalkEvent) (st : walkState) :
  walkInv st -> walkInv (fst (WalkDir events walkFn st)).
Proof.
  revert st. induction events as [|ev events IH]; intros st Hinv; [exact Hinv |].
  cbn [WalkDir]. pose proof (walkFn_no_error ev st) as E.
  pose proof (walkFn_inv ev st Hinv) as Hstep.
  destruct (walkFn ev st) as [s1 e1]. cbn in E, Hstep. subst e1. now apply IH.
Qed.

(** a path that loads without error yields at least one contact *)
Lemma pathOutcome_success_nonempty (fs : FileSystem) (path : string)
  (contacts : list Contact) :
  Spec.pathOutcome fs path = (contacts, None) -> contacts <> [].
Proof.
  unfold Spec.pathOutcome, loadContactsFromPath.
  destruct (fs !! path) as [events|]; [| discriminate].
  set (st0 := mkWalk [] 0 0 0 _).
  assert (Hinv0 : walkInv st0) by (split; cbn; [reflexivity | lia]).
  pose proof (WalkDir_inv events st0 Hinv0) as [Hsum Hne].
  destruct (WalkDir events walkFn st0) as [st [e|]]; [discriminate |]. cbn in Hsum, Hne.
  cbn [fst]. destruct (Nat.eqb_spec (w_vcfCount st) 0); [discriminate |].
  destruct (Nat.eqb_spec (w_processedCount st) 0) as [Hp0 | Hp0].
  - destruct (Nat.ltb_spec 0 (w_errorCount st)); [discriminate | lia].
  - cbn [andb]. intros [= <-]. apply Hne. lia.
Qed.

Lemma pathOutcome_failure_nil (fs : FileSystem) (path : string)
  (contacts : list Contact) (err : string) :
  Spec.pathOutcome fs path = (contacts, Some err) -> contacts = [].
Proof.
  unfold Spec.pathOutcome, loadContactsFromPath.
  destruct (fs !! path) as [events|]; [| now intros [= <-]].
  destruct (WalkDir events walkFn _) as [st [e|]]; [now intros [= <-] |]. cbn [fst].
  destruct (w_vcfCount st =? 0)%nat; [now intros [= <-] |].
  destruct (_ && _)%bool; [now intros [= <-] | discriminate].
Qed.

Lemma loadStep_contacts (fs : FileSystem) (st : loadState) (path : string) :
  l_contacts (loadStep fs st path) = l_contacts st ++ fst (Spec.pathOutcome fs path).
Proof.
  unfold loadStep. pose proof (loadContactsFromPath_outcome fs path (l_log st)) as Ho.
  destruct (loadContactsFromPath fs path (l_log st)) as [[cs [e|]] log]; cbn in Ho |- *.
  - symmetry in Ho. rewrite Ho. cbn. rewrite (pathOutcome_failure_nil _ _ _ _ Ho), app_nil_r.
    reflexivity.
  - now rewrite <- Ho.
Qed.

Lemma loadLoop_contacts (fs : FileSystem) (paths : list string) (st : loadState) :
  l_contacts (fold_left (loadStep fs) paths st) = l_contacts st ++ Spec.collected fs paths.
Proof.
  revert st. induction paths as [|path paths IH]; intros st.
  - cbn. now rewrite app_nil_r.
  - cbn [fold_left]. rewrite IH, loadStep_contacts, <- app_assoc. reflexivity.
Qed.

Lemma loadLoop_errors_nil (fs : FileSystem) (st : loadState) :
  l_loadErrors (fold_left (loadStep fs) [] st) = l_loadErrors st.
Proof. reflexivity. Qed.

Lemma collected_nil_all_fail (fs : FileSystem) (paths : list string) :
  Spec.collected fs paths = [] -> Forall (Spec.pathFails fs) paths.
Proof.
  induction paths as [|path paths IH]; intros Hnil; [constructor |].
  unfold Spec.collected in Hnil. cbn [flat_map] in Hnil.
  apply app_eq_nil in Hnil as [Hhead Htail]. constructor; [| now apply IH].
  unfold Spec.pathFails. destruct (Spec.pathOutcome fs path) as [cs [e|]] eqn:Ho; [discriminate |].
  cbn in Hhead. subst cs. now apply pathOutcome_success_nonempty in Ho.
Qed.

(** C1: [LoadContacts] either succeeds with the contacts collected from the
    paths, concatenated in path order, or fails; and it fails only when no
    contact was collected and every path failed.  So as soon as one contact
    was collected the load succeeds with all of them, whatever paths or files
    failed. *)
Theorem LoadContacts_degraded (fs : FileSystem) (paths : list string) (log : Log) :
  (snd (fst (LoadContacts fs paths log)) = None /\
   fst (fst (LoadContacts fs paths log)) = Spec.collected fs paths)
  \/
  (snd (fst (LoadContacts fs paths log)) <> None /\
   fst (fst (LoadContacts fs paths log)) = [] /\
   Spec.collected fs paths = [] /\
   paths <> [] /\
   Forall (Spec.pathFails fs) paths).
Proof.
  unfold LoadContacts, loadLoop.
  pose proof (loadLoop_contacts fs paths (mkLoad [] [] log)) as Hc. cbn [l_contacts List.app] in Hc.
  set (st := fold_left (loadStep fs) paths (mkLoad [] [] log)) in *.
  destruct (Nat.ltb_spec 0 (length (l_loadErrors st))) as [Herr | Herr];
    destruct (Nat.eqb_spec (length (l_contacts st)) 0) as [Hlen | Hlen]; cbn [andb fst snd].
  - right. apply length_zero_iff_nil in Hlen. rewrite Hlen in Hc. symmetry in Hc.
    split; [discriminate |]. split; [reflexivity |]. split; [exact Hc |].
    split; [| now apply collected_nil_all_fail].
    intros ->. subst st. cbn in Herr. lia.
  - left. now split.
  - left. now split.
  - left. now split.
Qed.

(** C10: without any path [LoadContacts] succeeds with no contact. *)
Theorem LoadContacts_no_paths (fs : FileSystem) (log : Log) :
  fst (LoadContacts fs [] log) = ([], None).
Proof. reflexivity. Qed.

Lemma walkFn_contacts (ev : WalkEvent) (st : walkState) :
  w_contacts (fst (walkFn ev st)) = w_contacts st ++ entryContacts ev.
Proof.
  destruct ev as [fp err | fp | fp view]; cbn [walkFn entryContacts];
    try (cbn; now rewrite app_nil_r).
  destruct (GoStrings.HasSuffix _ _); cbn [negb]; [| cbn; now rewrite app_nil_r].
  destruct view as [err | cards ending]; cbn [processVCardFile Spec.decodedCards].
  - cbn. now rewrite app_nil_r.
  - rewrite decodeLoop_eq. now destruct (decodeEnd _ _).
Qed.

Lemma WalkDir_contacts (events : list WalkEvent) (st : walkState) :
  w_contacts (fst (WalkDir events walkFn st)) = w_contacts st ++ flat_map entryContacts events.
Proof.
  revert st. induction events as [|ev events IH]; intros st.
  - cbn. now rewrite app_nil_r.
  - cbn [WalkDir flat_map]. pose proof (walkFn_no_error ev st) as E.
    pose proof (walkFn_contacts ev st) as Hstep.
    destruct (walkFn ev st) as [s1 e1]. cbn in E, Hstep. subst e1.
    rewrite IH, Hstep, <- app_assoc. reflexivity.
Qed.

(** What a path yields when it loads: every card decoded from every .vcf
    file, in walk order, those of a file whose decoding then failed
    included. *)
Lemma pathOutcome_contacts (fs : FileSystem) (path : string) (events : list WalkEvent)
  (contacts : list Contact) :
  fs !! path = Some events ->
  Spec.pathOutcome fs path = (contacts, None) ->
  contacts = flat_map entryContacts events.
Proof.
  unfold Spec.pathOutcome, loadContactsFromPath. intros ->.
  set (st0 := mkWalk [] 0 0 0 _).
  pose proof (WalkDir_contacts events st0) as Hc.
  destruct (WalkDir events walkFn st0) as [st [e|]]; [discriminate |]. cbn in Hc. cbn [fst].
  destruct (w_vcfCount st =? 0)%nat; [discriminate |].
  destruct (_ && _)%bool; [discriminate |]. intros [= <-]. exact Hc.
Qed.

End Loading.

(** C2 does not hold of the code: decoding [a.vcf] fails after its first
    card, the file is logged as failed, and yet the card decoded before the
    failure is among the contacts of the path, because [b.vcf] loads.  With
    [a.vcf] alone the path fails and the same card is dropped. *)
Theorem decode_error_keeps_earlier_cards :
  Spec.decodeFails brokenFile /\
  @Spec.pathOutcome sampleRuntime mixedBook "book"
  = ([@vcard.contactOfCard sampleRuntime "book/a.vcf" (cardNamed "Alice");
      @vcard.contactOfCard sampleRuntime "book/b.vcf" (cardNamed "Bob")], None) /\
  In (mkLog LevelWarn "Failed to process vCard file" "book/a.vcf")
     (snd (@vcard.loadContactsFromPath sampleRuntime mixedBook "book" [])) /\
  @Spec.pathOutcome sampleRuntime brokenBook "book"
  = ([], Some "failed to process any vCard files in directory: book"%string).
Proof.
  split; [exact I |]. split; [vm_compute; reflexivity |].
  split; [vm_compute; tauto | vm_compute; reflexivity].
Qed.

(** ** Export *)

Section ExportFormat.

Context `{GoRuntime} `{GoEncoders}.

Import vcard app.

Lemma loadAndFilterContacts_world (a : App) (w : World) (filter : list string) :
  let w' := fst (fst (loadAndFilterContacts a w filter)) in
  books w' = books w /\ files w' = files w /\ createFails w' = createFails w /\
  stdout w' = stdout w.
Proof.
  unfold loadAndFilterContacts.
  destruct (LoadContacts (books w) (addressBookPaths a) (wlog w)) as [[cs [e|]] log].
  - cbn. now repeat split.
  - destruct (length filter =? 0)%nat; cbn; now repeat split.
Qed.

Lemma exportSwitch_unsupported (w : World) (writer : Writer) (contacts : list Contact)
  (format delimiter : string) :
  format <> "csv"%string -> format <> "json"%string ->
  exportSwitch w writer contacts format delimiter
  = (w, Some ("unsupported format: " +:+ format)%string).
Proof.
  intros Hcsv Hjson. unfold exportSwitch.
  destruct (String.eqb_spec format "csv"); [contradiction |].
  destruct (String.eqb_spec format "json"); [contradiction | reflexivity].
Qed.

(** C7 (amended): with a format other than csv and json [ExportContacts]
    reports an error and writes no data: standard output is unchanged and no
    file gets any content.  The format is looked at last, though: the
    contacts are loaded first, and when an output path is given that does not
    exist and can be created, the output file is created, empty, before the
    unsupported-format error is reported. *)
Theorem export_unsupported_format (a : App) (w : World)
  (format delimiter output : string) (filter : list string) :
  format <> "csv"%string -> format <> "json"%string ->
  files w !! output = None ->
  let r := ExportContacts a w format delimiter output filter in
  snd r <> None /\
  stdout (fst r) = stdout w /\
  (forall p text, files (fst r) !! p = Some text ->
     files w !! p = Some text \/ (p = output /\ text = ""%string)) /\
  (snd (loadAndFilterContacts a w filter) = None ->
   createFails w !! output = None ->
   snd r = Some ("unsupported format: " +:+ format)%string /\
   files (fst r) = if nonEmpty output then <[output := ""%string]> (files w) else files w).
Proof.
  intros Hcsv Hjson Hfree. unfold ExportContacts.
  pose proof (loadAndFilterContacts_world a w filter) as (Hb & Hf & Hc & Hs).
  destruct (loadAndFilterContacts a w filter) as [[w1 contacts] [e|]]; cbn in Hb, Hf, Hc, Hs.
  - cbn. split; [discriminate |]. split; [exact Hs |]. split; [| discriminate].
    intros p text Hp. left. now rewrite <- Hf.
  - destruct (nonEmpty output) eqn:Hout.
    + rewrite Hf, Hfree, Hc. destruct (createFails w !! output) as [err|] eqn:Hcreate.
      * cbn. split; [discriminate |]. split; [exact Hs |]. split; [| discriminate].
        intros p text Hp. left. now rewrite <- Hf.
      * rewrite exportSwitch_unsupported by assumption. cbn.
        split; [discriminate |]. split; [exact Hs |]. split; [| now split].
        intros p text Hp. destruct (decide (p = output)) as [-> | Hne].
        -- rewrite lookup_insert_eq in Hp. injection Hp as <-. now right.
        -- rewrite lookup_insert_ne in Hp by congruence. now left.
    + rewrite exportSwitch_unsupported by assumption. cbn.
      split; [discriminate |]. split; [exact Hs |]. split.
      * intros p text Hp. left. now rewrite <- Hf.
      * intros _ _. now rewrite Hf.
Qed.

End ExportFormat.

(** the amended C7 at the format "xml" and the free output path "out.xml" *)
Lemma export_unsupported_format_witness :
  let r := @app.ExportContacts sampleRuntime sampleEncoders (app.mkApp [])
             emptyWorld "xml" "," "out.xml" [] in
  snd r = Some "unsupported format: xml"%string /\
  app.stdout (fst r) = ""%string /\
  app.files (fst r) = {[ "out.xml"%string := ""%string ]}.
Proof.
  pose proof (@export_unsupported_format sampleRuntime sampleEncoders (app.mkApp [])
                emptyWorld "xml" "," "out.xml" []) as Hx.
  cbv zeta in Hx |- *.
  destruct Hx as (_ & Hout & _ & Hfmt); [discriminate | discriminate | reflexivity |].
  destruct Hfmt as [Herr Hfiles]; [reflexivity | reflexivity |].
  split; [exact Herr |]. split; [exact Hout |]. rewrite Hfiles. reflexivity.
Defined.

(** C7 as stated fails: with the unsupported format "xml" and the output
    path "out.xml", which does not exist, the export reports the unsupported
    format only after it has created the output file. *)
Lemma export_unsupported_format_creates_file :
  let r := @app.ExportContacts sampleRuntime sampleEncoders (app.mkApp [])
             emptyWorld "xml" "," "out.xml" [] in
  app.files emptyWorld !! "out.xml"%string = None /\
  snd r = Some "unsupported format: xml"%string /\
  app.files (fst r) !! "out.xml"%string = Some ""%string /\
  app.files (fst r) <> app.files emptyWorld.
Proof.
  cbv zeta. split; [reflexivity |]. split; [reflexivity |]. split; [reflexivity |].
  intros Heq. apply (f_equal (fun m => m !! "out.xml"%string)) in Heq.
  vm_compute in Heq. discriminate.
Qed.

(** ** Sorting: [sort.Slice] orders its slice *)

Section SwapFacts.

Context {A : Type} `{Inhabited A}.

Implicit Types l : list A.

Lemma Swap_length l (i j : nat) : length (GoSort.Swap l i j) = length l.
Proof. unfold GoSort.Swap. now rewrite !length_insert. Qed.

Lemma Swap_lookup l (i j k : nat) :
  (i < length l)%nat -> (j < length l)%nat ->
  GoSort.Swap l i j !!! k
  = if decide (k = i) then l !!! j else if decide (k = j) then l !!! i else l !!! k.
Proof.
  intros Hi Hj. unfold GoSort.Swap.
  destruct (decide (k = i)) as [-> | Hki].
  - rewrite list_lookup_total_insert_eq; [reflexivity | now rewrite length_insert].
  - rewrite list_lookup_total_insert_ne by congruence.
    destruct (decide (k = j)) as [-> | Hkj].
    + now rewrite list_lookup_total_insert_eq.
    + now rewrite list_lookup_total_insert_ne by congruence.
Qed.

Lemma Swap_same l (i : nat) : (i < length l)%nat -> GoSort.Swap l i i = l.
Proof.
  intros Hi. apply list_eq_same_length with (length l); [reflexivity | apply Swap_length |].
  intros k x y Hk Hx Hy.
  assert (Hxy : GoSort.Swap l i i !!! k = l !!! k).
  { rewrite Swap_lookup by assumption. destruct (decide (k = i)); congruence. }
  rewrite (list_lookup_total_correct _ _ _ Hx), (list_lookup_total_correct _ _ _ Hy) in Hxy.
  congruence.
Qed.

Lemma Swap_Permutation l (i j : nat) :
  (i < length l)%nat -> (j < length l)%nat -> Permutation l (GoSort.Swap l i j).
Proof.
  intros Hi Hj. symmetry. unfold GoSort.Swap.
  apply Permutation_insert_swap; apply list_lookup_lookup_total_lt; assumption.
Qed.

Lemma swaps_length (a b : nat) l l' : swaps a b l l' -> length l' = length l.
Proof. induction 1 as [| l l' i j Hi Hj Hb _ IH]; [reflexivity |]. now rewrite IH, Swap_length. Qed.

Lemma swaps_Permutation (a b : nat) l l' : swaps a b l l' -> Permutation l l'.
Proof.
  induction 1 as [| l l' i j Hi Hj Hb _ IH]; [reflexivity |].
  etransitivity; [| exact IH]. apply Swap_Permutation; lia.
Qed.

Lemma swaps_outside (a b : nat) l l' (k : nat) :
  swaps a b l l' -> (k < a \/ b <= k)%nat -> l' !!! k = l !!! k.
Proof.
  induction 1 as [| l l' i j Hi Hj Hb _ IH]; intros Hk; [reflexivity |].
  rewrite IH by exact Hk. rewrite Swap_lookup by lia.
  destruct (decide (k = i)); [lia |]. destruct (decide (k = j)); [lia | reflexivity].
Qed.

Lemma swaps_inside (a b : nat) l l' (k : nat) :
  swaps a b l l' -> (a <= k < b)%nat ->
  exists k', (a <= k' < b)%nat /\ l' !!! k = l !!! k'.
Proof.
  induction 1 as [| l l' i j Hi Hj Hb _ IH]; intros Hk; [now exists k |].
  destruct (IH Hk) as (k' & Hk' & ->). rewrite Swap_lookup by lia.
  destruct (decide (k' = i)); [now exists j |].
  destruct (decide (k' = j)); [now exists i | now exists k'].
Qed.

Lemma swaps_trans (a b : nat) l1 l2 l3 :
  swaps a b l1 l2 -> swaps a b l2 l3 -> swaps a b l1 l3.
Proof.
  induction 1 as [| l l' i j Hi Hj Hb _ IH]; intros H23; [exact H23 |].
  apply (swaps_step a b l l3 i j Hi Hj Hb). now apply IH.
Qed.

Lemma swaps_mono (a b a' b' : nat) l l' :
  swaps a b l l' -> (a' <= a)%nat -> (b <= b')%nat -> (b' <= length l)%nat ->
  swaps a' b' l l'.
Proof.
  induction 1 as [| l l' i j Hi Hj Hb _ IH]; intros Ha Hb' Hlen; [constructor |].
  eapply swaps_step with (i := i) (j := j); [lia | lia | lia |].
  apply IH; [lia | lia |]. now rewrite Swap_length.
Qed.

Lemma swaps_Swap (a b : nat) l (i j : nat) :
  (a <= i < b)%nat -> (a <= j < b)%nat -> (b <= length l)%nat ->
  swaps a b l (GoSort.Swap l i j).
Proof. intros Hi Hj Hb. apply (swaps_step a b l _ i j Hi Hj Hb). constructor. Qed.

Lemma swaps_forall (a b : nat) l l' (P : A -> Prop) :
  swaps a b l l' ->
  (forall k, (a <= k < b)%nat -> P (l !!! k)) ->
  forall k, (a <= k < b)%nat -> P (l' !!! k).
Proof.
  intros Hs HP k Hk. destruct (swaps_inside a b l l' k Hs Hk) as (k' & Hk' & ->). now apply HP.
Qed.

End SwapFacts.

Section Ordered.

Context {A : Type} `{Inhabited A} (less : A -> A -> bool).
Hypothesis Hless : strictWeakOrder less.

Implicit Types l : list A.

Lemma less_asym (x y : A) : less x y = true -> less y x = false.
Proof.
  intros Hxy. destruct (less y x) eqn:Hyx; [| reflexivity].
  pose proof (less_trans less Hless x y x Hxy Hyx) as Hxx.
  rewrite (less_irrefl less Hless) in Hxx. discriminate.
Qed.

Lemma less_le_trans (x y z : A) : less x y = true -> less z y = false -> less x z = true.
Proof.
  intros Hxy Hzy. destruct (less x z) eqn:Hxz; [reflexivity |].
  rewrite (less_ntrans less Hless x z y Hxz Hzy) in Hxy. discriminate.
Qed.

Lemma le_less_trans (x y z : A) : less y x = false -> less y z = true -> less x z = true.
Proof.
  intros Hyx Hyz. destruct (less x z) eqn:Hxz; [reflexivity |].
  rewrite (less_ntrans less Hless y x z Hyx Hxz) in Hyz. discriminate.
Qed.

Lemma le_trans (x y z : A) : less y x = false -> less z y = false -> less z x = false.
Proof. intros Hyx Hzy. exact (less_ntrans less Hless z y x Hzy Hyx). Qed.

Lemma sortedRange_short l (a b : nat) : (b <= a + 1)%nat -> sortedRange less l a b.
Proof. intros Hb i j Hi Hij Hj. lia. Qed.

Lemma sortedRange_sub l (a b a' b' : nat) :
  sortedRange less l a b -> (a <= a')%nat -> (b' <= b)%nat -> sortedRange less l a' b'.
Proof. intros Hs Ha Hb i j Hi Hij Hj. apply Hs; lia. Qed.

(** a range keeps its order when the list only changes elsewhere *)
Lemma sortedRange_ext l l' (a b : nat) :
  sortedRange less l a b -> (forall k, (a <= k < b)%nat -> l' !!! k = l !!! k) ->
  sortedRange less l' a b.
Proof. intros Hs He i j Hi Hij Hj. rewrite !He by lia. apply Hs; lia. Qed.

(** two ordered ranges side by side, every element of the first below every
    element of the second *)
Lemma sortedRange_join l (a m b : nat) :
  sortedRange less l a m -> sortedRange less l m b ->
  (forall p q, (a <= p < m)%nat -> (m <= q < b)%nat -> less (l !!! q) (l !!! p) = false) ->
  sortedRange less l a b.
Proof.
  intros Hl Hr Hx i j Hi Hij Hj.
  destruct (Nat.lt_ge_cases j m); [apply Hl; lia |].
  destruct (Nat.lt_ge_cases i m); [apply Hx; lia | apply Hr; lia].
Qed.

Ltac swap_lookup :=
  rewrite ?Swap_lookup by lia;
  repeat (destruct (decide _) as [? | ?]; try lia); subst.

Lemma insertionShift_spec (j : nat) : forall l (a i : nat),
  (a <= j <= i)%nat -> (i < length l)%nat ->
  sortedRange less l a j -> sortedRange less l j (i + 1) ->
  (forall p q, (a <= p < j)%nat -> (j < q <= i)%nat -> less (l !!! q) (l !!! p) = false) ->
  swaps a (i + 1) l (GoSort.insertionShift less l a j) /\
  sortedRange less (GoSort.insertionShift less l a j) a (i + 1).
Proof.
  induction j as [|j' IH]; intros l a i Hj Hi Hleft Hright Hcross.
  - cbn [GoSort.insertionShift]. split; [constructor |].
    replace a with 0%nat by lia. exact Hright.
  - cbn [GoSort.insertionShift].
    destruct (Nat.ltb_spec a (S j')) as [Ha | Ha]; cbn [andb].
    + unfold GoSort.Less. destruct (less (l !!! S j') (l !!! j')) eqn:Hlt.
      * destruct (IH (GoSort.Swap l (S j') j') a i) as [Hsw Hsorted].
        -- lia.
        -- now rewrite Swap_length.
        -- intros p q Hp Hpq Hq. swap_lookup. apply Hleft; lia.
        -- intros p q Hp Hpq Hq. rewrite !Swap_lookup by lia.
           destruct (decide (q = S j')) as [-> | Hq1].
           ++ destruct (decide (p = S j')); [lia |].
              destruct (decide (p = j')) as [-> | ?]; [| lia].
              now apply less_asym.
           ++ destruct (decide (q = j')); [lia |].
              destruct (decide (p = S j')) as [-> | Hp1].
              ** apply Hcross; lia.
              ** destruct (decide (p = j')) as [-> | ?]; [apply Hright; lia |].
                 apply Hright; lia.
        -- intros p q Hp Hq. rewrite !Swap_lookup by lia.
           destruct (decide (p = S j')); [lia |]. destruct (decide (p = j')); [lia |].
           destruct (decide (q = S j')) as [-> | Hq1]; [apply Hleft; lia |].
           destruct (decide (q = j')); [lia |]. apply Hcross; lia.
        -- split; [| exact Hsorted].
           eapply swaps_trans; [| exact Hsw]. apply swaps_Swap; lia.
      * split; [constructor |].
        apply (sortedRange_join l a (S j') (i + 1)); [exact Hleft | exact Hright |].
        intros p q Hp Hq.
        destruct (decide (q = S j')) as [-> | Hq1].
        -- destruct (decide (p = j')) as [-> | Hp1]; [exact Hlt |].
           apply (le_trans (l !!! p) (l !!! j') (l !!! S j')); [apply Hleft; lia | exact Hlt].
        -- apply Hcross; lia.
    + split; [constructor |]. replace a with (S j') by lia. exact Hright.
Qed.

Lemma insertion_fold (a n : nat) : forall l (i : nat),
  (a < i)%nat -> (i + n <= length l)%nat -> sortedRange less l a i ->
  swaps a (i + n) l
    (fold_left (fun data i => GoSort.insertionShift less data a i) (seq i n) l) /\
  sortedRange less
    (fold_left (fun data i => GoSort.insertionShift less data a i) (seq i n) l) a (i + n).
Proof.
  induction n as [|n IH]; intros l i Ha Hlen Hs.
  - cbn. rewrite Nat.add_0_r. split; [constructor | exact Hs].
  - cbn [seq fold_left].
    destruct (insertionShift_spec i l a i) as [Hsw Hsorted];
      [lia | lia | exact Hs | apply sortedRange_short; lia | intros; lia |].
    destruct (IH (GoSort.insertionShift less l a i) (S i)) as [Hsw' Hsorted'].
    + lia.
    + rewrite (swaps_length _ _ _ _ Hsw). lia.
    + replace (S i) with (i + 1)%nat by lia. exact Hsorted.
    + replace (i + S n)%nat with (S i + n)%nat by lia. split; [| exact Hsorted'].
      eapply swaps_trans; [| exact Hsw'].
      apply (swaps_mono a (i + 1)); [exact Hsw | lia | lia | lia].
Qed.

(** [insertionSort_func] orders [data[a:b]] and touches nothing else *)
Lemma insertionSort_func_spec l (a b : nat) :
  (b <= length l)%nat ->
  swaps a b l (GoSort.insertionSort_func less l a b) /\
  sortedRange less (GoSort.insertionSort_func less l a b) a b.
Proof.
  intros Hb. unfold GoSort.insertionSort_func.
  destruct (Nat.le_gt_cases b (a + 1)) as [Hshort | Hlong].
  - replace (b - (a + 1))%nat with 0%nat by lia. cbn.
    split; [constructor | now apply sortedRange_short].
  - destruct (insertion_fold a (b - (a + 1)) l (a + 1)) as [Hsw Hs];
      [lia | lia | apply sortedRange_short; lia |].
    replace (a + 1 + (b - (a + 1)))%nat with b in * by lia. now split.
Qed.

End Ordered.

Section Partition.

Context {A : Type} `{Inhabited A} (less : A -> A -> bool).
Hypothesis Hless : strictWeakOrder less.

Implicit Types l : list A.

Lemma scanLess_spec l (a j fuel : nat) : forall i : nat,
  (j + 1 - i <= fuel)%nat ->
  (i <= GoSort.scanLess less fuel l a i j)%nat /\
  ((i <= j + 1)%nat -> (GoSort.scanLess less fuel l a i j <= j + 1)%nat) /\
  (forall k, (i <= k < GoSort.scanLess less fuel l a i j)%nat ->
     less (l !!! k) (l !!! a) = true) /\
  ((GoSort.scanLess less fuel l a i j <= j)%nat ->
     less (l !!! GoSort.scanLess less fuel l a i j) (l !!! a) = false).
Proof.
  induction fuel as [|fuel IH]; intros i Hfuel; cbn [GoSort.scanLess].
  - repeat split; lia.
  - destruct (Nat.leb_spec i j) as [Hij | Hij]; cbn [andb]; [| repeat split; lia].
    unfold GoSort.Less. destruct (less (l !!! i) (l !!! a)) eqn:Hlt.
    + destruct (IH (i + 1)%nat) as (H1 & H2 & H3 & H4); [lia |].
      split; [lia |]. split; [intros _; apply H2; lia |]. split; [| exact H4].
      intros k Hk. destruct (decide (k = i)) as [-> | Hne]; [exact Hlt | apply H3; lia].
    + split; [lia |]. split; [lia |]. split; [intros k Hk; lia | intros _; exact Hlt].
Qed.

Lemma scanNotLess_spec l (a i fuel : nat) : forall j : nat,
  (j + 1 - i <= fuel)%nat -> (1 <= i)%nat ->
  (GoSort.scanNotLess less fuel l a i j <= j)%nat /\
  ((i <= j + 1)%nat -> (i <= GoSort.scanNotLess less fuel l a i j + 1)%nat) /\
  (forall k, (GoSort.scanNotLess less fuel l a i j < k <= j)%nat ->
     less (l !!! k) (l !!! a) = false) /\
  ((i <= GoSort.scanNotLess less fuel l a i j)%nat ->
     less (l !!! GoSort.scanNotLess less fuel l a i j) (l !!! a) = true).
Proof.
  induction fuel as [|fuel IH]; intros j Hfuel Hi; cbn [GoSort.scanNotLess].
  - repeat split; lia.
  - destruct (Nat.leb_spec i j) as [Hij | Hij]; cbn [andb]; [| repeat split; lia].
    unfold GoSort.Less. destruct (less (l !!! j) (l !!! a)) eqn:Hlt; cbn [negb].
    + split; [lia |]. split; [lia |]. split; [intros k Hk; lia | intros _; exact Hlt].
    + destruct (IH (j - 1)%nat) as (H1 & H2 & H3 & H4); [lia | lia |].
      split; [lia |]. split; [intros _; apply H2; lia |]. split; [| exact H4].
      intros k Hk. destruct (decide (k = j)) as [-> | Hne]; [exact Hlt | apply H3; lia].
Qed.

Lemma partition_loop_spec (a b fuel : nat) : forall l (i j : nat),
  partitionInv less l a b i j -> (j + 1 - i < fuel)%nat -> (b <= length l)%nat ->
  let r := GoSort.partition_loop less fuel l a b i j in
  swaps (a + 1) b l (fst r) /\ partitionInv less (fst r) a b (snd r + 1) (snd r).
Proof.
  induction fuel as [|fuel IH]; intros l i j Hinv Hfuel Hlen; [lia |].
  cbn [GoSort.partition_loop]. destruct Hinv as (Hi & Hij & Hj & Hlo & Hhi).
  destruct (scanLess_spec l a j (b - a) i) as (S1 & S2 & S3 & S4); [lia |].
  set (i' := GoSort.scanLess less (b - a) l a i j) in *.
  destruct (scanNotLess_spec l a i' (b - a) j) as (T1 & T2 & T3 & T4); [lia | lia |].
  set (j' := GoSort.scanNotLess less (b - a) l a i' j) in *.
  specialize (S2 Hij). specialize (T2 S2).
  destruct (Nat.ltb_spec j' i') as [Hdone | Hmore].
  - cbn. split; [constructor |]. assert (i' = j' + 1)%nat as Ei by lia.
    repeat split; try lia.
    + intros k Hk. destruct (Nat.lt_ge_cases k i); [apply Hlo; lia | apply S3; lia].
    + intros k Hk. destruct (Nat.le_gt_cases k j); [apply T3; lia | apply Hhi; lia].
  - specialize (S4 ltac:(lia)). specialize (T4 Hmore).
    assert (Hne : i' <> j') by (intros E; rewrite E in S4; congruence).
    destruct (IH (GoSort.Swap l i' j') (i' + 1)%nat (j' - 1)%nat) as [Hsw Hinv'].
    + repeat split; try lia.
      * intros k Hk. rewrite !Swap_lookup by lia.
        destruct (decide (a = i')); [lia |]. destruct (decide (a = j')); [lia |].
        destruct (decide (k = i')) as [-> | Hki]; [exact T4 |].
        destruct (decide (k = j')); [lia |].
        destruct (Nat.lt_ge_cases k i); [apply Hlo; lia | apply S3; lia].
      * intros k Hk. rewrite !Swap_lookup by lia.
        destruct (decide (a = i')); [lia |]. destruct (decide (a = j')); [lia |].
        destruct (decide (k = i')); [lia |].
        destruct (decide (k = j')) as [-> | Hkj]; [exact S4 |].
        destruct (Nat.le_gt_cases k j); [apply T3; lia | apply Hhi; lia].
    + lia.
    + now rewrite Swap_length.
    + split; [| exact Hinv'].
      eapply swaps_trans; [| exact Hsw]. apply swaps_Swap; lia.
Qed.

(** [partition_func]: the pivot lands at [mid], everything before it is
    less, nothing after it is *)
Lemma partition_func_spec l (a b pivot : nat) :
  (a <= pivot < b)%nat -> (b <= length l)%nat ->
  let r := GoSort.partition_func less l a b pivot in
  let l' := fst (fst r) in
  let mid := snd (fst r) in
  swaps a b l l' /\ (a <= mid < b)%nat /\
  (forall k, (a <= k < mid)%nat -> less (l' !!! k) (l' !!! mid) = true) /\
  (forall k, (mid < k < b)%nat -> less (l' !!! k) (l' !!! mid) = false).
Proof.
  intros Hp Hlen. unfold GoSort.partition_func.
  set (l0 := GoSort.Swap l a pivot).
  assert (Hlen0 : length l0 = length l) by apply Swap_length.
  assert (Hsw0 : swaps a b l l0) by (apply swaps_Swap; lia).
  destruct (scanLess_spec l0 a (b - 1) (b - a) (a + 1)) as (S1 & S2 & S3 & S4); [lia |].
  set (i' := GoSort.scanLess less (b - a) l0 a (a + 1) (b - 1)) in *.
  destruct (scanNotLess_spec l0 a i' (b - a) (b - 1)) as (T1 & T2 & T3 & T4); [lia | lia |].
  set (j' := GoSort.scanNotLess less (b - a) l0 a i' (b - 1)) in *.
  specialize (S2 ltac:(lia)). specialize (T2 S2).
  assert (Hfinish : forall l1 (j : nat),
            swaps a b l l1 -> partitionInv less l1 a b (j + 1) j ->
            swaps a b l (GoSort.Swap l1 j a) /\ (a <= j < b)%nat /\
            (forall k, (a <= k < j)%nat ->
               less (GoSort.Swap l1 j a !!! k) (GoSort.Swap l1 j a !!! j) = true) /\
            (forall k, (j < k < b)%nat ->
               less (GoSort.Swap l1 j a !!! k) (GoSort.Swap l1 j a !!! j) = false)).
  { intros l1 j Hsw1 (I1 & I2 & I3 & Ilo & Ihi).
    assert (Hlen1 : length l1 = length l) by apply (swaps_length _ _ _ _ Hsw1).
    split; [eapply swaps_trans; [exact Hsw1 | apply swaps_Swap; lia] |].
    split; [lia |]. split.
    - intros k Hk. rewrite !Swap_lookup by lia.
      destruct (decide (j = j)); [| lia].
      destruct (decide (k = j)); [lia |].
      destruct (decide (k = a)) as [-> | Hka]; apply Ilo; lia.
    - intros k Hk. rewrite !Swap_lookup by lia.
      destruct (decide (j = j)); [| lia].
      destruct (decide (k = j)); [lia |]. destruct (decide (k = a)); [lia |].
      apply Ihi; lia. }
  destruct (Nat.ltb_spec j' i') as [Hdone | Hmore].
  - cbn [fst snd]. apply Hfinish; [exact Hsw0 |].
    repeat split; try lia.
    + intros k Hk. apply S3; lia.
    + intros k Hk. apply T3; lia.
  - specialize (S4 ltac:(lia)). specialize (T4 Hmore).
    assert (Hne : i' <> j') by (intros E; rewrite E in S4; congruence).
    pose proof (partition_loop_spec a b (b - a) (GoSort.Swap l0 i' j') (i' + 1) (j' - 1))
      as Hloop.
    destruct (GoSort.partition_loop less (b - a) (GoSort.Swap l0 i' j') a b (i' + 1) (j' - 1))
      as [l2 j2] eqn:Eloop.
    cbn [fst snd] in Hloop |- *. destruct Hloop as [Hsw2 Hinv2].
    + repeat split; try lia.
      * intros k Hk. rewrite !Swap_lookup by lia.
        destruct (decide (a = i')); [lia |]. destruct (decide (a = j')); [lia |].
        destruct (decide (k = i')) as [-> | Hki]; [exact T4 |].
        destruct (decide (k = j')); [lia |]. apply S3; lia.
      * intros k Hk. rewrite !Swap_lookup by lia.
        destruct (decide (a = i')); [lia |]. destruct (decide (a = j')); [lia |].
        destruct (decide (k = i')); [lia |].
        destruct (decide (k = j')) as [-> | Hkj]; [exact S4 |]. apply T3; lia.
    + lia.
    + rewrite Swap_length. lia.
    + apply Hfinish; [| exact Hinv2].
      apply (swaps_trans a b l l0); [exact Hsw0 |].
      apply (swaps_trans a b l0 (GoSort.Swap l0 i' j')); [apply swaps_Swap; lia |].
      apply (swaps_mono (a + 1) b); [exact Hsw2 | lia | lia |].
      rewrite Swap_length. lia.
Qed.

End Partition.

Section PartitionEqual.

Context {A : Type} `{Inhabited A} (less : A -> A -> bool).
Hypothesis Hless : strictWeakOrder less.

Implicit Types l : list A.

Lemma scanNotGreater_spec l (a j fuel : nat) : forall i : nat,
  (j + 1 - i <= fuel)%nat ->
  (i <= GoSort.scanNotGreater less fuel l a i j)%nat /\
  ((i <= j + 1)%nat -> (GoSort.scanNotGreater less fuel l a i j <= j + 1)%nat) /\
  (forall k, (i <= k < GoSort.scanNotGreater less fuel l a i j)%nat ->
     less (l !!! a) (l !!! k) = false) /\
  ((GoSort.scanNotGreater less fuel l a i j <= j)%nat ->
     less (l !!! a) (l !!! GoSort.scanNotGreater less fuel l a i j) = true).
Proof.
  induction fuel as [|fuel IH]; intros i Hfuel; cbn [GoSort.scanNotGreater].
  - repeat split; lia.
  - destruct (Nat.leb_spec i j) as [Hij | Hij]; cbn [andb]; [| repeat split; lia].
    unfold GoSort.Less. destruct (less (l !!! a) (l !!! i)) eqn:Hlt; cbn [negb].
    + split; [lia |]. split; [lia |]. split; [intros k Hk; lia | intros _; exact Hlt].
    + destruct (IH (i + 1)%nat) as (H1 & H2 & H3 & H4); [lia |].
      split; [lia |]. split; [intros _; apply H2; lia |]. split; [| exact H4].
      intros k Hk. destruct (decide (k = i)) as [-> | Hne]; [exact Hlt | apply H3; lia].
Qed.

Lemma scanGreater_spec l (a i fuel : nat) : forall j : nat,
  (j + 1 - i <= fuel)%nat -> (1 <= i)%nat ->
  (GoSort.scanGreater less fuel l a i j <= j)%nat /\
  ((i <= j + 1)%nat -> (i <= GoSort.scanGreater less fuel l a i j + 1)%nat) /\
  (forall k, (GoSort.scanGreater less fuel l a i j < k <= j)%nat ->
     less (l !!! a) (l !!! k) = true) /\
  ((i <= GoSort.scanGreater less fuel l a i j)%nat ->
     less (l !!! a) (l !!! GoSort.scanGreater less fuel l a i j) = false).
Proof.
  induction fuel as [|fuel IH]; intros j Hfuel Hi; cbn [GoSort.scanGreater].
  - repeat split; lia.
  - destruct (Nat.leb_spec i j) as [Hij | Hij]; cbn [andb]; [| repeat split; lia].
    unfold GoSort.Less. destruct (less (l !!! a) (l !!! j)) eqn:Hlt.
    + destruct (IH (j - 1)%nat) as (H1 & H2 & H3 & H4); [lia | lia |].
      split; [lia |]. split; [intros _; apply H2; lia |]. split; [| exact H4].
      intros k Hk. destruct (decide (k = j)) as [-> | Hne]; [exact Hlt | apply H3; lia].
    + split; [lia |]. split; [lia |]. split; [intros k Hk; lia | intros _; exact Hlt].
Qed.

Lemma partitionEqual_loop_spec (a b fuel : nat) : forall l (i j : nat),
  partitionEqualInv less l a b i j -> (j + 1 - i < fuel)%nat -> (b <= length l)%nat ->
  let r := GoSort.partitionEqual_loop less fuel l a b i j in
  swaps (a + 1) b l (fst r) /\ (a + 1 <= snd r <= b)%nat /\
  (forall k, (a < k < snd r)%nat -> less (fst r !!! a) (fst r !!! k) = false) /\
  (forall k, (snd r <= k < b)%nat -> less (fst r !!! a) (fst r !!! k) = true).
Proof.
  induction fuel as [|fuel IH]; intros l i j Hinv Hfuel Hlen; [lia |].
  cbn [GoSort.partitionEqual_loop]. destruct Hinv as (Hi & Hij & Hj & Hlo & Hhi).
  destruct (scanNotGreater_spec l a j (b - a) i) as (S1 & S2 & S3 & S4); [lia |].
  set (i' := GoSort.scanNotGreater less (b - a) l a i j) in *.
  destruct (scanGreater_spec l a i' (b - a) j) as (T1 & T2 & T3 & T4); [lia | lia |].
  set (j' := GoSort.scanGreater less (b - a) l a i' j) in *.
  specialize (S2 Hij). specialize (T2 S2).
  destruct (Nat.ltb_spec j' i') as [Hdone | Hmore].
  - cbn. split; [constructor |]. split; [lia |]. split.
    + intros k Hk. destruct (Nat.lt_ge_cases k i); [apply Hlo; lia | apply S3; lia].
    + intros k Hk. destruct (Nat.le_gt_cases k j); [apply T3; lia | apply Hhi; lia].
  - specialize (S4 ltac:(lia)). specialize (T4 Hmore).
    assert (Hne : i' <> j') by (intros E; rewrite E in S4; congruence).
    destruct (IH (GoSort.Swap l i' j') (i' + 1)%nat (j' - 1)%nat) as (Hsw & Hmid & Hle & Hgt).
    + repeat split; try lia.
      * intros k Hk. rewrite !Swap_lookup by lia.
        destruct (decide (a = i')); [lia |]. destruct (decide (a = j')); [lia |].
        destruct (decide (k = i')) as [-> | Hki]; [exact T4 |].
        destruct (decide (k = j')); [lia |].
        destruct (Nat.lt_ge_cases k i); [apply Hlo; lia | apply S3; lia].
      * intros k Hk. rewrite !Swap_lookup by lia.
        destruct (decide (a = i')); [lia |]. destruct (decide (a = j')); [lia |].
        destruct (decide (k = i')); [lia |].
        destruct (decide (k = j')) as [-> | Hkj]; [exact S4 |].
        destruct (Nat.le_gt_cases k j); [apply T3; lia | apply Hhi; lia].
    + lia.
    + now rewrite Swap_length.
    + split; [| now repeat split].
      eapply swaps_trans; [| exact Hsw]. apply swaps_Swap; lia.
Qed.

(** [partitionEqual_func]: the pivot value is at [a]; up to [mid] nothing is
    greater than it, from [mid] on everything is *)
Lemma partitionEqual_func_spec l (a b pivot : nat) :
  (a <= pivot < b)%nat -> (b <= length l)%nat ->
  let r := GoSort.partitionEqual_func less l a b pivot in
  swaps a b l (fst r) /\ (a + 1 <= snd r <= b)%nat /\
  fst r !!! a = l !!! pivot /\
  (forall k, (a <= k < snd r)%nat -> less (l !!! pivot) (fst r !!! k) = false) /\
  (forall k, (snd r <= k < b)%nat -> less (l !!! pivot) (fst r !!! k) = true).
Proof.
  intros Hp Hlen. unfold GoSort.partitionEqual_func.
  set (l0 := GoSort.Swap l a pivot).
  assert (Hlen0 : length l0 = length l) by apply Swap_length.
  assert (Ha0 : l0 !!! a = l !!! pivot).
  { subst l0. rewrite Swap_lookup by lia. destruct (decide (a = a)); [reflexivity | lia]. }
  destruct (partitionEqual_loop_spec a b (b - a + 1) l0 (a + 1) (b - 1))
    as (Hsw & Hmid & Hle & Hgt).
  - repeat split; try lia; intros k Hk; lia.
  - lia.
  - lia.
  - set (r := GoSort.partitionEqual_loop less (b - a + 1) l0 a b (a + 1) (b - 1)) in *.
    assert (Ha : fst r !!! a = l !!! pivot).
    { rewrite (swaps_outside (a + 1) b l0 (fst r) a Hsw) by lia. exact Ha0. }
    split.
    + apply (swaps_trans a b l l0); [apply swaps_Swap; lia |].
      apply (swaps_mono (a + 1) b); [exact Hsw | lia | lia | lia].
    + split; [exact Hmid |]. split; [exact Ha |]. rewrite <- Ha. split.
      * intros k Hk. destruct (decide (k = a)) as [-> | Hne];
          [apply (less_irrefl less Hless) | apply Hle; lia].
      * exact Hgt.
Qed.

End PartitionEqual.

Section PartialInsertion.

Context {A : Type} `{Inhabited A} (less : A -> A -> bool).
Hypothesis Hless : strictWeakOrder less.

Implicit Types l : list A.

Lemma boundedBelow_swaps l l' (a b : nat) :
  swaps a b l l' -> boundedBelow less l a b -> boundedBelow less l' a b.
Proof.
  intros Hsw [Ha | Hb]; [now left |].
  destruct (decide (a = 0%nat)) as [-> | Hne]; [now left | right].
  intros k Hk. rewrite (swaps_outside a b l l' (a - 1) Hsw) by lia.
  apply (swaps_forall a b l l' (fun x => less x (l !!! (a - 1)%nat) = false) Hsw Hb k Hk).
Qed.

Lemma boundedBelow_sub l (a b b' : nat) :
  boundedBelow less l a b -> (b' <= b)%nat -> boundedBelow less l a b'.
Proof. intros [Ha | Hb] Hle; [now left | right]. intros k Hk. apply Hb. lia. Qed.

Lemma scanOrdered_spec l (a b fuel : nat) : forall i : nat,
  (b - i <= fuel)%nat -> (a < i <= b)%nat -> sortedRange less l a i ->
  (i <= GoSort.scanOrdered less fuel l i b <= b)%nat /\
  sortedRange less l a (GoSort.scanOrdered less fuel l i b) /\
  ((GoSort.scanOrdered less fuel l i b < b)%nat ->
   less (l !!! GoSort.scanOrdered less fuel l i b)
        (l !!! (GoSort.scanOrdered less fuel l i b - 1)%nat) = true).
Proof.
  induction fuel as [|fuel IH]; intros i Hfuel Hi Hs; cbn [GoSort.scanOrdered].
  - split; [lia |]. split; [exact Hs | lia].
  - destruct (Nat.ltb_spec i b) as [Hib | Hib]; cbn [andb]; [| split; [lia | split; [exact Hs | lia]]].
    unfold GoSort.Less. destruct (less (l !!! i) (l !!! (i - 1)%nat)) eqn:Hlt; cbn [negb].
    + split; [lia |]. split; [exact Hs | intros _; exact Hlt].
    + destruct (IH (i + 1)%nat) as (H1 & H2 & H3); [lia | lia | |].
      * apply (sortedRange_join less l a i (i + 1)); [exact Hs | apply sortedRange_short; lia |].
        intros p q Hp Hq. assert (q = i) as -> by lia.
        destruct (decide (p = (i - 1)%nat)) as [-> | Hne]; [exact Hlt |].
        apply (le_trans less Hless (l !!! p) (l !!! (i - 1)%nat) (l !!! i)); [apply Hs; lia | exact Hlt].
      * split; [lia |]. split; [exact H2 | exact H3].
Qed.

(** the left shift stops at [a] at the latest, like the inner loop of the
    insertion sort, because nothing in the range is less than what precedes
    it *)
Lemma shiftSmaller_insertionShift (a j : nat) : forall l,
  (a <= j)%nat -> (j < length l)%nat ->
  (a = 0%nat \/ less (l !!! j) (l !!! (a - 1)%nat) = false) ->
  GoSort.shiftSmaller less l j = GoSort.insertionShift less l a j.
Proof.
  induction j as [|j' IH]; intros l Ha Hlen Hb; [reflexivity |].
  cbn [GoSort.shiftSmaller GoSort.insertionShift].
  destruct (Nat.ltb_spec a (S j')) as [Hlt | Hge]; cbn [andb].
  - destruct (GoSort.Less less l (S j') j'); cbn [negb]; [| reflexivity].
    apply IH; [lia | rewrite Swap_length; lia |].
    destruct Hb as [-> | Hb]; [now left |].
    destruct (decide (a = 0%nat)) as [-> | Hne]; [now left | right].
    rewrite !Swap_lookup by lia.
    destruct (decide (j' = S j')); [lia |]. destruct (decide (j' = j')); [| lia].
    destruct (decide ((a - 1)%nat = S j')); [lia |].
    destruct (decide ((a - 1)%nat = j')); [lia | exact Hb].
  - destruct Hb as [-> | Hb]; [lia |].
    assert (a = S j') as -> by lia. unfold GoSort.Less.
    replace (S j' - 1)%nat with j' in Hb by lia. now rewrite Hb.
Qed.

Lemma shiftGreater_swaps (i b fuel : nat) : forall l (j : nat),
  (i < j)%nat -> (b <= length l)%nat ->
  swaps i b l (GoSort.shiftGreater less fuel l j b).
Proof.
  induction fuel as [|fuel IH]; intros l j Hj Hlen; cbn [GoSort.shiftGreater]; [constructor |].
  destruct (Nat.ltb_spec j b); [| constructor].
  destruct (negb _); [constructor |].
  apply (swaps_trans i b l (GoSort.Swap l j (j - 1))); [apply swaps_Swap; lia |].
  apply IH; [lia | now rewrite Swap_length].
Qed.

Lemma partialInsertionSort_loop_spec (a b steps : nat) : forall l (i : nat),
  (a < i <= b)%nat -> (b <= length l)%nat -> boundedBelow less l a b -> sortedRange less l a i ->
  let r := GoSort.partialInsertionSort_loop less steps l a b i in
  swaps a b l (fst r) /\ (snd r = true -> sortedRange less (fst r) a b).
Proof.
  induction steps as [|steps IH]; intros l i Hi Hlen Hbound Hs;
    cbn [GoSort.partialInsertionSort_loop].
  - cbn. split; [constructor | discriminate].
  - destruct (scanOrdered_spec l a b (b - a) i) as (S1 & S2 & S3); [lia | lia | exact Hs |].
    set (i' := GoSort.scanOrdered less (b - a) l i b) in *.
    destruct (Nat.eqb_spec i' b) as [Heq | Hne].
    + cbn. split; [constructor |]. intros _. now rewrite <- Heq.
    + destruct (Nat.ltb_spec (b - a) 50); [cbn; split; [constructor | discriminate] |].
      specialize (S3 ltac:(lia)).
      set (l1 := GoSort.Swap l i' (i' - 1)).
      assert (Hsw1 : swaps a b l l1) by (apply swaps_Swap; lia).
      assert (Hlen1 : length l1 = length l) by apply Swap_length.
      set (l2 := if (2 <=? i' - a)%nat then GoSort.shiftSmaller less l1 (i' - 1) else l1).
      assert (H2 : swaps a i' l1 l2 /\ sortedRange less l2 a i').
      { subst l2. destruct (Nat.leb_spec 2 (i' - a)) as [Hwide | Hnarrow].
        - rewrite (shiftSmaller_insertionShift a (i' - 1) l1); [| lia | lia |].
          + destruct (insertionShift_spec less Hless (i' - 1) l1 a (i' - 1)) as [Hsw Hsorted].
            * lia.
            * lia.
            * intros p q Hp Hpq Hq. subst l1. rewrite !Swap_lookup by lia.
              destruct (decide (q = i')); [lia |]. destruct (decide (q = (i' - 1)%nat)); [lia |].
              destruct (decide (p = i')); [lia |]. destruct (decide (p = (i' - 1)%nat)); [lia |].
              apply S2; lia.
            * apply sortedRange_short. lia.
            * intros p q Hp Hq. lia.
            * replace (i' - 1 + 1)%nat with i' in * by lia. now split.
          + destruct (boundedBelow_swaps l l1 a b Hsw1 Hbound) as [Ha0 | Hb1]; [now left | right].
            apply Hb1. lia.
        - split; [constructor | apply sortedRange_short; lia]. }
      destruct H2 as [Hsw2 Hs2].
      assert (Hlen2 : length l2 = length l).
      { rewrite (swaps_length _ _ _ _ Hsw2). exact Hlen1. }
      set (l3 := if (2 <=? b - i')%nat then GoSort.shiftGreater less (b - i') l2 (i' + 1) b else l2).
      assert (Hsw3 : swaps i' b l2 l3).
      { subst l3. destruct (2 <=? b - i')%nat; [| constructor].
        apply shiftGreater_swaps; lia. }
      assert (Hall : swaps a b l l3).
      { apply (swaps_trans a b l l1); [exact Hsw1 |].
        apply (swaps_trans a b l1 l2); [apply (swaps_mono a i'); [exact Hsw2 | lia | lia | lia] |].
        apply (swaps_mono i' b); [exact Hsw3 | lia | lia | lia]. }
      destruct (IH l3 i') as [Hsw Hsorted].
      * lia.
      * rewrite (swaps_length _ _ _ _ Hall). exact Hlen.
      * now apply (boundedBelow_swaps l l3 a b).
      * apply (sortedRange_ext less l2 l3 a i'); [exact Hs2 |].
        intros k Hk. apply (swaps_outside i' b l2 l3 k Hsw3). lia.
      * split; [| exact Hsorted]. now apply (swaps_trans a b l l3).
Qed.

(** [partialInsertionSort_func]: when it reports true, [data[a:b]] is in
    order *)
Lemma partialInsertionSort_func_spec l (a b : nat) :
  (a < b)%nat -> (b <= length l)%nat -> boundedBelow less l a b ->
  let r := GoSort.partialInsertionSort_func less l a b in
  swaps a b l (fst r) /\ (snd r = true -> sortedRange less (fst r) a b).
Proof.
  intros Hab Hlen Hbound. unfold GoSort.partialInsertionSort_func.
  apply partialInsertionSort_loop_spec; [lia | exact Hlen | exact Hbound |].
  apply sortedRange_short. lia.
Qed.

End PartialInsertion.

Section HeapSort.

Context {A : Type} `{Inhabited A} (less : A -> A -> bool).
Hypothesis Hless : strictWeakOrder less.

Implicit Types l : list A.

Lemma siftDown_loop_spec (first lo hi fuel : nat) : forall l (root : nat),
  (hi - root <= fuel)%nat -> (lo <= root)%nat -> (first + hi <= length l)%nat ->
  siftInv less l first lo hi root ->
  swaps first (first + hi) l (GoSort.siftDown_loop less fuel l root hi first) /\
  heapFrom less (GoSort.siftDown_loop less fuel l root hi first) first lo hi.
Proof.
  induction fuel as [|fuel IH]; intros l root Hfuel Hlo Hlen [I1 I2].
  - cbn. split; [constructor |]. intros r c Hr Hc Hch.
    apply I1; [exact Hr | unfold isChild in Hc; lia | exact Hc | exact Hch].
  - cbn [GoSort.siftDown_loop].
    destruct (Nat.leb_spec hi (2 * root + 1)) as [Hleaf | Hin].
    + split; [constructor |]. intros r c Hr Hc Hch.
      apply I1; [exact Hr | unfold isChild in Hc; lia | exact Hc | exact Hch].
    + set (c1 := (2 * root + 1)%nat) in *.
      set (child := if (c1 + 1 <? hi)%nat && GoSort.Less less l (first + c1) (first + c1 + 1)
                    then (c1 + 1)%nat else c1).
      assert (Hchild : isChild root child /\ (child < hi)%nat /\
                forall c, isChild root c -> (c < hi)%nat ->
                  less (l !!! (first + child)%nat) (l !!! (first + c)%nat) = false).
      { subst child. destruct (Nat.ltb_spec (c1 + 1) hi) as [H2 | H2]; cbn [andb].
        - unfold GoSort.Less. destruct (less (l !!! (first + c1)%nat) (l !!! (first + c1 + 1)%nat)) eqn:E.
          + split; [right; subst c1; lia |]. split; [lia |].
            intros c [-> | ->] Hc.
            * fold c1. replace (first + (c1 + 1))%nat with (first + c1 + 1)%nat by lia.
              now apply (less_asym less Hless).
            * replace (2 * root + 2)%nat with (c1 + 1)%nat by (subst c1; lia).
              apply (less_irrefl less Hless).
          + split; [left; reflexivity |]. split; [lia |].
            intros c [-> | ->] Hc.
            * apply (less_irrefl less Hless).
            * replace (first + (2 * root + 2))%nat with (first + c1 + 1)%nat by (subst c1; lia).
              exact E.
        - split; [left; reflexivity |]. split; [lia |].
          intros c [-> | ->] Hc; [apply (less_irrefl less Hless) | subst c1; lia]. }
      destruct Hchild as (Hisc & Hch & Hmax). clearbody child.
      unfold GoSort.Less.
      destruct (less (l !!! (first + root)%nat) (l !!! (first + child)%nat)) eqn:Hrc; cbn [negb].
      * assert (Hne : root <> child) by (unfold isChild in Hisc; lia).
        destruct (IH (GoSort.Swap l (first + root) (first + child)) child) as [Hsw Hheap].
        -- unfold isChild in Hisc. lia.
        -- unfold isChild in Hisc. lia.
        -- now rewrite Swap_length.
        -- split.
           ++ intros r c Hr Hrne Hc Hc'.
              assert (Hrr : (r < c)%nat) by (unfold isChild in Hc; lia).
              rewrite !Swap_lookup by lia.
              destruct (decide ((first + r)%nat = (first + root)%nat)) as [Er | Er].
              ** assert (r = root) as -> by lia.
                 destruct (decide ((first + c)%nat = (first + root)%nat)); [lia |].
                 destruct (decide ((first + c)%nat = (first + child)%nat)) as [Ec | Ec].
                 --- now apply (less_asym less Hless).
                 --- apply Hmax; assumption.
              ** destruct (decide ((first + r)%nat = (first + child)%nat)); [lia |].
                 destruct (decide ((first + c)%nat = (first + root)%nat)) as [Ec | Ec].
                 --- assert (c = root) as -> by lia. apply I2; assumption.
                 --- destruct (decide ((first + c)%nat = (first + child)%nat)) as [Ec' | Ec'].
                     +++ assert (c = child) as -> by lia.
                         exfalso. unfold isChild in Hc, Hisc. lia.
                     +++ apply I1; [exact Hr | lia | exact Hc | exact Hc'].
           ++ intros p c Hp Hpc Hc Hc'.
              assert (p = root) as -> by (unfold isChild in Hpc, Hisc; lia).
              assert (Hcc : (child < c)%nat) by (unfold isChild in Hc; lia).
              rewrite !Swap_lookup by lia.
              destruct (decide ((first + root)%nat = (first + root)%nat)); [| lia].
              destruct (decide ((first + c)%nat = (first + root)%nat));
                [unfold isChild in Hisc; lia |].
              destruct (decide ((first + c)%nat = (first + child)%nat)); [lia |].
              apply I1; [unfold isChild in Hisc; lia | lia | exact Hc | exact Hc'].
        -- split; [| exact Hheap].
           apply (swaps_trans _ _ l (GoSort.Swap l (first + root) (first + child)));
             [| exact Hsw].
           apply swaps_Swap; unfold isChild in Hisc; lia.
      * split; [constructor |]. intros r c Hr Hc Hc'.
        destruct (decide (r = root)) as [-> | Hne]; [| now apply I1].
        apply (less_ntrans less Hless _ (l !!! (first + child)%nat)); [exact Hrc |].
        now apply Hmax.
Qed.

Lemma siftDown_func_spec l (first lo hi : nat) :
  (first + hi <= length l)%nat -> heapFrom less l first (lo + 1) hi ->
  swaps first (first + hi) l (GoSort.siftDown_func less l lo hi first) /\
  heapFrom less (GoSort.siftDown_func less l lo hi first) first lo hi.
Proof.
  intros Hlen Hheap. unfold GoSort.siftDown_func.
  apply siftDown_loop_spec; [lia | lia | exact Hlen |]. split.
  - intros r c Hr Hne Hc Hc'. apply Hheap; [lia | exact Hc | exact Hc'].
  - intros p c Hp Hpc. unfold isChild in Hpc. lia.
Qed.

Lemma rev_seq_S (n : nat) : rev (seq 0 (S n)) = n :: rev (seq 0 n).
Proof. rewrite seq_S, rev_app_distr. reflexivity. Qed.

Lemma build_heap_spec (first hi n : nat) : forall l,
  (first + hi <= length l)%nat -> heapFrom less l first n hi ->
  swaps first (first + hi) l
    (fold_left (fun data i => GoSort.siftDown_func less data i hi first) (rev (seq 0 n)) l) /\
  heapFrom less
    (fold_left (fun data i => GoSort.siftDown_func less data i hi first) (rev (seq 0 n)) l)
    first 0 hi.
Proof.
  induction n as [|n IH]; intros l Hlen Hheap.
  - cbn. split; [constructor | exact Hheap].
  - rewrite rev_seq_S. cbn [fold_left].
    destruct (siftDown_func_spec l first n hi Hlen) as [Hsw Hheap1].
    { now replace (n + 1)%nat with (S n) by lia. }
    destruct (IH (GoSort.siftDown_func less l n hi first)) as [Hsw' Hheap'].
    + now rewrite (swaps_length _ _ _ _ Hsw).
    + exact Hheap1.
    + split; [| exact Hheap']. eapply swaps_trans; [exact Hsw | exact Hsw'].
Qed.

(** the root of a heap is not less than any of its nodes *)
Lemma heap_root_max l (first n : nat) :
  heapFrom less l first 0 n ->
  forall r, (r < n)%nat -> less (l !!! (first + 0)%nat) (l !!! (first + r)%nat) = false.
Proof.
  intros Hheap r. induction r as [r IH] using lt_wf_ind. intros Hr.
  destruct (decide (r = 0%nat)) as [-> | Hne]; [apply (less_irrefl less Hless) |].
  assert (Hpar : exists p, (p < r)%nat /\ isChild p r).
  { exists ((r - 1) / 2)%nat. unfold isChild.
    pose proof (Nat.div_mod_eq (r - 1) 2) as Hdm.
    pose proof (Nat.mod_upper_bound (r - 1) 2 ltac:(lia)) as Hmod. lia. }
  destruct Hpar as (p & Hp & Hc).
  apply (less_ntrans less Hless _ (l !!! (first + p)%nat)).
  - apply IH; lia.
  - apply Hheap; [lia | exact Hc | exact Hr].
Qed.

Lemma extract_spec (first hi n : nat) : forall l,
  (n <= hi)%nat -> (first + hi <= length l)%nat ->
  heapFrom less l first 0 n ->
  sortedRange less l (first + n) (first + hi) ->
  (forall p q, (p < n)%nat -> (n <= q < hi)%nat ->
     less (l !!! (first + q)%nat) (l !!! (first + p)%nat) = false) ->
  swaps first (first + hi) l
    (fold_left (fun data i =>
                  GoSort.siftDown_func less (GoSort.Swap data first (first + i)) 0 i first)
       (rev (seq 0 n)) l) /\
  sortedRange less
    (fold_left (fun data i =>
                  GoSort.siftDown_func less (GoSort.Swap data first (first + i)) 0 i first)
       (rev (seq 0 n)) l)
    first (first + hi).
Proof.
  induction n as [|n IH]; intros l Hn Hlen Hheap Hsorted Hcross.
  - cbn. split; [constructor |]. now rewrite Nat.add_0_r in Hsorted.
  - rewrite rev_seq_S. cbn [fold_left].
    set (l1 := GoSort.Swap l first (first + n)).
    assert (Hlen1 : length l1 = length l) by apply Swap_length.
    assert (Hsw1 : swaps first (first + hi) l l1) by (apply swaps_Swap; lia).
    assert (Hl1 : forall k, l1 !!! (first + k)%nat
                  = if decide (k = 0%nat) then l !!! (first + n)%nat
                    else if decide (k = n) then l !!! first else l !!! (first + k)%nat).
    { intros k. subst l1. rewrite Swap_lookup by lia.
      destruct (decide ((first + k)%nat = first)), (decide (k = 0%nat)); try lia; [reflexivity |].
      destruct (decide ((first + k)%nat = (first + n)%nat)), (decide (k = n)); try lia;
        reflexivity. }
    destruct (siftDown_func_spec l1 first 0 n) as [Hsw2 Hheap2]; [lia | |].
    { intros r c Hr Hc Hc'. assert (r < c)%nat by (unfold isChild in Hc; lia).
      rewrite !Hl1. destruct (decide (r = 0%nat)); [lia |]. destruct (decide (r = n)); [lia |].
      destruct (decide (c = 0%nat)); [lia |]. destruct (decide (c = n)); [lia |].
      apply Hheap; [lia | exact Hc | lia]. }
    set (l2 := GoSort.siftDown_func less l1 0 n first) in *.
    assert (Hout : forall q, (n <= q)%nat -> l2 !!! (first + q)%nat = l1 !!! (first + q)%nat).
    { intros q Hq. apply (swaps_outside first (first + n) l1 l2 _ Hsw2). lia. }
    assert (Hin : forall p, (p < n)%nat ->
              exists p', (p' <= n)%nat /\ l2 !!! (first + p)%nat = l !!! (first + p')%nat).
    { intros p Hp.
      destruct (swaps_inside first (first + n) l1 l2 (first + p) Hsw2) as (k & Hk & Ek); [lia |].
      replace k with (first + (k - first))%nat in Ek by lia. rewrite Hl1 in Ek.
      destruct (decide ((k - first)%nat = 0%nat)); [exists n; split; [lia | exact Ek] |].
      destruct (decide ((k - first)%nat = n)); [lia |].
      exists (k - first)%nat. split; [lia | exact Ek]. }
    pose proof (heap_root_max l first (S n) Hheap) as Hmax.
    rewrite Nat.add_0_r in Hmax.
    destruct (IH l2) as [Hsw3 Hsorted3].
    + lia.
    + rewrite (swaps_length _ _ _ _ Hsw2). lia.
    + exact Hheap2.
    + intros i j Hi Hij Hj.
      replace i with (first + (i - first))%nat by lia.
      replace j with (first + (j - first))%nat by lia.
      rewrite !Hout by lia. rewrite !Hl1.
      destruct (decide ((j - first)%nat = 0%nat)); [lia |].
      destruct (decide ((j - first)%nat = n)); [lia |].
      destruct (decide ((i - first)%nat = 0%nat)) as [E0 | E0].
      * apply Hcross; lia.
      * destruct (decide ((i - first)%nat = n)) as [En | En].
        -- pose proof (Hcross 0%nat (j - first)%nat ltac:(lia) ltac:(lia)) as Hx.
           rewrite Nat.add_0_r in Hx. exact Hx.
        -- apply Hsorted; lia.
    + intros p q Hp Hq. destruct (Hin p Hp) as (p' & Hp' & ->).
      rewrite Hout by lia. rewrite Hl1.
      destruct (decide (q = 0%nat)); [lia |].
      destruct (decide (q = n)); [apply Hmax; lia | apply Hcross; lia].
    + split; [| exact Hsorted3].
      apply (swaps_trans _ _ l l1); [exact Hsw1 |].
      apply (swaps_trans _ _ l1 l2); [| exact Hsw3].
      apply (swaps_mono first (first + n)); [exact Hsw2 | lia | lia | lia].
Qed.

(** [heapSort_func] orders [data[a:b]] and touches nothing else *)
Lemma heapSort_func_spec l (a b : nat) :
  (a <= b)%nat -> (b <= length l)%nat ->
  swaps a b l (GoSort.heapSort_func less l a b) /\
  sortedRange less (GoSort.heapSort_func less l a b) a b.
Proof.
  intros Hab Hlen. unfold GoSort.heapSort_func. cbv zeta.
  set (hi := (b - a)%nat).
  assert (Hb : (a + hi)%nat = b) by (subst hi; lia).
  destruct (build_heap_spec a hi ((hi - 1) / 2 + 1) l) as [Hsw1 Hheap1]; [lia | |].
  { intros r c Hr Hc Hc'. exfalso.
    pose proof (Nat.div_mod_eq (hi - 1) 2) as Hdm.
    pose proof (Nat.mod_upper_bound (hi - 1) 2 ltac:(lia)) as Hmod.
    unfold isChild in Hc. lia. }
  set (l1 := fold_left _ (rev (seq 0 ((hi - 1) / 2 + 1))) l) in *.
  destruct (extract_spec a hi hi l1) as [Hsw2 Hsorted2].
  - lia.
  - rewrite (swaps_length _ _ _ _ Hsw1). lia.
  - exact Hheap1.
  - apply sortedRange_short. lia.
  - intros p q Hp Hq. lia.
  - rewrite Hb in *. split; [| exact Hsorted2].
    eapply swaps_trans; [exact Hsw1 | exact Hsw2].
Qed.

End HeapSort.

Section PivotAndPatterns.

Context {A : Type} `{Inhabited A} `{GoRuntime} (less : A -> A -> bool).

Implicit Types l : list A.

Lemma reverseRange_loop_swaps (a b fuel : nat) : forall l (i j : nat),
  (a <= i)%nat -> (j < b)%nat -> (b <= length l)%nat ->
  swaps a b l (GoSort.reverseRange_loop fuel l i j).
Proof.
  induction fuel as [|fuel IH]; intros l i j Hi Hj Hlen; cbn [GoSort.reverseRange_loop];
    [constructor |].
  destruct (Nat.ltb_spec i j); [| constructor].
  apply (swaps_trans a b l (GoSort.Swap l i j)); [apply swaps_Swap; lia |].
  apply IH; [lia | lia | now rewrite Swap_length].
Qed.

Lemma reverseRange_func_swaps l (a b : nat) :
  (a < b)%nat -> (b <= length l)%nat -> swaps a b l (GoSort.reverseRange_func l a b).
Proof. intros Hab Hlen. unfold GoSort.reverseRange_func. apply reverseRange_loop_swaps; lia. Qed.

(** the mask of [breakPatterns_func] keeps a number below the power of two *)
Lemma land_mask_lt (x : N) (k : N) : (N.land x (N.shiftl 1 k - 1) < N.shiftl 1 k)%N.
Proof.
  rewrite N.shiftl_1_l, N.sub_1_r, <- N.ones_equiv, N.land_ones.
  apply N.mod_lt. apply N.pow_nonzero. discriminate.
Qed.

Lemma nextPowerOfTwo_le (length : nat) :
  (1 <= length)%nat -> (GoSort.nextPowerOfTwo length <= 2 * N.of_nat length)%N.
Proof.
  intros Hlen. unfold GoSort.nextPowerOfTwo, GoSort.bits_Len.
  rewrite N2Nat.id, N.shiftl_1_l.
  assert (Hn : (N.of_nat length <> 0)%N) by lia.
  rewrite (N.size_log2 _ Hn), N.pow_succ_r'.
  pose proof (N.log2_spec (N.of_nat length) ltac:(lia)) as [Hlo _]. lia.
Qed.

Lemma breakPatterns_loop_swaps (a length idx : nat) (modulus : N) (turns : list nat) :
  forall l (random : N),
  (1 <= length)%nat -> (a + length <= List.length l)%nat ->
  (modulus = GoSort.nextPowerOfTwo length) ->
  Forall (fun i => a <= idx - 1 + i < a + length)%nat turns ->
  swaps a (a + length) l (GoSort.breakPatterns_loop turns l a length idx random modulus).
Proof.
  induction turns as [|i turns IH]; intros l random Hlen Hl Hmod Hturns;
    cbn [GoSort.breakPatterns_loop]; [constructor |].
  apply Forall_cons in Hturns as [Hi Hturns].
  set (random' := sort_xorshift_Next random).
  set (other0 := N.to_nat (N.land random' (modulus - 1))).
  assert (Hother0 : (other0 < 2 * length)%nat).
  { subst other0. pose proof (nextPowerOfTwo_le length Hlen) as Hle.
    assert (Hlt : (N.land random' (modulus - 1) < modulus)%N).
    { rewrite Hmod. unfold GoSort.nextPowerOfTwo. apply land_mask_lt. }
    rewrite <- Hmod in Hle. lia. }
  set (other := if (length <=? other0)%nat then (other0 - length)%nat else other0).
  assert (Hother : (other < length)%nat).
  { subst other. destruct (Nat.leb_spec length other0); lia. }
  apply (swaps_trans _ _ l (GoSort.Swap l (idx - 1 + i) (a + other))).
  - apply swaps_Swap; lia.
  - apply IH; [exact Hlen | now rewrite Swap_length | exact Hmod | exact Hturns].
Qed.

Lemma breakPatterns_func_swaps l (a b : nat) :
  (a <= b)%nat -> (b <= length l)%nat -> swaps a b l (GoSort.breakPatterns_func l a b).
Proof.
  intros Hab Hlen. unfold GoSort.breakPatterns_func. cbv zeta.
  destruct (Nat.leb_spec 8 (b - a)) as [Hbig | Hsmall]; [| constructor].
  replace b with (a + (b - a))%nat at 1 by lia.
  apply breakPatterns_loop_swaps; [lia | lia | reflexivity |].
  pose proof (Nat.div_mod_eq (b - a) 4) as Hdm.
  pose proof (Nat.mod_upper_bound (b - a) 4 ltac:(lia)) as Hmod.
  repeat constructor; lia.
Qed.

Lemma order2_func_in l (x y s : nat) :
  let r := GoSort.order2_func less l x y s in
  (fst (fst r) = x /\ snd (fst r) = y) \/ (fst (fst r) = y /\ snd (fst r) = x).
Proof. unfold GoSort.order2_func. destruct (GoSort.Less less l y x); cbn; auto. Qed.

Lemma median_func_in l (x y z s : nat) :
  let m := fst (GoSort.median_func less l x y z s) in m = x \/ m = y \/ m = z.
Proof.
  unfold GoSort.median_func.
  pose proof (order2_func_in l x y s) as H1.
  destruct (GoSort.order2_func less l x y s) as [[x1 y1] s1]. cbn in H1.
  pose proof (order2_func_in l y1 z s1) as H2.
  destruct (GoSort.order2_func less l y1 z s1) as [[y2 z2] s2]. cbn in H2.
  pose proof (order2_func_in l x1 y2 s2) as H3.
  destruct (GoSort.order2_func less l x1 y2 s2) as [[x3 y3] s3]. cbn in H3. cbn.
  intuition congruence.
Qed.

Lemma medianAdjacent_func_in l (x s : nat) :
  let m := fst (GoSort.medianAdjacent_func less l x s) in
  (x - 1 <= m <= x + 1)%nat.
Proof.
  unfold GoSort.medianAdjacent_func. cbv zeta.
  pose proof (median_func_in l (x - 1) x (x + 1) s) as Hm. cbv zeta in Hm. lia.
Qed.

(** [choosePivot_func] chooses a place of [data[a:b]] *)
Lemma choosePivot_func_range l (a b : nat) :
  (a < b)%nat -> (a <= fst (GoSort.choosePivot_func less l a b) < b)%nat.
Proof.
  intros Hab. unfold GoSort.choosePivot_func. cbv zeta.
  pose proof (Nat.div_mod_eq (b - a) 4) as Hdm.
  pose proof (Nat.mod_upper_bound (b - a) 4 ltac:(lia)) as Hmod.
  set (q := ((b - a) / 4)%nat) in *. clearbody q.
  assert (Hres : forall (j s : nat), (a <= j < b)%nat ->
            (a <= fst (if (s =? 0)%nat then (j, GoSort.increasingHint)
                       else if (s =? 12)%nat then (j, GoSort.decreasingHint)
                       else (j, GoSort.unknownHint)) < b)%nat).
  { intros j s Hj. destruct (s =? 0)%nat; [exact Hj |]. now destruct (s =? 12)%nat. }
  destruct (Nat.leb_spec 8 (b - a)) as [H8 | H8].
  - destruct (Nat.leb_spec 50 (b - a)) as [H50 | H50].
    + pose proof (medianAdjacent_func_in l (a + q * 1) 0) as M1.
      destruct (GoSort.medianAdjacent_func less l (a + q * 1) 0) as [i1 s1].
      pose proof (medianAdjacent_func_in l (a + q * 2) s1) as M2.
      destruct (GoSort.medianAdjacent_func less l (a + q * 2) s1) as [j1 s2].
      pose proof (medianAdjacent_func_in l (a + q * 3) s2) as M3.
      destruct (GoSort.medianAdjacent_func less l (a + q * 3) s2) as [k1 s3].
      cbn in M1, M2, M3.
      pose proof (median_func_in l i1 j1 k1 s3) as M.
      destruct (GoSort.median_func less l i1 j1 k1 s3) as [j s]. cbn in M.
      apply Hres. lia.
    + pose proof (median_func_in l (a + q * 1) (a + q * 2) (a + q * 3) 0) as M.
      destruct (GoSort.median_func less l (a + q * 1) (a + q * 2) (a + q * 3) 0) as [j s].
      cbn in M. apply Hres. lia.
  - apply Hres. lia.
Qed.

End PivotAndPatterns.

Section Pdqsort.

Context {A : Type} `{Inhabited A} `{GoRuntime} (less : A -> A -> bool).
Hypothesis Hless : strictWeakOrder less.

Implicit Types l : list A.

(** two ordered ranges around a pivot that splits them *)
Lemma sortedRange_pivot l (a mid b : nat) :
  (a <= mid < b)%nat ->
  sortedRange less l a mid -> sortedRange less l (mid + 1) b ->
  (forall k, (a <= k < mid)%nat -> less (l !!! k) (l !!! mid) = true) ->
  (forall k, (mid < k < b)%nat -> less (l !!! k) (l !!! mid) = false) ->
  sortedRange less l a b.
Proof.
  intros Hmid Hleft Hright Hlo Hhi i j Hi Hij Hj.
  destruct (lt_eq_lt_dec j mid) as [[Hjm | ->] | Hjm].
  - apply Hleft; lia.
  - apply (less_asym less Hless). apply Hlo. lia.
  - destruct (lt_eq_lt_dec i mid) as [[Him | ->] | Him].
    + destruct (less (l !!! j) (l !!! i)) eqn:E; [| reflexivity].
      pose proof (less_trans less Hless _ _ _ E (Hlo i ltac:(lia))) as Hc.
      rewrite (Hhi j ltac:(lia)) in Hc. discriminate.
    + apply Hhi. lia.
    + apply Hright; lia.
Qed.

(** a run of elements equivalent to the pivot, followed by an ordered range
    of greater ones *)
Lemma sortedRange_equal l (a mid b : nat) (pv : A) :
  sortedRange less l mid b ->
  (forall k, (a <= k < mid)%nat -> less pv (l !!! k) = false) ->
  (forall k, (a <= k < mid)%nat -> less (l !!! k) pv = false) ->
  (forall k, (mid <= k < b)%nat -> less pv (l !!! k) = true) ->
  sortedRange less l a b.
Proof.
  intros Hright Hnot Hnot' Hgt.
  apply (sortedRange_join less l a mid b); [| exact Hright |].
  - intros i j Hi Hij Hj.
    apply (less_ntrans less Hless _ pv); [apply Hnot'; lia | apply Hnot; lia].
  - intros p q Hp Hq.
    destruct (less (l !!! q) (l !!! p)) eqn:E; [| reflexivity].
    pose proof (less_trans less Hless _ _ _ (Hgt q Hq) E) as Hc.
    rewrite (Hnot p Hp) in Hc. discriminate.
Qed.

(** [pdqsort_func] orders [data[a:b]] by swaps inside the range, given the
    fuel for its length; what precedes the range bounds it from below, as it
    does whenever the function calls itself *)
Lemma pdqsort_func_spec (fuel : nat) : forall l (a b limit : nat) (wb wp : bool),
  (b - a < fuel)%nat -> (a <= b)%nat -> (b <= length l)%nat ->
  boundedBelow less l a b ->
  swaps a b l (GoSort.pdqsort_func less fuel l a b limit wb wp) /\
  sortedRange less (GoSort.pdqsort_func less fuel l a b limit wb wp) a b.
Proof.
  induction fuel as [|fuel IH]; intros l a b limit wb wp Hfuel Hab Hlen Hbound; [lia |].
  cbn [GoSort.pdqsort_func]. cbv zeta.
  destruct (Nat.leb_spec (b - a) 12) as [Hsmall | Hbig].
  { now apply insertionSort_func_spec. }
  destruct (Nat.eqb_spec limit 0) as [Hlimit | Hlimit].
  { now apply heapSort_func_spec. }
  (* breakPatterns *)
  assert (Hs1 : swaps a b l
            (fst (if negb wb then (GoSort.breakPatterns_func l a b, (limit - 1)%nat)
                  else (l, limit)))).
  { destruct wb; cbn; [constructor | now apply breakPatterns_func_swaps]. }
  destruct (if negb wb then (GoSort.breakPatterns_func l a b, (limit - 1)%nat) else (l, limit))
    as [l1 limit1]. cbn [fst] in Hs1.
  assert (Hlen1 : length l1 = length l) by apply (swaps_length _ _ _ _ Hs1).
  (* choosePivot *)
  pose proof (choosePivot_func_range less l1 a b ltac:(lia)) as Hpivot.
  destruct (GoSort.choosePivot_func less l1 a b) as [pivot0 hint0]. cbn [fst] in Hpivot.
  (* reverseRange *)
  assert (Hs2 : let r := if GoSort.isDecreasing hint0
                         then (GoSort.reverseRange_func l1 a b, (b - 1 - (pivot0 - a))%nat,
                               GoSort.increasingHint)
                         else (l1, pivot0, hint0) in
                swaps a b l1 (fst (fst r)) /\ (a <= snd (fst r) < b)%nat).
  { destruct (GoSort.isDecreasing hint0); cbn.
    - split; [apply reverseRange_func_swaps; lia | lia].
    - split; [constructor | exact Hpivot]. }
  destruct (if GoSort.isDecreasing hint0
            then (GoSort.reverseRange_func l1 a b, (b - 1 - (pivot0 - a))%nat,
                  GoSort.increasingHint)
            else (l1, pivot0, hint0)) as [[l2 pivot] hint].
  cbn in Hs2. destruct Hs2 as [Hs2 Hpiv]. clear Hpivot pivot0 hint0.
  assert (Hs12 : swaps a b l l2) by (eapply swaps_trans; eassumption).
  assert (Hlen2 : length l2 = length l) by apply (swaps_length _ _ _ _ Hs12).
  (* partialInsertionSort *)
  assert (Hs3 : let r := if wb && wp && GoSort.isIncreasing hint
                         then GoSort.partialInsertionSort_func less l2 a b
                         else (l2, false) in
                swaps a b l2 (fst r) /\ (snd r = true -> sortedRange less (fst r) a b)).
  { destruct (wb && wp && GoSort.isIncreasing hint)%bool.
    - apply (partialInsertionSort_func_spec less Hless); [lia | lia |].
      now apply (boundedBelow_swaps less l l2).
    - cbn. split; [constructor | discriminate]. }
  destruct (if wb && wp && GoSort.isIncreasing hint
            then GoSort.partialInsertionSort_func less l2 a b
            else (l2, false)) as [l3 sorted].
  cbn in Hs3. destruct Hs3 as [Hs3 Hsorted3].
  assert (Hs13 : swaps a b l l3) by (eapply swaps_trans; eassumption).
  assert (Hlen3 : length l3 = length l) by apply (swaps_length _ _ _ _ Hs13).
  assert (Hbound3 : boundedBelow less l3 a b) by now apply (boundedBelow_swaps less l l3).
  destruct sorted.
  { split; [exact Hs13 | now apply Hsorted3]. }
  clear Hsorted3.
  destruct ((0 <? a)%nat && negb (GoSort.Less less l3 (a - 1) pivot))%bool eqn:Hequal.
  - (* partitionEqual: the pivot is not greater than what precedes the range *)
    apply andb_true_iff in Hequal as [Hapos Hpred].
    apply Nat.ltb_lt in Hapos. apply negb_true_iff in Hpred. unfold GoSort.Less in Hpred.
    destruct Hbound3 as [Ha0 | Hbound3]; [lia |].
    pose proof (partitionEqual_func_spec less Hless l3 a b pivot Hpiv ltac:(lia)) as Hp.
    destruct (GoSort.partitionEqual_func less l3 a b pivot) as [l4 mid].
    cbn in Hp. destruct Hp as (Hs4 & Hmid & _ & Hnot & Hgt).
    set (pv := l3 !!! pivot) in *.
    assert (Hlen4 : length l4 = length l).
    { rewrite (swaps_length _ _ _ _ Hs4). exact Hlen3. }
    assert (Hnot' : forall k, (a <= k < mid)%nat -> less (l4 !!! k) pv = false).
    { intros k Hk. apply (less_ntrans less Hless _ (l3 !!! (a - 1)%nat)); [| exact Hpred].
      apply (swaps_forall a b l3 l4 (fun x => less x (l3 !!! (a - 1)%nat) = false) Hs4 Hbound3).
      lia. }
    destruct (IH l4 mid b limit1 wb wp) as [Hs5 Hsorted5]; [lia | lia | lia | |].
    { right. intros k Hk.
      destruct (less (l4 !!! k) (l4 !!! (mid - 1)%nat)) eqn:E; [| reflexivity].
      pose proof (less_trans less Hless _ _ _ (Hgt k Hk) E) as Hc.
      rewrite (Hnot (mid - 1)%nat ltac:(lia)) in Hc. discriminate. }
    set (l5 := GoSort.pdqsort_func less fuel l4 mid b limit1 wb wp) in *.
    split.
    + apply (swaps_trans a b l l3); [exact Hs13 |].
      apply (swaps_trans a b l3 l4); [exact Hs4 |].
      apply (swaps_mono mid b); [exact Hs5 | lia | lia | lia].
    + apply (sortedRange_equal l5 a mid b pv); [exact Hsorted5 | | |].
      * intros k Hk. rewrite (swaps_outside mid b l4 l5 k Hs5) by lia. now apply Hnot.
      * intros k Hk. rewrite (swaps_outside mid b l4 l5 k Hs5) by lia. now apply Hnot'.
      * apply (swaps_forall mid b l4 l5 (fun x => less pv x = true) Hs5 Hgt).
  - (* partition *)
    clear Hequal.
    pose proof (partition_func_spec less l3 a b pivot Hpiv ltac:(lia)) as Hp.
    destruct (GoSort.partition_func less l3 a b pivot) as [[l4 mid] ap].
    cbn in Hp. destruct Hp as (Hs4 & Hmid & Hlo & Hhi).
    set (pv := l4 !!! mid) in *.
    assert (Hs14 : swaps a b l l4) by (eapply swaps_trans; eassumption).
    assert (Hlen4 : length l4 = length l) by apply (swaps_length _ _ _ _ Hs14).
    assert (Hbound4 : boundedBelow less l4 a b) by now apply (boundedBelow_swaps less l l4).
    destruct (mid - a <? b - mid)%nat.
    + destruct (IH l4 a mid limit1 true true) as [Hs5 Hsorted5]; [lia | lia | lia | |].
      { apply (boundedBelow_sub less l4 a b); [exact Hbound4 | lia]. }
      set (l5 := GoSort.pdqsort_func less fuel l4 a mid limit1 true true) in *.
      assert (Hlen5 : length l5 = length l).
      { rewrite (swaps_length _ _ _ _ Hs5). exact Hlen4. }
      assert (Hbound5 : boundedBelow less l5 (mid + 1) b).
      { right. intros k Hk. replace (mid + 1 - 1)%nat with mid by lia.
        rewrite !(swaps_outside a mid l4 l5 _ Hs5) by lia. apply Hhi. lia. }
      pose proof (fun wb' wp' =>
                    IH l5 (mid + 1)%nat b limit1 wb' wp' ltac:(lia) ltac:(lia) ltac:(lia) Hbound5)
        as IH6.
      destruct (IH6 ((b - a) / 8 <=? mid - a)%nat ap) as [Hs6 Hsorted6].
      set (l6 := GoSort.pdqsort_func less fuel l5 (mid + 1) b limit1 _ _) in *.
      split.
      * apply (swaps_trans a b l l4); [exact Hs14 |].
        apply (swaps_trans a b l4 l5); [apply (swaps_mono a mid); [exact Hs5 | lia | lia | lia] |].
        apply (swaps_mono (mid + 1) b); [exact Hs6 | lia | lia | lia].
      * assert (Emid : l6 !!! mid = pv).
        { rewrite (swaps_outside (mid + 1) b l5 l6 mid Hs6) by lia.
          apply (swaps_outside a mid l4 l5 mid Hs5). lia. }
        apply (sortedRange_pivot l6 a mid b Hmid); [| exact Hsorted6 | |].
        -- apply (sortedRange_ext less l5 l6 a mid); [exact Hsorted5 |].
           intros k Hk. apply (swaps_outside (mid + 1) b l5 l6 k Hs6). lia.
        -- intros k Hk. rewrite Emid.
           rewrite (swaps_outside (mid + 1) b l5 l6 k Hs6) by lia.
           apply (swaps_forall a mid l4 l5 (fun x => less x pv = true) Hs5 Hlo k Hk).
        -- intros k Hk. rewrite Emid.
           apply (swaps_forall (mid + 1) b l5 l6 (fun x => less x pv = false) Hs6); [| lia].
           intros k' Hk'. rewrite (swaps_outside a mid l4 l5 k' Hs5) by lia. apply Hhi. lia.
    + assert (Hbound4' : boundedBelow less l4 (mid + 1) b).
      { right. intros k Hk. replace (mid + 1 - 1)%nat with mid by lia. apply Hhi. lia. }
      destruct (IH l4 (mid + 1)%nat b limit1 true true) as [Hs5 Hsorted5];
        [lia | lia | lia | exact Hbound4' |].
      set (l5 := GoSort.pdqsort_func less fuel l4 (mid + 1) b limit1 true true) in *.
      assert (Hlen5 : length l5 = length l).
      { rewrite (swaps_length _ _ _ _ Hs5). exact Hlen4. }
      assert (Hbound5 : boundedBelow less l5 a mid).
      { apply (boundedBelow_sub less l5 a b); [| lia].
        apply (boundedBelow_swaps less l4 l5 a b); [| exact Hbound4].
        apply (swaps_mono (mid + 1) b); [exact Hs5 | lia | lia | lia]. }
      pose proof (fun wb' wp' =>
                    IH l5 a mid limit1 wb' wp' ltac:(lia) ltac:(lia) ltac:(lia) Hbound5)
        as IH6.
      destruct (IH6 ((b - a) / 8 <=? b - mid)%nat ap) as [Hs6 Hsorted6].
      set (l6 := GoSort.pdqsort_func less fuel l5 a mid limit1 _ _) in *.
      split.
      * apply (swaps_trans a b l l4); [exact Hs14 |].
        apply (swaps_trans a b l4 l5);
          [apply (swaps_mono (mid + 1) b); [exact Hs5 | lia | lia | lia] |].
        apply (swaps_mono a mid); [exact Hs6 | lia | lia | lia].
      * assert (Emid : l6 !!! mid = pv).
        { rewrite (swaps_outside a mid l5 l6 mid Hs6) by lia.
          apply (swaps_outside (mid + 1) b l4 l5 mid Hs5). lia. }
        apply (sortedRange_pivot l6 a mid b Hmid); [exact Hsorted6 | | |].
        -- apply (sortedRange_ext less l5 l6 (mid + 1) b); [exact Hsorted5 |].
           intros k Hk. apply (swaps_outside a mid l5 l6 k Hs6). lia.
        -- intros k Hk. rewrite Emid.
           apply (swaps_forall a mid l5 l6 (fun x => less x pv = true) Hs6); [| lia].
           intros k' Hk'. rewrite (swaps_outside (mid + 1) b l4 l5 k' Hs5) by lia.
           apply Hlo. lia.
        -- intros k Hk. rewrite Emid.
           rewrite (swaps_outside a mid l5 l6 k Hs6) by lia.
           apply (swaps_forall (mid + 1) b l4 l5 (fun x => less x pv = false) Hs5); [| lia].
           intros k' Hk'. apply Hhi. lia.
Qed.

(** [sort.Slice] permutes its slice into order *)
Theorem Slice_sorted l :
  Permutation l (GoSort.Slice less l) /\
  forall (i j : nat) (x y : A),
    (i < j)%nat -> GoSort.Slice less l !! i = Some x -> GoSort.Slice less l !! j = Some y ->
    less y x = false.
Proof.
  unfold GoSort.Slice. cbv zeta.
  destruct (pdqsort_func_spec (length l + 1) l 0 (length l)
              (GoSort.bits_Len (length l)) true true) as [Hsw Hsorted];
    [lia | lia | lia | now left |].
  set (l' := GoSort.pdqsort_func less _ l 0 _ _ true true) in *.
  split; [apply (swaps_Permutation _ _ _ _ Hsw) |].
  intros i j x y Hij Hi Hj.
  pose proof (lookup_lt_Some _ _ _ Hj) as Hjlen.
  rewrite (swaps_length _ _ _ _ Hsw) in Hjlen.
  rewrite <- (list_lookup_total_correct _ _ _ Hi), <- (list_lookup_total_correct _ _ _ Hj).
  apply Hsorted; lia.
Qed.

End Pdqsort.

(** ** The comparisons of the two sorts are strict weak orders *)

Section StringOrder.

Lemma ascii_compare_refl (c : ascii) : Ascii.compare c c = Eq.
Proof. unfold Ascii.compare. apply N.compare_refl. Qed.

Lemma string_compare_refl (s : string) : String.compare s s = Eq.
Proof.
  induction s as [|c s IH]; [reflexivity |]. cbn. now rewrite ascii_compare_refl.
Qed.

(** [String.compare] is a total preorder: "not greater" is transitive, and
    strict as soon as one of the two steps is *)
Lemma string_compare_trans (a : string) : forall b c : string,
  String.compare a b <> Gt -> String.compare b c <> Gt ->
  String.compare a c <> Gt /\
  (String.compare a b = Lt \/ String.compare b c = Lt -> String.compare a c = Lt).
Proof.
  induction a as [|x a IH]; intros [|y b] [|z c]; cbn; try (intuition congruence).
  unfold Ascii.compare.
  destruct (N.compare_spec (N_of_ascii x) (N_of_ascii y)) as [Exy | Lxy | Gxy];
    destruct (N.compare_spec (N_of_ascii y) (N_of_ascii z)) as [Eyz | Lyz | Gyz];
    try (intuition congruence).
  - rewrite Exy, Eyz, N.compare_refl. apply IH.
  - rewrite Exy. rewrite (proj2 (N.compare_lt_iff _ _) Lyz). intuition congruence.
  - rewrite <- Eyz. rewrite (proj2 (N.compare_lt_iff _ _) Lxy). intuition congruence.
  - rewrite (proj2 (N.compare_lt_iff _ _) (N.lt_trans _ _ _ Lxy Lyz)). intuition congruence.
Qed.

Lemma string_ltb_strictWeakOrder : strictWeakOrder String.ltb.
Proof.
  constructor.
  - intros s. unfold String.ltb. now rewrite string_compare_refl.
  - intros a b c. unfold String.ltb.
    destruct (String.compare a b) eqn:Eab; try discriminate.
    destruct (String.compare b c) eqn:Ebc; try discriminate. intros _ _.
    destruct (string_compare_trans a b c) as [_ Hlt]; [congruence | congruence |].
    rewrite Hlt; [reflexivity | now left].
  - intros a b c. unfold String.ltb. intros Hab Hbc.
    destruct (String.compare a c) eqn:Eac; try reflexivity. exfalso.
    destruct (string_compare_trans c b a) as [Hngt _].
    + rewrite String.compare_antisym. destruct (String.compare b c); cbn; congruence.
    + rewrite String.compare_antisym. destruct (String.compare a b); cbn; congruence.
    + apply Hngt. rewrite String.compare_antisym, Eac. reflexivity.
Qed.

(** the two readings of "not less" *)
Lemma string_ltb_leb (s1 s2 : string) : String.ltb s2 s1 = false <-> String.leb s1 s2 = true.
Proof.
  unfold String.ltb, String.leb. rewrite (String.compare_antisym s1 s2).
  destruct (String.compare s2 s1); cbn; intuition congruence.
Qed.

Lemma string_ltb_eq (s : string) : String.ltb s s = false.
Proof. unfold String.ltb. now rewrite string_compare_refl. Qed.

End StringOrder.

Section ContactOrders.

Context `{GoRuntime}.

Import vcard.

(** a strict weak order read through a key, in either direction *)
Lemma strictWeakOrder_key {K B : Type} (lt : K -> K -> bool) (key : B -> K) (flip : bool) :
  strictWeakOrder lt ->
  strictWeakOrder (fun x y : B => if flip then lt (key y) (key x) else lt (key x) (key y)).
Proof.
  intros [Hi Ht Hn]. destruct flip; constructor; intros; eauto.
Qed.

Lemma sortKeyLess_strictWeakOrder (reverse : bool) :
  strictWeakOrder (app.sortKeyLess reverse).
Proof.
  unfold app.sortKeyLess. cbv zeta.
  apply (strictWeakOrder_key String.ltb app.extractSortKey reverse).
  exact string_ltb_strictWeakOrder.
Qed.

(** the birthday comparison reads a contact as: absent or not, then month,
    then day *)
Lemma birthdayLess_strictWeakOrder (reverse : bool) :
  strictWeakOrder (app.birthdayLess reverse).
Proof.
  constructor; unfold app.birthdayLess; cbv zeta.
  - intros x. destruct (GoTime.IsZero (Birthday x)); cbn; [reflexivity |].
    rewrite Z.eqb_refl. cbn. destruct reverse; apply Z.ltb_irrefl.
  - intros x y z.
    destruct (GoTime.IsZero (Birthday x)), (GoTime.IsZero (Birthday y)),
      (GoTime.IsZero (Birthday z)); cbn; try congruence.
    destruct (Z.eqb_spec (GoTime.Month (Birthday x)) (GoTime.Month (Birthday y)));
      destruct (Z.eqb_spec (GoTime.Month (Birthday y)) (GoTime.Month (Birthday z)));
      destruct (Z.eqb_spec (GoTime.Month (Birthday x)) (GoTime.Month (Birthday z)));
      destruct reverse; cbn; rewrite ?Z.ltb_lt; lia.
  - intros x y z.
    destruct (GoTime.IsZero (Birthday x)), (GoTime.IsZero (Birthday y)),
      (GoTime.IsZero (Birthday z)); cbn; try congruence.
    destruct (Z.eqb_spec (GoTime.Month (Birthday x)) (GoTime.Month (Birthday y)));
      destruct (Z.eqb_spec (GoTime.Month (Birthday y)) (GoTime.Month (Birthday z)));
      destruct (Z.eqb_spec (GoTime.Month (Birthday x)) (GoTime.Month (Birthday z)));
      destruct reverse; cbn; rewrite ?Z.ltb_ge; lia.
Qed.

End ContactOrders.

(** ** Up to twelve elements [sort.Slice] is an insertion sort, which keeps
    the order of elements that are not less than one another *)

Section SmallSlices.

Context {A : Type} `{Inhabited A} `{GoRuntime} (less : A -> A -> bool).

(** a class of elements none of which is less than another *)
Variable P : A -> bool.
Hypothesis HP : forall x y, P x = true -> P y = true -> less x y = false.

Implicit Types l : list A.

Lemma Swap_cons (z : A) l (i j : nat) :
  GoSort.Swap (z :: l) (S i) (S j) = z :: GoSort.Swap l i j.
Proof. reflexivity. Qed.

Lemma Swap_adjacent_filter (j : nat) : forall l,
  (S j < length l)%nat -> less (l !!! S j) (l !!! j) = true ->
  List.filter P (GoSort.Swap l (S j) j) = List.filter P l.
Proof.
  induction j as [|j IH]; intros l Hlen Hlt.
  - destruct l as [|x [|y l2]]; cbn in Hlen; try lia.
    change (less y x = true) in Hlt.
    change (GoSort.Swap (x :: y :: l2) 1 0) with (y :: x :: l2).
    cbn [List.filter]. destruct (P x) eqn:Px, (P y) eqn:Py; try reflexivity.
    rewrite (HP y x Py Px) in Hlt. discriminate.
  - destruct l as [|z l']; cbn in Hlen; [lia |].
    rewrite Swap_cons. cbn [List.filter]. rewrite IH; [reflexivity | lia | exact Hlt].
Qed.

Lemma insertionShift_length (j : nat) : forall l (a : nat),
  length (GoSort.insertionShift less l a j) = length l.
Proof.
  induction j as [|j IH]; intros l a; cbn [GoSort.insertionShift]; [reflexivity |].
  destruct (_ && _)%bool; [| reflexivity]. now rewrite IH, Swap_length.
Qed.

Lemma insertionShift_filter (j : nat) : forall l (a : nat),
  (j < length l)%nat ->
  List.filter P (GoSort.insertionShift less l a j) = List.filter P l.
Proof.
  induction j as [|j IH]; intros l a Hlen; cbn [GoSort.insertionShift]; [reflexivity |].
  destruct (a <? S j)%nat; cbn [andb]; [| reflexivity].
  destruct (GoSort.Less less l (S j) j) eqn:Hlt; [| reflexivity].
  rewrite IH by (rewrite Swap_length; lia).
  apply Swap_adjacent_filter; [exact Hlen | exact Hlt].
Qed.

Lemma insertion_fold_filter (a : nat) (turns : list nat) : forall l,
  Forall (fun i => i < length l)%nat turns ->
  List.filter P (fold_left (fun data i => GoSort.insertionShift less data a i) turns l)
  = List.filter P l.
Proof.
  induction turns as [|i turns IH]; intros l Hall; [reflexivity |].
  apply Forall_cons in Hall as [Hi Hall]. cbn [fold_left].
  rewrite IH; [now apply insertionShift_filter |].
  now rewrite insertionShift_length.
Qed.

Lemma insertionSort_func_filter l (a b : nat) :
  (b <= length l)%nat ->
  List.filter P (GoSort.insertionSort_func less l a b) = List.filter P l.
Proof.
  intros Hb. unfold GoSort.insertionSort_func. apply insertion_fold_filter.
  apply Forall_forall. intros i Hi. apply list_elem_of_In, in_seq in Hi. lia.
Qed.

(** [sort.Slice] on at most twelve elements keeps the order within the class *)
Lemma Slice_small_stable l :
  (length l <= 12)%nat -> List.filter P (GoSort.Slice less l) = List.filter P l.
Proof.
  intros Hlen. unfold GoSort.Slice. cbv zeta. rewrite Nat.add_1_r.
  cbn [GoSort.pdqsort_func]. rewrite Nat.sub_0_r.
  destruct (Nat.leb_spec (length l) 12); [| lia].
  now apply insertionSort_func_filter.
Qed.

End SmallSlices.

(** ** The two sorts of the contact list *)

Section ContactSorts.

Context `{GoRuntime}.

Import vcard.

(** C3 (amended): [sortContacts] permutes the contacts into the order of
    their sort keys, ascending unless [reverse], descending with it.  Contacts
    with equal keys keep their encounter order as long as there are at most
    twelve contacts; from thirteen on [sort.Slice] may reorder them. *)
Theorem sortContacts_order (contacts : list Contact) (reverse : bool) :
  let sorted := app.sortContacts contacts reverse in
  Permutation contacts sorted /\
  (forall (i j : nat) (ci cj : Contact),
      (i < j)%nat -> sorted !! i = Some ci -> sorted !! j = Some cj ->
      if reverse
      then String.leb (app.extractSortKey cj) (app.extractSortKey ci) = true
      else String.leb (app.extractSortKey ci) (app.extractSortKey cj) = true) /\
  ((length contacts <= 12)%nat ->
   forall key : string, Spec.withKey key sorted = Spec.withKey key contacts).
Proof.
  cbv zeta. unfold app.sortContacts.
  destruct (Slice_sorted (app.sortKeyLess reverse) (sortKeyLess_strictWeakOrder reverse) contacts)
    as [Hperm Hsorted].
  split; [exact Hperm |]. split.
  - intros i j ci cj Hij Hi Hj. specialize (Hsorted i j ci cj Hij Hi Hj).
    unfold app.sortKeyLess in Hsorted. cbv zeta in Hsorted.
    destruct reverse; now apply string_ltb_leb.
  - intros Hlen key. unfold Spec.withKey.
    apply (Slice_small_stable (app.sortKeyLess reverse)); [| exact Hlen].
    intros x y Hx Hy. apply String.eqb_eq in Hx, Hy.
    unfold app.sortKeyLess. cbv zeta. rewrite Hx, Hy.
    destruct reverse; apply string_ltb_eq.
Qed.

Lemma birthdayLess_present (reverse : bool) (ci cj : Contact) :
  GoTime.IsZero (Birthday ci) = false -> GoTime.IsZero (Birthday cj) = false ->
  app.birthdayLess reverse ci cj
  = Spec.monthDayLess reverse
      (GoTime.Month (Birthday ci)) (GoTime.Day (Birthday ci))
      (GoTime.Month (Birthday cj)) (GoTime.Day (Birthday cj)).
Proof.
  intros Hi Hj. unfold app.birthdayLess, Spec.monthDayLess. cbv zeta. rewrite Hi, Hj. cbn.
  destruct (Z.eqb_spec (GoTime.Month (Birthday ci)) (GoTime.Month (Birthday cj))) as [E | E];
    cbn.
  - rewrite E, !Z.ltb_irrefl. now destruct reverse.
  - destruct reverse; now rewrite orb_false_r.
Qed.

(** C4: [sortContactsByBirthday] permutes the contacts so that no contact
    without birthday stands before one with a birthday, in both directions,
    and so that the contacts with a birthday follow each other by month, then
    by day on a month tie, [reverse] inverting these two comparisons only. *)
Theorem sortContactsByBirthday_order (contacts : list Contact) (reverse : bool) :
  let sorted := app.sortContactsByBirthday contacts reverse in
  Permutation contacts sorted /\
  (forall (i j : nat) (ci cj : Contact),
      (i < j)%nat -> sorted !! i = Some ci -> sorted !! j = Some cj ->
      (GoTime.IsZero (Birthday ci) = true -> GoTime.IsZero (Birthday cj) = true) /\
      (GoTime.IsZero (Birthday ci) = false -> GoTime.IsZero (Birthday cj) = false ->
       Spec.monthDayLess reverse
         (GoTime.Month (Birthday cj)) (GoTime.Day (Birthday cj))
         (GoTime.Month (Birthday ci)) (GoTime.Day (Birthday ci)) = false)) /\
  (forall ci cj : Contact,
      GoTime.IsZero (Birthday ci) = false -> GoTime.IsZero (Birthday cj) = false ->
      app.birthdayLess reverse ci cj
      = Spec.monthDayLess reverse
          (GoTime.Month (Birthday ci)) (GoTime.Day (Birthday ci))
          (GoTime.Month (Birthday cj)) (GoTime.Day (Birthday cj))) /\
  (forall present absent : Contact,
      GoTime.IsZero (Birthday present) = false -> GoTime.IsZero (Birthday absent) = true ->
      app.birthdayLess reverse present absent = true /\
      app.birthdayLess reverse absent present = false).
Proof.
  cbv zeta. unfold app.sortContactsByBirthday.
  destruct (Slice_sorted (app.birthdayLess reverse) (birthdayLess_strictWeakOrder reverse)
              contacts) as [Hperm Hsorted].
  split; [exact Hperm |]. split; [| split].
  - intros i j ci cj Hij Hi Hj. specialize (Hsorted i j ci cj Hij Hi Hj). split.
    + intros Hzi. destruct (GoTime.IsZero (Birthday cj)) eqn:Hzj; [reflexivity |].
      destruct (birthdayLess_absent_last reverse cj ci Hzj Hzi) as [Hlt _]. congruence.
    + intros Hzi Hzj. now rewrite <- birthdayLess_present.
  - apply birthdayLess_present.
  - intros present absent. apply birthdayLess_absent_last.
Qed.

End ContactSorts.

(** the amended C3 at two contacts with the key abel: they keep their
    order *)
Lemma sortContacts_order_witness :
  let contacts := [abel "Ben"; abel "Ann"] in
  (length contacts <= 12)%nat /\
  @Spec.withKey sampleRuntime "abel" (@app.sortContacts sampleRuntime contacts false)
  = @Spec.withKey sampleRuntime "abel" contacts.
Proof.
  cbv zeta. split; [cbn; lia |].
  destruct (@sortContacts_order sampleRuntime [abel "Ben"; abel "Ann"] false)
    as (_ & _ & Hstable).
  apply Hstable. cbn. lia.
Defined.

(** C4 at a contact born on January 15 and one without birthday *)
Lemma sortContactsByBirthday_order_witness :
  let born := vcard.mkContact "Bob" "" "" "" "" "" [] [] "" "" ""
                (GoTime.mkTime 1990 1 15 0 0 0 0) "b.vcf" in
  let absent := abel "Ann" in
  GoTime.IsZero (vcard.Birthday born) = false /\
  GoTime.IsZero (vcard.Birthday absent) = true /\
  app.birthdayLess false born absent = true /\
  app.birthdayLess false absent born = false.
Proof.
  cbv zeta. split; [reflexivity |]. split; [reflexivity |].
  destruct (@sortContactsByBirthday_order sampleRuntime [] false) as (_ & _ & _ & Hlast).
  apply Hlast; reflexivity.
Defined.

(** C3 as stated fails from thirteen contacts on: Ann Abel stands before Fay
    Abel in the list, both have the sort key abel, and the sort puts Fay
    first, before Ann. *)
Lemma sortContacts_unstable_thirteen :
  let sorted := @app.sortContacts sampleRuntime thirteen false in
  length thirteen = 13%nat /\
  thirteen !! 1%nat = Some (abel "Ann") /\ thirteen !! 6%nat = Some (abel "Fay") /\
  @app.extractSortKey sampleRuntime (abel "Ann") = "abel"%string /\
  @app.extractSortKey sampleRuntime (abel "Fay") = "abel"%string /\
  sorted !! 0%nat = Some (abel "Fay") /\ sorted !! 1%nat = Some (abel "Ann") /\
  @Spec.withKey sampleRuntime "abel" sorted <> @Spec.withKey sampleRuntime "abel" thirteen.
Proof.
  cbv zeta. repeat split; try (vm_compute; reflexivity).
  vm_compute. discriminate.
Qed.

(** * Further properties of the code *)

(** ** Display names *)

Section DisplayNames.

Import vcard app.

Ltac by_fields c :=
  destruct c as [n f g m p s es ps o nt ad bd fl]; cbn [Name FamilyName GivenName MiddleName
    Prefix Suffix];
  destruct f, g, m, p, s.

(** X1: with a family name or a given name the display name is built from the
    structured fields alone: the family name, then after a comma the prefix,
    given name, middle name and suffix that are set, separated by single
    spaces.  Without family and given name it is the formatted name, whatever
    prefix, middle name and suffix hold. *)
Theorem formatNameForDisplay_cases (c : Contact) :
  let given := List.filter nonEmpty [Prefix c; GivenName c; MiddleName c; Suffix c] in
  (FamilyName c <> ""%string -> given <> [] ->
   formatNameForDisplay c = (FamilyName c +:+ ", " +:+ GoStrings.Join given " ")%string) /\
  (FamilyName c <> ""%string -> given = [] -> formatNameForDisplay c = FamilyName c) /\
  (FamilyName c = ""%string -> GivenName c <> ""%string ->
   formatNameForDisplay c = GoStrings.Join given " ") /\
  (FamilyName c = ""%string -> GivenName c = ""%string -> formatNameForDisplay c = Name c).
Proof.
  by_fields c; cbv zeta; unfold formatNameForDisplay, appendNonEmpty;
    cbn [Name FamilyName GivenName MiddleName Prefix Suffix nonEmpty String.eqb negb orb
         List.filter List.app length Nat.ltb Nat.leb GoStrings.Join];
    (repeat split; intros; try congruence; try reflexivity);
    destruct n; reflexivity.
Qed.

(** X2: the display name is empty exactly when the contact has no family
    name, no given name and no formatted name. *)
Theorem formatNameForDisplay_empty_iff (c : Contact) :
  formatNameForDisplay c = ""%string <->
  FamilyName c = ""%string /\ GivenName c = ""%string /\ Name c = ""%string.
Proof.
  by_fields c; destruct n; unfold formatNameForDisplay, appendNonEmpty;
    cbn [Name FamilyName GivenName MiddleName Prefix Suffix nonEmpty String.eqb negb orb
         List.app length Nat.ltb Nat.leb GoStrings.Join String.append];
    split;
    try (intros Hd; discriminate Hd);
    try (intros (Hf & Hg & Hn); discriminate);
    intros _; repeat split; reflexivity.
Qed.

End DisplayNames.

(** ** The listings *)

Section Listings.

Context `{GoRuntime}.

Import vcard app.

Lemma write_stdout_nil (w : World) : write w toStdout "" = w.
Proof. destruct w; cbn. now rewrite append_nil_r. Qed.

Lemma write_stdout_app (w : World) (s t : string) :
  write (write w toStdout s) toStdout t = write w toStdout (s +:+ t).
Proof. cbn. now rewrite append_assoc. Qed.

Lemma textOf_app (xs ys : list string) : textOf (xs ++ ys) = (textOf xs +:+ textOf ys)%string.
Proof.
  induction xs as [|x xs IH]; [reflexivity |].
  cbn [List.app textOf foldr]. fold (textOf (xs ++ ys)) (textOf xs).
  now rewrite IH, !append_assoc.
Qed.

(** printing line after line prints the text of the lines *)
Lemma fold_print {X : Type} (step line : X -> string) (xs : list X) (w : World) :
  (forall x, step x = (line x +:+ newline)%string) ->
  fold_left (fun w x => write w toStdout (step x)) xs w
  = write w toStdout (textOf (map line xs)).
Proof.
  intros Hstep. revert w. induction xs as [|x xs IH]; intros w.
  - cbn [fold_left map]. unfold textOf. cbn [foldr]. now rewrite write_stdout_nil.
  - cbn [fold_left map]. rewrite IH, write_stdout_app, Hstep.
    cbn [textOf foldr]. now rewrite append_assoc.
Qed.

Lemma fold_print_nested {X Y : Type} (items : X -> list Y) (step line : X -> Y -> string)
  (xs : list X) (w : World) :
  (forall x y, step x y = (line x y +:+ newline)%string) ->
  fold_left (fun w x => fold_left (fun w y => write w toStdout (step x y)) (items x) w) xs w
  = write w toStdout (textOf (flat_map (fun x => map (line x) (items x)) xs)).
Proof.
  intros Hstep. revert w. induction xs as [|x xs IH]; intros w.
  - cbn [fold_left flat_map]. unfold textOf. cbn [foldr]. now rewrite write_stdout_nil.
  - cbn [fold_left flat_map].
    rewrite IH, (fold_print (step x) (line x)), write_stdout_app, textOf_app by apply Hstep.
    reflexivity.
Qed.

Lemma fold_snoc {X : Type} (f : X -> string) (xs : list X) (parts : list string) :
  fold_left (fun parts x => parts ++ [f x]) xs parts = parts ++ map f xs.
Proof.
  revert parts. induction xs as [|x xs IH]; intros parts; cbn.
  - now rewrite app_nil_r.
  - now rewrite IH, <- app_assoc.
Qed.

(** X3: the parts of a contact line are the display name, one part per email
    and one per phone, each with its lowercased type (email and phone when
    none is set), and in long format the organization, note and address that
    are set.  The short format never shows organization, note or address. *)
Theorem buildContactParts_shape (c : Contact) (long : bool) :
  buildContactParts c long
  = [formatNameForDisplay c]
    ++ map (fun e => formatEntryType (EmailType e) "email" +:+ ": " +:+ EmailValue e)%string
         (Emails c)
    ++ map (fun p => formatEntryType (PhoneType p) "phone" +:+ ": " +:+ PhoneValue p)%string
         (Phones c)
    ++ (if long
        then map (String.append "org: ") (Spec.present (Organization c))
             ++ map (String.append "note: ") (Spec.present (Note c))
             ++ map (String.append "address: ") (Spec.present (Address c))
        else []).
Proof.
  unfold buildContactParts. cbv zeta. rewrite !fold_snoc.
  unfold defaultEmailType, defaultPhoneType, Spec.present.
  destruct long; [| now rewrite app_nil_r, <- app_assoc].
  rewrite <- !(nonEmpty_decide _ (list string)).
  destruct (nonEmpty (Organization c)), (nonEmpty (Note c)), (nonEmpty (Address c));
    cbn [map List.app]; rewrite <- ?app_assoc; cbn [List.app]; rewrite ?app_nil_r;
    reflexivity.
Qed.

Lemma loadAndFilterContacts_keeps (a : App) (w : World) (filter : list string) :
  let w1 := fst (fst (loadAndFilterContacts a w filter)) in
  files w1 = files w /\ stdout w1 = stdout w /\ books w1 = books w /\
  createFails w1 = createFails w.
Proof.
  unfold loadAndFilterContacts.
  destruct (LoadContacts _ _ _) as [[cs [e|]] l]; cbn; [easy |].
  destruct (length filter =? 0)%nat; cbn; easy.
Qed.

(** X4: [ListContacts] fails exactly when the contacts cannot be loaded, and
    then prints nothing.  Otherwise it prints [No contacts found] when no
    contact matches the filter, and else one line per matching contact, in
    the order of [sortContacts], the parts of the contact joined by tabs.  It
    never touches a file. *)
Theorem ListContacts_output (a : App) (w : World) (long reverse : bool)
  (filter : list string) :
  let '(w0, matched, loadErr) := loadAndFilterContacts a w filter in
  let '(w1, err) := ListContacts a w long reverse filter in
  err = loadErr /\ files w1 = files w /\
  stdout w1 =
    (stdout w +:+
     match loadErr with
     | Some _ => ""
     | None =>
         if decide (matched = []) then textOf ["No contacts found"]
         else textOf (map (fun c => GoStrings.Join (buildContactParts c long) tab)
                        (sortContacts matched reverse))
     end)%string.
Proof.
  unfold ListContacts.
  pose proof (loadAndFilterContacts_keeps a w filter) as Hk.
  destruct (loadAndFilterContacts a w filter) as [[w0 matched] [e|]]; cbn in Hk;
    destruct Hk as (Hf & Hs & _ & _).
  - rewrite append_nil_r. repeat split; assumption.
  - destruct matched as [|c matched].
    + cbn [length Nat.eqb]. rewrite decide_True by reflexivity. unfold Println.
      cbn [write stdout files books createFails wlog textOf foldr]. rewrite ?Hf, ?Hs.
      repeat split; reflexivity.
    + cbn [length Nat.eqb]. rewrite decide_False by discriminate.
      unfold Println.
      rewrite (fold_print _ (fun c => GoStrings.Join (buildContactParts c long) tab))
        by reflexivity.
      cbn [write stdout files books createFails wlog]. rewrite ?Hf, ?Hs. repeat split; reflexivity.
Qed.

(** X5: [ListEmails] fails exactly when the contacts cannot be loaded.
    Otherwise it prints one line per email of every matching contact, in the
    order of [sortContacts]: in parsable form the email, the formatted name
    and the type, separated by tabs and without header, so nothing at all
    when no contact has an email; in standard form, after the header line,
    the display name, a tab, then type and email. *)
Theorem ListEmails_output (a : App) (w : World) (parsable reverse : bool)
  (filter : list string) :
  let '(w0, matched, loadErr) := loadAndFilterContacts a w filter in
  let '(w1, err) := ListEmails a w parsable reverse filter in
  let kind e := formatEntryType (EmailType e) "email" in
  err = loadErr /\ files w1 = files w /\
  stdout w1 =
    (stdout w +:+
     match loadErr with
     | Some _ => ""
     | None =>
         if parsable then
           textOf (flat_map (fun c => map (fun e => EmailValue e +:+ tab +:+ Name c +:+ tab
                                                    +:+ kind e) (Emails c))
                     (sortContacts matched reverse))
         else
           textOf (("Name" +:+ tab +:+ "Email")
                   :: flat_map (fun c => map (fun e => formatNameForDisplay c +:+ tab
                                                       +:+ kind e +:+ ": " +:+ EmailValue e)
                                           (Emails c))
                        (sortContacts matched reverse))
     end)%string.
Proof.
  unfold ListEmails.
  pose proof (loadAndFilterContacts_keeps a w filter) as Hk.
  destruct (loadAndFilterContacts a w filter) as [[w0 matched] [e|]]; cbn in Hk;
    destruct Hk as (Hf & Hs & _ & _).
  - rewrite append_nil_r. repeat split; assumption.
  - cbv zeta. unfold defaultEmailType, Println. destruct parsable.
    + rewrite (fold_print_nested Emails _
                 (fun c e => EmailValue e +:+ tab +:+ Name c +:+ tab
                             +:+ formatEntryType (EmailType e) "email")%string)
        by (intros; now rewrite !append_assoc).
      cbn [write stdout files books createFails wlog]. rewrite ?Hf, ?Hs. repeat split; reflexivity.
    + rewrite (fold_print_nested Emails _
                 (fun c e => formatNameForDisplay c +:+ tab
                             +:+ formatEntryType (EmailType e) "email" +:+ ": "
                             +:+ EmailValue e)%string)
        by (intros; now rewrite !append_assoc).
      rewrite write_stdout_app. cbn [write stdout files books createFails wlog]. rewrite ?Hf, ?Hs. repeat split; reflexivity.
Qed.

(** X6: [ListPhones] fails exactly when the contacts cannot be loaded.
    Otherwise it prints the header line and then one line per phone of every
    matching contact, in the order of [sortContacts]: the display name, a
    tab, then type and number.  A contact without phone has no line. *)
Theorem ListPhones_output (a : App) (w : World) (reverse : bool) (filter : list string) :
  let '(w0, matched, loadErr) := loadAndFilterContacts a w filter in
  let '(w1, err) := ListPhones a w reverse filter in
  err = loadErr /\ files w1 = files w /\
  stdout w1 =
    (stdout w +:+
     match loadErr with
     | Some _ => ""
     | None =>
         textOf (("Name" +:+ tab +:+ "Phone")
                 :: flat_map (fun c => map (fun p => formatNameForDisplay c +:+ tab
                                                     +:+ formatEntryType (PhoneType p) "phone"
                                                     +:+ ": " +:+ PhoneValue p)
                                         (Phones c))
                      (sortContacts matched reverse))
     end)%string.
Proof.
  unfold ListPhones.
  pose proof (loadAndFilterContacts_keeps a w filter) as Hk.
  destruct (loadAndFilterContacts a w filter) as [[w0 matched] [e|]]; cbn in Hk;
    destruct Hk as (Hf & Hs & _ & _).
  - rewrite append_nil_r. repeat split; assumption.
  - cbv zeta. unfold defaultPhoneType, Println.
    rewrite (fold_print_nested Phones _
               (fun c p => formatNameForDisplay c +:+ tab
                           +:+ formatEntryType (PhoneType p) "phone" +:+ ": "
                           +:+ PhoneValue p)%string)
      by (intros; now rewrite !append_assoc).
    rewrite write_stdout_app. cbn [write stdout files books createFails wlog]. rewrite ?Hf, ?Hs. repeat split; reflexivity.
Qed.

End Listings.
(** X1 at a contact with family name, given name and prefix *)
Lemma formatNameForDisplay_cases_witness :
  let c := vcard.mkContact "Ann Abel" "Abel" "Ann" "" "Dr." "" [] [] "" "" ""
             GoTime.zeroTime "a.vcf" in
  vcard.FamilyName c <> ""%string /\
  List.filter vcard.nonEmpty
    [vcard.Prefix c; vcard.GivenName c; vcard.MiddleName c; vcard.Suffix c] <> [] /\
  app.formatNameForDisplay c = "Abel, Dr. Ann"%string.
Proof.
  cbv zeta. split; [discriminate |]. split; [discriminate |].
  destruct (formatNameForDisplay_cases
              (vcard.mkContact "Ann Abel" "Abel" "Ann" "" "Dr." "" [] [] "" "" ""
                 GoTime.zeroTime "a.vcf")) as (Hfull & _).
  rewrite Hfull; [reflexivity | discriminate | discriminate].
Defined.

(** ** The birthday listing *)

Section BirthdayListing.

Context `{GoRuntime}.

Import vcard app.

(** X7: [GetBirthdayContacts] fails exactly when the contacts cannot be
    loaded.  Otherwise it returns the matching contacts that have a birthday
    and only those, each as often as it was loaded, ordered by month and then
    day, [reverse] inverting the order. *)
Theorem GetBirthdayContacts_spec (a : App) (w : World) (reverse : bool)
  (filter : list string) :
  let '(w0, matched, loadErr) := loadAndFilterContacts a w filter in
  let '(w1, found, err) := GetBirthdayContacts a w reverse filter in
  err = loadErr /\ w1 = w0 /\
  match loadErr with
  | Some _ => found = []
  | None =>
      Permutation
        (List.filter (fun c => negb (GoTime.IsZero (Birthday c))) matched) found /\
      Forall (fun c => GoTime.IsZero (Birthday c) = false) found /\
      forall (i j : nat) (ci cj : Contact),
        (i < j)%nat -> found !! i = Some ci -> found !! j = Some cj ->
        Spec.monthDayLess reverse
          (GoTime.Month (Birthday cj)) (GoTime.Day (Birthday cj))
          (GoTime.Month (Birthday ci)) (GoTime.Day (Birthday ci)) = false
  end.
Proof.
  unfold GetBirthdayContacts.
  destruct (loadAndFilterContacts a w filter) as [[w0 matched] [e|]]; [repeat split; reflexivity |].
  cbv zeta. unfold sortContactsByBirthday.
  set (born := List.filter _ matched).
  destruct (Slice_sorted (birthdayLess reverse) (birthdayLess_strictWeakOrder reverse) born)
    as [Hperm Hsorted].
  assert (Hall : Forall (fun c => GoTime.IsZero (Birthday c) = false)
                   (GoSort.Slice (birthdayLess reverse) born)).
  { apply (Permutation_Forall Hperm). apply List.Forall_forall. intros c Hc.
    apply List.filter_In in Hc as [_ Hc]. now apply negb_true_iff in Hc. }
  repeat split; [exact Hperm | exact Hall |].
  intros i j ci cj Hij Hi Hj.
  rewrite List.Forall_forall in Hall.
  rewrite <- birthdayLess_present.
  - now apply (Hsorted i j).
  - apply Hall. apply list_elem_of_In. eapply list_elem_of_lookup_2, Hj.
  - apply Hall. apply list_elem_of_In. eapply list_elem_of_lookup_2, Hi.
Qed.

Lemma GetBirthdayContacts_present (a : App) (w : World) (reverse : bool)
  (filter : list string) :
  Forall (fun c => GoTime.IsZero (Birthday c) = false)
    (snd (fst (GetBirthdayContacts a w reverse filter))).
Proof.
  unfold GetBirthdayContacts.
  destruct (loadAndFilterContacts a w filter) as [[w0 matched] [e|]]; [constructor |].
  cbv zeta. cbn [fst snd]. unfold sortContactsByBirthday.
  set (born := List.filter _ matched).
  destruct (Slice_sorted (birthdayLess reverse) (birthdayLess_strictWeakOrder reverse) born)
    as [Hperm _].
  apply (Permutation_Forall Hperm). apply List.Forall_forall. intros c Hc.
  apply List.filter_In in Hc as [_ Hc]. now apply negb_true_iff in Hc.
Qed.

Lemma GetBirthdayContacts_keeps (a : App) (w : World) (reverse : bool)
  (filter : list string) :
  let w1 := fst (fst (GetBirthdayContacts a w reverse filter)) in
  files w1 = files w /\ stdout w1 = stdout w.
Proof.
  unfold GetBirthdayContacts.
  pose proof (loadAndFilterContacts_keeps a w filter) as Hk.
  destruct (loadAndFilterContacts a w filter) as [[w0 matched] [e|]]; cbn [fst snd] in Hk |- *; tauto.
Qed.

(** X8: [PrintBirthdays] (and [ListBirthdays], which calls it) fails exactly
    when the contacts cannot be loaded.  Otherwise it prints
    [No contacts with birthdays found] when [GetBirthdayContacts] finds
    none, and else the header and one line per contact found: the display
    name, a tab and the birthday as [FormatBirthdayForDisplay] shows it,
    which is never empty. *)
Theorem PrintBirthdays_output (a : App) (w : World) (reverse : bool)
  (filter : list string) :
  let '(w0, found, loadErr) := GetBirthdayContacts a w reverse filter in
  let '(w1, err) := ListBirthdays a w reverse filter in
  err = loadErr /\ files w1 = files w /\
  stdout w1 =
    (stdout w +:+
     match loadErr with
     | Some _ => ""
     | None =>
         if decide (found = []) then textOf ["No contacts with birthdays found"]
         else textOf (("Name" +:+ tab +:+ "Birthday")
                      :: map (fun c => formatNameForDisplay c +:+ tab +:+
                                       FormatBirthdayForDisplay (Birthday c)) found)
     end)%string /\
  Forall (fun c => FormatBirthdayForDisplay (Birthday c) <> ""%string) found.
Proof.
  unfold ListBirthdays, PrintBirthdays.
  pose proof (GetBirthdayContacts_keeps a w reverse filter) as Hk.
  pose proof (GetBirthdayContacts_present a w reverse filter) as Hp.
  destruct (GetBirthdayContacts a w reverse filter) as [[w0 found] [e|]]; cbn in Hk, Hp;
    destruct Hk as (Hf & Hs).
  - rewrite append_nil_r. repeat split; try assumption.
    eapply Forall_impl; [exact Hp |]. intros c. apply FormatBirthdayForDisplay_present.
  - assert (Hshown : Forall (fun c => FormatBirthdayForDisplay (Birthday c) <> ""%string) found).
    { eapply Forall_impl; [exact Hp |]. intros c. apply FormatBirthdayForDisplay_present. }
    destruct found as [|c found].
    + cbn [length Nat.eqb]. rewrite decide_True by reflexivity. unfold Println.
      cbn [write stdout files]. rewrite Hf, Hs. repeat split; try reflexivity; exact Hshown.
    + cbn [length Nat.eqb]. rewrite decide_False by discriminate.
      unfold Println.
      rewrite (fold_print _ (fun c => formatNameForDisplay c +:+ tab +:+
                                      FormatBirthdayForDisplay (Birthday c))%string)
        by (intros; now rewrite !append_assoc).
      rewrite write_stdout_app. cbn [write stdout files]. rewrite Hf, Hs. repeat split; try reflexivity; exact Hshown.
Qed.

End BirthdayListing.

(** ** Export: what is written where *)

Section ExportWrites.

Context `{GoRuntime} `{GoEncoders}.

Import vcard app.

(** a writer leaves the file at [p] alone: it is standard output or another
    file *)
Lemma write_other (w : World) (writer : Writer) (text p : string) :
  writer <> toFile p -> files (write w writer text) !! p = files w !! p.
Proof.
  intros Hw. destruct writer as [|path]; [reflexivity |].
  cbn. apply lookup_alter_ne. congruence.
Qed.

Lemma writeRows_other (comma : ascii) (rows : list (list string)) (writer : Writer)
  (what p : string) : forall w : World,
  writer <> toFile p ->
  files (fst (writeRows comma rows w writer what)) !! p = files w !! p.
Proof.
  induction rows as [|row rows IH]; intros w Hw; [reflexivity |].
  cbn [writeRows]. destruct (csv_Write comma row) as [line|]; [| reflexivity].
  rewrite IH by exact Hw. now apply write_other.
Qed.

Lemma exportSwitch_other (w : World) (writer : Writer) (contacts : list Contact)
  (format delimiter p : string) :
  writer <> toFile p ->
  files (fst (exportSwitch w writer contacts format delimiter)) !! p = files w !! p.
Proof.
  intros Hw. unfold exportSwitch, exportCSV, exportJSON.
  destruct (String.eqb format "csv").
  - cbv zeta.
    pose proof (writeRows_other
                  match delimiter with String c _ => c | EmptyString => ","%char end
                  [["Name"; "Emails"; "Phones"; "Organization"; "Note"; "Address"]%string]
                  writer "failed to write CSV header" p w Hw) as Hhead.
    destruct (writeRows _ [_] w writer _) as [w1 [e|]]; cbn [fst] in Hhead |- *;
      [exact Hhead |].
    rewrite writeRows_other by exact Hw. exact Hhead.
  - destruct (String.eqb format "json"); [| reflexivity].
    destruct (json_Encode contacts) as [text|]; [| reflexivity].
    now apply write_other.
Qed.

(** X9: [ExportContacts] never changes a file that exists: whatever the
    format, the output path and the outcome, every file keeps its content. *)
Theorem ExportContacts_keeps_existing (a : App) (w : World)
  (format delimiter output : string) (filter : list string) (p text : string) :
  files w !! p = Some text ->
  files (fst (ExportContacts a w format delimiter output filter)) !! p = Some text.
Proof.
  intros Hp. unfold ExportContacts.
  pose proof (loadAndFilterContacts_world a w filter) as (Hb & Hf & Hc & Hs).
  destruct (loadAndFilterContacts a w filter) as [[w1 contacts] [e|]]; cbn in Hb, Hf, Hc, Hs.
  - cbn. now rewrite Hf.
  - destruct (nonEmpty output).
    + destruct (files w1 !! output) as [old|] eqn:Hout; [cbn; now rewrite Hf |].
      destruct (createFails w1 !! output) as [err|]; [cbn; now rewrite Hf |].
      assert (Hne : output <> p) by (intros ->; rewrite Hf in Hout; congruence).
      rewrite exportSwitch_other by congruence.
      cbn. rewrite lookup_insert_ne by exact Hne. now rewrite Hf.
    + rewrite exportSwitch_other by discriminate. now rewrite Hf.
Qed.

(** X10: when the output path names a file that exists, [ExportContacts]
    fails, with [output file already exists] if the contacts could be loaded,
    and changes neither the files nor standard output. *)
Theorem ExportContacts_output_exists (a : App) (w : World)
  (format delimiter output : string) (filter : list string) (old : string) :
  output <> ""%string ->
  files w !! output = Some old ->
  let r := ExportContacts a w format delimiter output filter in
  snd r <> None /\
  (snd (loadAndFilterContacts a w filter) = None ->
   snd r = Some ("output file already exists: " +:+ output)%string) /\
  files (fst r) = files w /\ stdout (fst r) = stdout w.
Proof.
  intros Hout Hold. cbv zeta. unfold ExportContacts.
  pose proof (loadAndFilterContacts_world a w filter) as (Hb & Hf & Hc & Hs).
  destruct (loadAndFilterContacts a w filter) as [[w1 contacts] [e|]]; cbn in Hb, Hf, Hc, Hs.
  - cbn. repeat split; [discriminate | discriminate | exact Hf | exact Hs].
  - apply nonEmpty_true in Hout. rewrite Hout, Hf, Hold. cbn.
    repeat split; [discriminate | exact Hf | exact Hs].
Qed.

Lemma writeRows_all (comma : ascii) (what : string) (writer : Writer)
  (rows : list (list string)) (lines : list string) : forall w : World,
  Forall2 (fun row line => csv_Write comma row = Some line) rows lines ->
  writeRows comma rows w writer what
  = (fold_left (fun w line => write w writer line) lines w, None).
Proof.
  intros w Hall. revert w. induction Hall as [|row line rows lines Hrow _ IH]; intros w.
  - reflexivity.
  - cbn [writeRows fold_left]. rewrite Hrow. apply IH.
Qed.

(** X11: [exportCSV] writes the header row and then one row per contact, in
    the order of the contacts: name, emails, phones, organization, note and
    address.  The separator is the first byte of the delimiter, a comma when
    the delimiter is empty.  When the encoder accepts every row, all the
    lines reach the writer in that order and the export succeeds. *)
Theorem exportCSV_rows (w : World) (writer : Writer) (contacts : list Contact)
  (delimiter : string) (lines : list string) :
  let comma := match delimiter with String c _ => c | EmptyString => ","%char end in
  let rows :=
    ["Name"; "Emails"; "Phones"; "Organization"; "Note"; "Address"]%string
    :: map (fun c => [Name c; formatEmailsForExport (Emails c);
                      formatPhonesForExport (Phones c); Organization c; Note c; Address c])
         contacts in
  Forall2 (fun row line => csv_Write comma row = Some line) rows lines ->
  exportCSV w writer contacts delimiter
  = (fold_left (fun w line => write w writer line) lines w, None).
Proof.
  cbv zeta. intros Hall. inversion Hall as [|row line rows lines' Hhead Hrest]; subst.
  unfold exportCSV. cbv zeta. cbn [writeRows]. rewrite Hhead.
  cbn [fold_left]. now apply writeRows_all.
Qed.

End ExportWrites.

(** X9 at an export to [out.csv] beside the file [old.csv] *)
Lemma ExportContacts_keeps_existing_witness :
  let w := app.mkWorld ∅ {[ "old.csv"%string := "kept"%string ]} ∅ "" [] in
  app.files w !! "old.csv"%string = Some "kept"%string /\
  app.files (fst (@app.ExportContacts sampleRuntime sampleEncoders (app.mkApp []) w
                    "csv" "," "out.csv" [])) !! "old.csv"%string = Some "kept"%string.
Proof.
  cbv zeta. split; [reflexivity |].
  apply (@ExportContacts_keeps_existing sampleRuntime sampleEncoders). reflexivity.
Defined.

(** X10 at an export onto the file [old.csv] *)
Lemma ExportContacts_output_exists_witness :
  let w := app.mkWorld ∅ {[ "old.csv"%string := "kept"%string ]} ∅ "" [] in
  let r := @app.ExportContacts sampleRuntime sampleEncoders (app.mkApp []) w
             "csv" "," "old.csv" [] in
  snd r = Some "output file already exists: old.csv"%string /\
  app.files (fst r) = app.files w /\ app.stdout (fst r) = app.stdout w.
Proof.
  pose proof (@ExportContacts_output_exists sampleRuntime sampleEncoders (app.mkApp [])
                (app.mkWorld ∅ {[ "old.csv"%string := "kept"%string ]} ∅ "" [])
                "csv" "," "old.csv" [] "kept") as Hx.
  cbv zeta in Hx |- *.
  destruct Hx as (_ & Herr & Hfiles & Hout); [discriminate | reflexivity |].
  split; [apply Herr; reflexivity |]. split; [exact Hfiles | exact Hout].
Defined.

(** X11 at a contact with one email, written to standard output *)
Lemma exportCSV_rows_witness :
  let c := vcard.mkContact "Ann Abel" "Abel" "Ann" "" "" ""
             [vcard.mkEmail "ann@example.org" "HOME"] [] "" "" "" GoTime.zeroTime "a.vcf" in
  app.stdout (fst (@app.exportCSV sampleRuntime sampleEncoders emptyWorld app.toStdout
                     [c] ";"))
  = ("Name;Emails;Phones;Organization;Note;Address" +:+ String "010" ""
     +:+ "Ann Abel;ann@example.org (home);;;;" +:+ String "010" "")%string.
Proof.
  cbv zeta.
  rewrite (@exportCSV_rows sampleRuntime sampleEncoders emptyWorld app.toStdout _ ";"
             [("Name;Emails;Phones;Organization;Note;Address" +:+ String "010" "")%string;
              ("Ann Abel;ann@example.org (home);;;;" +:+ String "010" "")%string]).
  - reflexivity.
  - repeat constructor.
Defined.

(** ** Splitting and joining on a byte *)

Section SplitJoin.

Import GoStrings.

Variable sep : ascii.

Lemma Contains_byte_cons (c : ascii) (s : string) :
  Contains (String c s) (String sep "") = Ascii.eqb c sep || Contains s (String sep "").
Proof. cbn [Contains HasPrefix]. now rewrite andb_true_r. Qed.

Lemma cutByte_none (p : string) :
  Contains p (String sep "") = false -> cutByte sep p = (p, None).
Proof.
  induction p as [|c p IH]; [reflexivity |].
  rewrite Contains_byte_cons. intros Hc. apply orb_false_iff in Hc as [Hc Hp].
  cbn [cutByte]. now rewrite Hc, IH.
Qed.

Lemma cutByte_some (p rest : string) :
  Contains p (String sep "") = false ->
  cutByte sep (p +:+ String sep rest) = (p, Some rest).
Proof.
  induction p as [|c p IH].
  - intros _. cbn. now rewrite Ascii.eqb_refl.
  - rewrite Contains_byte_cons. intros Hc. apply orb_false_iff in Hc as [Hc Hp].
    cbn [String.append cutByte]. now rewrite Hc, IH.
Qed.

Lemma length_append (s t : string) :
  String.length (s +:+ t) = (String.length s + String.length t)%nat.
Proof. induction s as [|c s IH]; cbn; [reflexivity | now rewrite IH]. Qed.

Lemma length_Join (parts : list string) :
  (length parts <= S (String.length (Join parts (String sep ""))))%nat.
Proof.
  induction parts as [|p [|q parts] IH]; cbn [Join length] in *; [lia | lia |].
  rewrite !length_append. cbn [String.length]. lia.
Qed.

Lemma splitByte_fuel_Join (parts : list string) : forall fuel : nat,
  parts <> [] ->
  Forall (fun p => Contains p (String sep "") = false) parts ->
  (length parts <= S fuel)%nat ->
  splitByte_fuel fuel sep (Join parts (String sep "")) = parts.
Proof.
  induction parts as [|p [|q parts] IH]; intros fuel Hne Hclean Hfuel; [contradiction | |].
  - cbn [Join]. destruct fuel; [reflexivity |].
    cbn [splitByte_fuel]. rewrite cutByte_none; [reflexivity |].
    now inversion Hclean.
  - destruct fuel as [|fuel]; [cbn in Hfuel; lia |].
    inversion Hclean as [|? ? Hp Hrest]; subst.
    change (Join (p :: q :: parts) (String sep ""))
      with (p +:+ String sep (Join (q :: parts) (String sep "")))%string.
    cbn [splitByte_fuel]. rewrite cutByte_some by exact Hp. f_equal.
    apply IH; [discriminate | exact Hrest | cbn in Hfuel |- *; lia].
Qed.

(** splitting what was joined gives the pieces back, when no piece holds the
    separator *)
Lemma Split_Join (parts : list string) :
  parts <> [] ->
  Forall (fun p => Contains p (String sep "") = false) parts ->
  Split (Join parts (String sep "")) sep = parts.
Proof.
  intros Hne Hclean. unfold Split. apply splitByte_fuel_Join; [exact Hne | exact Hclean |].
  apply length_Join.
Qed.

End SplitJoin.

(** ** Addresses, entry types and structured names *)

Section CardFields.

Context `{GoRuntime}.

Import GoVCard vcard.

Lemma lookup_components {X : Type} (l : list X) :
  omap (fun i => l !! i) [2; 3; 4; 5; 6]%nat = take 5 (drop 2 l).
Proof.
  destruct l as [|x0 [|x1 [|x2 [|x3 [|x4 [|x5 [|x6 l]]]]]]]; reflexivity.
Qed.

Lemma filter_present (l : list string) :
  filter (fun p => nonEmpty p = true) l = flat_map Spec.present l.
Proof.
  induction l as [|p l IH]; [reflexivity |].
  cbn [flat_map]. rewrite <- IH. unfold Spec.present.
  destruct (decide (p <> ""%string)) as [Hq | Hq].
  - rewrite filter_cons_True by now apply nonEmpty_true. reflexivity.
  - rewrite filter_cons_False; [reflexivity |]. intros Hp. apply Hq. now apply nonEmpty_true.
Qed.

(** X12: of an address given as semicolon-separated components,
    [formatAddress] keeps the third to the seventh (street, locality, region,
    postal code, country), drops those that are empty and joins the rest with
    a comma and a space.  The post-office box and the extended address never
    show, and an address of fewer than three components, such as plain text
    without semicolon, gives the empty string. *)
Theorem formatAddress_components (parts : list string) :
  parts <> [] ->
  Forall (fun p => GoStrings.Contains p ";" = false) parts ->
  formatAddress (GoStrings.Join parts ";")
  = GoStrings.Join (flat_map Spec.present (take 5 (drop 2 parts))) ", " /\
  ((length parts <= 2)%nat -> formatAddress (GoStrings.Join parts ";") = ""%string).
Proof.
  intros Hne Hclean.
  assert (Hfmt : formatAddress (GoStrings.Join parts ";")
                 = GoStrings.Join (flat_map Spec.present (take 5 (drop 2 parts))) ", ").
  { unfold formatAddress. cbv zeta. rewrite (Split_Join ";"%char) by assumption.
    now rewrite lookup_components, filter_present. }
  split; [exact Hfmt |].
  intros Hlen. rewrite Hfmt. rewrite drop_ge by exact Hlen. reflexivity.
Qed.

(** X13: the structured name [Family;Given;Additional;Prefix;Suffix] of a
    card fills the family name, given name, middle name, prefix and suffix of
    the contact from its components in that order; a component that is
    missing leaves its field empty, and components past the fifth are
    ignored.  The contact carries the path of its file. *)
Theorem contactOfCard_structured_name (filePath : string) (card : Card)
  (nameField : Field) (parts : list string) :
  Get card FieldName = Some nameField ->
  Value nameField = GoStrings.Join parts ";" ->
  parts <> [] ->
  Forall (fun p => GoStrings.Contains p ";" = false) parts ->
  let c := contactOfCard filePath card in
  FamilyName c = default ""%string (parts !! 0%nat) /\
  GivenName c = default ""%string (parts !! 1%nat) /\
  MiddleName c = default ""%string (parts !! 2%nat) /\
  Prefix c = default ""%string (parts !! 3%nat) /\
  Suffix c = default ""%string (parts !! 4%nat) /\
  FileName c = filePath.
Proof.
  intros Hget Hvalue Hne Hclean. cbv zeta. unfold contactOfCard. cbv zeta.
  cbn [FamilyName GivenName MiddleName Prefix Suffix FileName].
  rewrite Hget, Hvalue, (Split_Join ";"%char) by assumption.
  unfold part. repeat split; now destruct (parts !! _).
Qed.

(** X14: the type of an email or phone entry is the uppercased first value of
    its TYPE parameter when that parameter has a value; otherwise it is the
    uppercased name of a parameter that reads HOME, WORK, CELL, FAX, PAGER,
    VOICE or MSG in upper case, and empty when there is none. *)
Theorem getFieldType_values (params : list (string * list string)) :
  match List.find (fun kv => String.eqb (fst kv) "TYPE") params with
  | Some (_, t :: _) => getFieldType params = GoStrings.ToUpper t
  | _ =>
      getFieldType params = ""%string /\
      Forall (fun kv => ~ In (GoStrings.ToUpper (fst kv)) legacyTypes) params
      \/
      In (getFieldType params) legacyTypes /\
      exists kv, In kv params /\ getFieldType params = GoStrings.ToUpper (fst kv)
  end.
Proof.
  unfold getFieldType.
  set (typed := List.find (fun kv => String.eqb (fst kv) "TYPE") params).
  assert (Hlegacy :
    match List.find
            (fun kv => existsb (String.eqb (GoStrings.ToUpper (fst kv))) legacyTypes)
            params with
    | Some (param, _) => GoStrings.ToUpper param
    | None => ""%string
    end = ""%string /\
    Forall (fun kv => ~ In (GoStrings.ToUpper (fst kv)) legacyTypes) params
    \/
    In match List.find
            (fun kv => existsb (String.eqb (GoStrings.ToUpper (fst kv))) legacyTypes)
            params with
       | Some (param, _) => GoStrings.ToUpper param
       | None => ""%string
       end legacyTypes /\
    exists kv, In kv params /\
      match List.find
              (fun kv => existsb (String.eqb (GoStrings.ToUpper (fst kv))) legacyTypes)
              params with
      | Some (param, _) => GoStrings.ToUpper param
      | None => ""%string
      end = GoStrings.ToUpper (fst kv)).
  { clear typed.
    destruct (List.find
                (fun kv => existsb (String.eqb (GoStrings.ToUpper (fst kv))) legacyTypes)
                params) as [[param vs]|] eqn:Hfind.
    - right. apply List.find_some in Hfind as [Hin Hex]. cbn [fst] in Hex.
      apply List.existsb_exists in Hex as (x & Hx & Heq). apply String.eqb_eq in Heq.
      split; [now rewrite Heq | now exists (param, vs)].
    - left. split; [reflexivity |]. apply List.Forall_forall. intros kv Hin Hleg.
      pose proof (List.find_none _ _ Hfind kv Hin) as Hno. cbv beta in Hno.
      assert (Hyes : existsb (String.eqb (GoStrings.ToUpper (fst kv))) legacyTypes = true).
      { apply List.existsb_exists. exists (GoStrings.ToUpper (fst kv)).
        split; [exact Hleg | apply String.eqb_refl]. }
      congruence. }
  destruct typed as [[k [|t ts]]|]; [exact Hlegacy | reflexivity | exact Hlegacy].
Qed.

(** X15: [processVCardFile] only appends: the contacts collected so far stay
    in place, followed by one contact per card decoded from the file, in the
    order of the cards, each carrying the path of the file; this also holds
    when the decoding then fails.  It reports no error exactly when the file
    opens, decodes to its end and holds at least one card. *)
Theorem processVCardFile_appends (filePath : string) (view : FileView)
  (contacts : list Contact) (log : Log) :
  let '(contacts', _, err) := processVCardFile filePath view contacts log in
  contacts' = contacts ++ map (contactOfCard filePath) (Spec.decodedCards view) /\
  Forall (fun c => FileName c = filePath)
    (map (contactOfCard filePath) (Spec.decodedCards view)) /\
  (err = None <-> exists cards, view = Opened cards None /\ cards <> []).
Proof.
  assert (Hnames : forall cards,
            Forall (fun c => FileName c = filePath) (map (contactOfCard filePath) cards)).
  { intros cards. apply List.Forall_forall. intros c Hc.
    apply List.in_map_iff in Hc as (card & <- & _). reflexivity. }
  destruct view as [err | cards ending]; cbn [processVCardFile Spec.decodedCards].
  - cbn [map]. rewrite app_nil_r. repeat split; [constructor | discriminate |].
    intros (cards & Hview & _). discriminate.
  - rewrite decodeLoop_eq. split; [reflexivity |]. split; [apply Hnames |].
    unfold decodeEnd. destruct ending as [e|].
    + split; [discriminate |]. intros (cs & Hview & _). discriminate.
    + destruct cards as [|card cards]; cbn [length Nat.add Nat.eqb].
      * split; [discriminate |]. intros (cs & [= <-] & Hcs). contradiction.
      * split; [| reflexivity]. intros _. now exists (card :: cards).
Qed.

(** X16: the first entry of [FormatEmails] and of [FormatPhones] is what
    [GetPrimaryEmail] and [GetPrimaryPhone] return: the formatted lists start
    with the primary entry, and a contact without emails or phones gives the
    empty string in all four. *)
Theorem primary_entry_first (c : Contact) :
  GoStrings.HasPrefix (FormatEmails c) (GetPrimaryEmail c) = true /\
  GoStrings.HasPrefix (FormatPhones c) (GetPrimaryPhone c) = true /\
  (Emails c = [] -> FormatEmails c = ""%string /\ GetPrimaryEmail c = ""%string) /\
  (Phones c = [] -> FormatPhones c = ""%string /\ GetPrimaryPhone c = ""%string).
Proof.
  unfold FormatEmails, FormatPhones, GetPrimaryEmail, GetPrimaryPhone.
  split; [| split; [| split]].
  - destruct (Emails c) as [|e [|e' es]]; [reflexivity | |];
      cbn [length Nat.eqb map GoStrings.Join]; apply HasPrefix_spec.
    + exists ""%string. now rewrite append_nil_r.
    + eexists. reflexivity.
  - destruct (Phones c) as [|p [|p' ps]]; [reflexivity | |];
      cbn [length Nat.eqb map GoStrings.Join]; apply HasPrefix_spec.
    + exists ""%string. now rewrite append_nil_r.
    + eexists. reflexivity.
  - intros ->. split; reflexivity.
  - intros ->. split; reflexivity.
Qed.

End CardFields.
(** X12 at an address without post-office box, extended address and region *)
Lemma formatAddress_components_witness :
  let parts := [""; ""; "1 Main St"; "Springfield"; ""; "12345"; "USA"]%string in
  parts <> [] /\
  Forall (fun p => GoStrings.Contains p ";" = false) parts /\
  vcard.formatAddress ";;1 Main St;Springfield;;12345;USA"
  = "1 Main St, Springfield, 12345, USA"%string.
Proof.
  cbv zeta. split; [discriminate |]. split; [repeat constructor |].
  apply (formatAddress_components
           [""; ""; "1 Main St"; "Springfield"; ""; "12345"; "USA"]%string);
    [discriminate | repeat constructor].
Defined.

(** X13 at a card with the structured name [Abel;Ann;Marie;Dr.;Jr.] *)
Lemma contactOfCard_structured_name_witness :
  let nameField := GoVCard.mkField "Abel;Ann;Marie;Dr.;Jr." [] in
  let card : GoVCard.Card := {[ GoVCard.FieldName := [nameField] ]} in
  let c := @vcard.contactOfCard sampleRuntime "a.vcf" card in
  GoVCard.Get card GoVCard.FieldName = Some nameField /\
  vcard.FamilyName c = "Abel"%string /\ vcard.GivenName c = "Ann"%string /\
  vcard.MiddleName c = "Marie"%string /\ vcard.Prefix c = "Dr."%string /\
  vcard.Suffix c = "Jr."%string /\ vcard.FileName c = "a.vcf"%string.
Proof.
  cbv zeta. split; [reflexivity |].
  apply (@contactOfCard_structured_name sampleRuntime "a.vcf"
           {[ GoVCard.FieldName := [GoVCard.mkField "Abel;Ann;Marie;Dr.;Jr." []] ]}
           (GoVCard.mkField "Abel;Ann;Marie;Dr.;Jr." [])
           ["Abel"; "Ann"; "Marie"; "Dr."; "Jr."]%string);
    [reflexivity | reflexivity | discriminate | repeat constructor].
Defined.

(** X16 at a contact without emails and phones *)
Lemma primary_entry_first_witness :
  vcard.Emails (abel "Ann") = [] /\
  vcard.FormatEmails (abel "Ann") = ""%string /\
  vcard.GetPrimaryEmail (abel "Ann") = ""%string.
Proof.
  split; [reflexivity |].
  destruct (primary_entry_first (abel "Ann")) as (_ & _ & Hnone & _).
  apply Hnone. reflexivity.
Defined.

(** ** Loading: where contacts come from and how a path fails *)

Section LoadingMore.

Context `{GoRuntime}.

Import GoVCard vcard.

Lemma entryContacts_vcf (ev : WalkEvent) :
  Forall (fun c => GoStrings.HasSuffix (GoStrings.ToLower (FileName c)) ".vcf" = true)
    (entryContacts ev).
Proof.
  destruct ev as [fp err | fp | fp view]; cbn [entryContacts]; try constructor.
  destruct (GoStrings.HasSuffix (GoStrings.ToLower fp) ".vcf") eqn:Hvcf; [| constructor].
  apply List.Forall_forall. intros c Hc.
  apply List.in_map_iff in Hc as (card & <- & _). exact Hvcf.
Qed.

Lemma pathOutcome_vcf (fs : FileSystem) (path : string) :
  Forall (fun c => GoStrings.HasSuffix (GoStrings.ToLower (FileName c)) ".vcf" = true)
    (fst (Spec.pathOutcome fs path)).
Proof.
  destruct (Spec.pathOutcome fs path) as [contacts [err|]] eqn:Ho; cbn [fst].
  - apply pathOutcome_failure_nil in Ho. subst. constructor.
  - destruct (fs !! path) as [events|] eqn:Hfs.
    + rewrite (pathOutcome_contacts fs path events contacts Hfs Ho).
      apply List.Forall_forall. intros c Hc. apply List.in_flat_map in Hc as (ev & _ & Hc).
      pose proof (entryContacts_vcf ev) as Hall. rewrite List.Forall_forall in Hall.
      now apply Hall.
    + unfold Spec.pathOutcome, loadContactsFromPath in Ho. rewrite Hfs in Ho. discriminate.
Qed.

(** X17: every contact that [LoadContacts] returns was read from a file
    whose name ends in [.vcf], in any mix of upper and lower case: the
    contact's [FileName] says so.  Other files of an address book never
    yield a contact. *)
Theorem LoadContacts_from_vcf_files (fs : FileSystem) (paths : list string) (log : Log) :
  Forall (fun c => GoStrings.HasSuffix (GoStrings.ToLower (FileName c)) ".vcf" = true)
    (fst (fst (LoadContacts fs paths log))).
Proof.
  unfold LoadContacts. cbv zeta.
  destruct (_ && _)%bool; cbn [fst]; [constructor |].
  unfold loadLoop. rewrite loadLoop_contacts. cbn [l_contacts List.app].
  unfold Spec.collected. apply List.Forall_forall. intros c Hc.
  apply List.in_flat_map in Hc as (path & _ & Hc).
  pose proof (pathOutcome_vcf fs path) as Hall. rewrite List.Forall_forall in Hall.
  now apply Hall.
Qed.

Lemma WalkDir_no_error (events : list WalkEvent) (st : walkState) :
  snd (WalkDir events walkFn st) = None.
Proof.
  revert st. induction events as [|ev events IH]; intros st; [reflexivity |].
  cbn [WalkDir]. pose proof (walkFn_no_error ev st) as E.
  destruct (walkFn ev st) as [s1 e1]. cbn in E. subst e1. apply IH.
Qed.

(** X18: [loadContactsFromPath] never returns contacts together with an
    error, and a success holds at least one contact.  It fails in three ways
    only: the path does not exist, the walk met no [.vcf] file, or it met
    some and none could be processed.  The walk callback always returns nil,
    so the error about scanning the directory is never produced. *)
Theorem loadContactsFromPath_failures (fs : FileSystem) (path : string) (log : Log) :
  let '(contacts, err, _) := loadContactsFromPath fs path log in
  match err with
  | None => contacts <> [] /\ fs !! path <> None
  | Some msg =>
      contacts = [] /\
      (fs !! path = None /\ msg = ("path does not exist: " +:+ path)%string \/
       fs !! path <> None /\
       (msg = ("no .vcf files found in directory: " +:+ path)%string \/
        msg = ("failed to process any vCard files in directory: " +:+ path)%string))
  end.
Proof.
  pose proof (loadContactsFromPath_outcome fs path log) as Ho.
  pose proof (pathOutcome_success_nonempty fs path) as Hok.
  unfold loadContactsFromPath in *. destruct (fs !! path) as [events|] eqn:Hfs.
  - pose proof (WalkDir_no_error events
                  (mkWalk [] 0 0 0
                     (log ++ [mkLog LevelDebug "Loading contacts from path" path])))
      as Hwalk.
    destruct (WalkDir events walkFn _) as [st [e|]]; [discriminate |].
    cbn [fst] in Ho |- *.
    destruct (w_vcfCount st =? 0)%nat.
    + split; [reflexivity |]. right. split; [discriminate |]. now left.
    + destruct (_ && _)%bool.
      * split; [reflexivity |]. right. split; [discriminate |]. now right.
      * split; [| discriminate]. apply Hok. now rewrite <- Ho.
  - split; [reflexivity |]. left. now split.
Qed.

(** the error lines the loop of [LoadContacts] gathers: one per failing
    path, in the order of the paths *)
Lemma loadLoop_errors (fs : FileSystem) (paths : list string) (st : loadState) :
  l_loadErrors (fold_left (loadStep fs) paths st)
  = l_loadErrors st
    ++ flat_map (fun path => match snd (Spec.pathOutcome fs path) with
                             | Some err => [(path +:+ ": " +:+ err)%string]
                             | None => []
                             end) paths.
Proof.
  revert st. induction paths as [|path paths IH]; intros st.
  - cbn. now rewrite app_nil_r.
  - cbn [fold_left flat_map]. rewrite IH, app_assoc. f_equal.
    unfold loadStep. pose proof (loadContactsFromPath_outcome fs path (l_log st)) as Ho.
    destruct (loadContactsFromPath fs path (l_log st)) as [[cs [e|]] l]; cbn [fst] in Ho;
      rewrite <- Ho; cbn; [reflexivity | now rewrite app_nil_r].
Qed.

(** X19: when [LoadContacts] fails, every path has failed, and the error
    names every path with its own failure, in the order of the paths, one per
    line after the heading. *)
Theorem LoadContacts_error_lists_paths (fs : FileSystem) (paths : list string)
  (log : Log) (msg : string) :
  snd (fst (LoadContacts fs paths log)) = Some msg ->
  Forall (Spec.pathFails fs) paths /\
  msg = ("failed to load contacts from any address book:" +:+ String "010" "  - " +:+
         GoStrings.Join
           (map (fun path =>
                   path +:+ ": " +:+ default ""%string (snd (Spec.pathOutcome fs path)))
              paths)
           (String "010" "  - "))%string.
Proof.
  unfold LoadContacts. cbv zeta.
  destruct (_ && _)%bool eqn:Hfail; cbn [fst snd]; [| discriminate].
  intros [= Hmsg]. subst msg. apply andb_true_iff in Hfail as [_ Hnone].
  apply Nat.eqb_eq, length_zero_iff_nil in Hnone.
  unfold loadLoop in *. rewrite loadLoop_contacts in Hnone. cbn [l_contacts List.app] in Hnone.
  pose proof (collected_nil_all_fail fs paths Hnone) as Hall.
  split; [exact Hall |].
  rewrite loadLoop_errors. cbn [l_loadErrors List.app].
  replace (flat_map _ paths)
    with (map (fun path =>
                 path +:+ ": " +:+ default ""%string (snd (Spec.pathOutcome fs path)))%string
            paths); [reflexivity |].
  clear Hnone. induction Hall as [|path paths Hpath _ IH]; [reflexivity |].
  cbn [flat_map map]. rewrite IH. unfold Spec.pathFails in Hpath.
  destruct (snd (Spec.pathOutcome fs path)); [reflexivity | contradiction].
Qed.

End LoadingMore.
(** X19 at an address book whose only file fails and a path that does not
    exist *)
Lemma LoadContacts_error_lists_paths_witness :
  let msg :=
    ("failed to load contacts from any address book:" +:+ String "010" "  - " +:+
     "book: failed to process any vCard files in directory: book" +:+ String "010" "  - " +:+
     "nowhere: path does not exist: nowhere")%string in
  snd (fst (@vcard.LoadContacts sampleRuntime brokenBook ["book"; "nowhere"]%string []))
  = Some msg /\
  Forall (@Spec.pathFails sampleRuntime brokenBook) ["book"; "nowhere"]%string.
Proof.
  cbv zeta. split; [reflexivity |].
  eapply (@LoadContacts_error_lists_paths sampleRuntime brokenBook
            ["book"; "nowhere"]%string []).
  reflexivity.
Defined.

(** ** Birthdays: the other forms the parser reads *)

Section BirthdayForms.

Context `{GoRuntime}.

Import GoTime vcard.

Lemma getyear_digits (a b c e : ascii) (x1 x2 x3 x4 : Z) (rest : string) :
  digitOf a = Some x1 -> digitOf b = Some x2 -> digitOf c = Some x3 -> digitOf e = Some x4 ->
  getyear (String a (String b (String c (String e rest))))
  = Some (x1 * 1000 + x2 * 100 + x3 * 10 + x4, rest).
Proof. intros Ha Hb Hc He. cbn [getyear]. now rewrite Ha, Hb, Hc, He. Qed.

Lemma getnum_digits (a b : ascii) (x y : Z) (rest : string) (fixed : bool) :
  digitOf a = Some x -> digitOf b = Some y ->
  getnum (String a (String b rest)) fixed = Some (x * 10 + y, rest).
Proof. intros Ha Hb. cbn [getnum]. now rewrite Ha, Hb. Qed.

Lemma skip_digit (a p : ascii) (x : Z) (rest text : string) :
  digitOf a = Some x -> digitOf p = None -> skip (String a rest) (String p text) = None.
Proof.
  intros Ha Hp. cbn [skip]. destruct (Ascii.eqb_spec a p) as [-> |]; [congruence | reflexivity].
Qed.

(** the digits of a date: year, month and day as [Sprintf] writes them *)
Lemma date_digits (y m d : Z) :
  0 <= y <= 9999 -> 0 <= m <= 99 -> 0 <= d <= 99 ->
  exists a b c e m1 m2 d1 d2 x1 x2 x3 x4 u1 u2 v1 v2,
    GoFmt.Sprintf_0d 4 y = String a (String b (String c (String e ""))) /\
    GoFmt.Sprintf_0d 2 m = String m1 (String m2 "") /\
    GoFmt.Sprintf_0d 2 d = String d1 (String d2 "") /\
    digitOf a = Some x1 /\ digitOf b = Some x2 /\ digitOf c = Some x3 /\
    digitOf e = Some x4 /\ digitOf m1 = Some u1 /\ digitOf m2 = Some u2 /\
    digitOf d1 = Some v1 /\ digitOf d2 = Some v2 /\
    x1 * 1000 + x2 * 100 + x3 * 10 + x4 = y /\ u1 * 10 + u2 = m /\ v1 * 10 + v2 = d.
Proof.
  intros Hy Hm Hd.
  destruct (Sprintf_four y Hy) as (a & b & c & e & x1 & x2 & x3 & x4 & Ey & Ha & Hb & Hc & He & Hsum).
  destruct (Sprintf_two m Hm) as (m1 & m2 & u1 & u2 & Em & Hm1 & Hm2 & Hmsum).
  destruct (Sprintf_two d Hd) as (d1 & d2 & v1 & v2 & Ed & Hd1 & Hd2 & Hdsum).
  exists a, b, c, e, m1, m2, d1, d2, x1, x2, x3, x4, u1, u2, v1, v2. repeat split; assumption.
Qed.

(** a text that begins and ends with a digit or a dash is already trimmed *)
Lemma skipSpace_plain (c : ascii) (s : string) :
  GoStrings.nonASCII c = false -> GoStrings.asciiSpace c = false ->
  GoStrings.skipSpace (String c s) = (String c s, false).
Proof. intros Hn Hs. cbn [GoStrings.skipSpace]. now rewrite Hn, Hs. Qed.

(** what the date layout reads from a text that begins with a date in ISO
    form: the date, and the rest of the layout goes on after it *)
Lemma parseChunks_iso (rest : list chunk) (tail : string) (a b c e m1 m2 d1 d2 : ascii)
  (x1 x2 x3 x4 u1 u2 v1 v2 : Z) :
  digitOf a = Some x1 -> digitOf b = Some x2 -> digitOf c = Some x3 ->
  digitOf e = Some x4 -> digitOf m1 = Some u1 -> digitOf m2 = Some u2 ->
  digitOf d1 = Some v1 -> digitOf d2 = Some v2 ->
  parseChunks (isoDate ++ rest)
    (String a (String b (String c (String e (String "-" (String m1 (String m2
       (String "-" (String d1 (String d2 tail))))))))))
    noFields
  = if (u1 * 10 + u2 <=? 0) || (12 <? u1 * 10 + u2) then None
    else parseChunks rest tail
           (mkFields (x1 * 1000 + x2 * 100 + x3 * 10 + x4) (u1 * 10 + u2) (v1 * 10 + v2)
              0 0 0 0).
Proof.
  intros Ha Hb Hc He Hm1 Hm2 Hd1 Hd2. unfold isoDate. cbn [List.app parseChunks].
  rewrite (getyear_digits _ _ _ _ _ _ _ _ _ Ha Hb Hc He).
  cbn [skip]. rewrite Ascii.eqb_refl.
  rewrite (getnum_digits _ _ _ _ _ _ Hm1 Hm2).
  destruct (_ || _)%bool; [reflexivity |].
  cbn [skip]. rewrite Ascii.eqb_refl.
  rewrite (getnum_digits _ _ _ _ _ _ Hd1 Hd2). reflexivity.
Qed.

Lemma string_rev_onto_app (s acc : string) :
  GoStrings.string_rev_onto s acc = (GoStrings.string_rev s +:+ acc)%string.
Proof.
  unfold GoStrings.string_rev. revert acc. induction s as [|c s IH]; intros acc; [reflexivity |].
  cbn [GoStrings.string_rev_onto]. rewrite IH, (IH (String c "")), append_assoc. reflexivity.
Qed.

Lemma string_rev_snoc (s : string) (z : ascii) :
  GoStrings.string_rev (s +:+ String z "") = String z (GoStrings.string_rev s).
Proof.
  unfold GoStrings.string_rev.
  assert (Hgen : forall acc,
            GoStrings.string_rev_onto (s +:+ String z "") acc
            = String z (GoStrings.string_rev_onto s acc)).
  { induction s as [|c s IH]; intros acc; [reflexivity |].
    cbn [String.append GoStrings.string_rev_onto]. apply IH. }
  apply Hgen.
Qed.

Lemma string_rev_cons (c : ascii) (s : string) :
  GoStrings.string_rev (String c s) = (GoStrings.string_rev s +:+ String c "")%string.
Proof. unfold GoStrings.string_rev at 1. cbn [GoStrings.string_rev_onto]. apply string_rev_onto_app. Qed.

Lemma string_rev_involutive (s : string) : GoStrings.string_rev (GoStrings.string_rev s) = s.
Proof.
  induction s as [|c s IH]; [reflexivity |].
  now rewrite string_rev_cons, string_rev_snoc, IH.
Qed.

(** a text that begins and ends with a byte of ASCII that is no white space
    is already trimmed *)
Lemma TrimSpace_plain (c z : ascii) (s : string) :
  GoStrings.nonASCII c = false -> GoStrings.asciiSpace c = false ->
  GoStrings.nonASCII z = false -> GoStrings.asciiSpace z = false ->
  GoStrings.TrimSpace (String c (s +:+ String z "")) = String c (s +:+ String z "").
Proof.
  intros Hc1 Hc2 Hz1 Hz2. unfold GoStrings.TrimSpace.
  rewrite skipSpace_plain by assumption.
  change (String c (s +:+ String z "")) with (String c s +:+ String z "")%string.
  rewrite string_rev_snoc, skipSpace_plain by assumption.
  rewrite <- string_rev_snoc. apply string_rev_involutive.
Qed.

Lemma digitOf_dash : digitOf "-" = None.
Proof. reflexivity. Qed.

(** the layouts tried on a text that begins with a date in ISO form: the
    compact and the year-unknown layouts fail, the three that begin with the
    ISO date remain *)
Lemma tryFormats_iso (tail : string) (a b c e m1 m2 d1 d2 : ascii)
  (x1 x2 x3 x4 u1 u2 v1 v2 : Z) :
  digitOf a = Some x1 -> digitOf b = Some x2 -> digitOf c = Some x3 ->
  digitOf e = Some x4 -> digitOf m1 = Some u1 -> digitOf m2 = Some u2 ->
  digitOf d1 = Some v1 -> digitOf d2 = Some v2 ->
  let value := String a (String b (String c (String e (String "-" (String m1 (String m2
                 (String "-" (String d1 (String d2 tail))))))))) in
  tryFormats layouts value
  = match Parse (isoDate ++ []) value with
    | Some t => Some t
    | None =>
        match Parse (isoDate ++ [lit "T"; stdHour; lit ":"; stdZeroMinute; lit ":";
                                 stdZeroSecond; lit "Z"]) value with
        | Some t => Some t
        | None =>
            Parse (isoDate ++ [lit "T"; stdHour; lit ":"; stdZeroMinute; lit ":";
                               stdZeroSecond]) value
        end
    end.
Proof.
  intros Ha Hb Hc He Hm1 Hm2 Hd1 Hd2 value.
  assert (Hdd : GoStrings.HasPrefix value "--" = false).
  { subst value. cbn [GoStrings.HasPrefix].
    destruct (digitOf_plain _ _ Ha) as (_ & _ & ->). reflexivity. }
  assert (Hcompact : Parse [stdLongYear; stdZeroMonth; stdZeroDay] value = None).
  { subst value. unfold Parse. cbn [parseChunks].
    rewrite (getyear_digits _ _ _ _ _ _ _ _ _ Ha Hb Hc He). cbn [getnum].
    now rewrite digitOf_dash. }
  assert (Hyl : forall rest, Parse (lit "--" :: rest) value = None).
  { intros rest. subst value. unfold Parse. cbn [parseChunks skip].
    destruct (digitOf_plain _ _ Ha) as (_ & _ & ->). reflexivity. }
  unfold layouts. cbv zeta. cbn [tryFormats]. rewrite Hdd, Hcompact, !Hyl.
  change [stdLongYear; lit "-"; stdZeroMonth; lit "-"; stdZeroDay] with (isoDate ++ []).
  destruct (Parse (isoDate ++ []) value); [reflexivity |].
  change ((isoDate ++ []) ++ [lit "T"; stdHour; lit ":"; stdZeroMinute; lit ":"; stdZeroSecond]
          ++ [lit "Z"])
    with (isoDate ++ [lit "T"; stdHour; lit ":"; stdZeroMinute; lit ":"; stdZeroSecond;
                      lit "Z"]).
  destruct (Parse (isoDate ++ [lit "T"; stdHour; lit ":"; stdZeroMinute; lit ":";
                               stdZeroSecond; lit "Z"]) value); [reflexivity |].
  change ((isoDate ++ []) ++ [lit "T"; stdHour; lit ":"; stdZeroMinute; lit ":"; stdZeroSecond])
    with (isoDate ++ [lit "T"; stdHour; lit ":"; stdZeroMinute; lit ":"; stdZeroSecond]).
  destruct (Parse (isoDate ++ [lit "T"; stdHour; lit ":"; stdZeroMinute; lit ":";
                               stdZeroSecond]) value); reflexivity.
Qed.

(** what a layout that begins with the ISO date reads from a text that begins
    with a date in ISO form is that date, and the date is on the calendar *)
Lemma Parse_iso_result (rest : list chunk) (tail : string) (a b c e m1 m2 d1 d2 : ascii)
  (x1 x2 x3 x4 u1 u2 v1 v2 : Z) (t : Time) :
  digitOf a = Some x1 -> digitOf b = Some x2 -> digitOf c = Some x3 ->
  digitOf e = Some x4 -> digitOf m1 = Some u1 -> digitOf m2 = Some u2 ->
  digitOf d1 = Some v1 -> digitOf d2 = Some v2 ->
  forallb clockOnly rest = true ->
  Parse (isoDate ++ rest)
    (String a (String b (String c (String e (String "-" (String m1 (String m2
       (String "-" (String d1 (String d2 tail))))))))))
  = Some t ->
  let y := x1 * 1000 + x2 * 100 + x3 * 10 + x4 in
  let m := u1 * 10 + u2 in
  let d := v1 * 10 + v2 in
  (1 <= m <= 12 /\ 1 <= d <= daysIn m y) /\ Year t = y /\ Month t = m /\ Day t = d.
Proof.
  intros Ha Hb Hc He Hm1 Hm2 Hd1 Hd2 Hrest. cbv zeta. unfold Parse.
  rewrite (parseChunks_iso rest tail _ _ _ _ _ _ _ _ _ _ _ _ _ _ _ _ Ha Hb Hc He Hm1 Hm2 Hd1 Hd2).
  set (y := x1 * 1000 + x2 * 100 + x3 * 10 + x4). set (m := u1 * 10 + u2).
  set (d := v1 * 10 + v2).
  destruct (Z.leb_spec m 0); [discriminate |]. destruct (Z.ltb_spec 12 m); [discriminate |].
  cbn [orb].
  destruct (parseChunks rest tail (mkFields y m d 0 0 0 0)) as [f|] eqn:Hp; [| discriminate].
  apply parseChunks_clock in Hp; [| exact Hrest]. cbn in Hp. destruct Hp as (Ey & Em & Ed).
  rewrite Ey, Em, Ed.
  destruct (Z.ltb_spec m 0); [lia |].
  pose proof (digitOf_range _ _ Hd1). pose proof (digitOf_range _ _ Hd2).
  destruct (Z.ltb_spec d 0); [lia |].
  destruct (Z.ltb_spec d 1); [discriminate |].
  destruct (Z.ltb_spec (daysIn m y) d); [discriminate |]. cbn [orb].
  intros [= <-]. rewrite Date_valid by lia. cbn. repeat split; lia.
Qed.

(** X20: a birthday in ISO form whose fields are not a date of the calendar,
    such as a thirtieth of February or a thirteenth month, is read as no
    birthday at all: the result is the absent value. *)
Theorem parseBirthday_off_calendar (y m d : Z) :
  0 <= y <= 9999 -> 0 <= m <= 99 -> 0 <= d <= 99 ->
  ~ Spec.validDate y m d ->
  parseBirthday (Spec.isoText y m d) = zeroTime.
Proof.
  intros Hy Hm Hd Hbad.
  destruct (date_digits y m d Hy Hm Hd)
    as (a & b & c & e & m1 & m2 & d1 & d2 & x1 & x2 & x3 & x4 & u1 & u2 & v1 & v2
        & Ey & Em & Ed & Ha & Hb & Hc & He & Hm1 & Hm2 & Hd1 & Hd2 & Hys & Hms & Hds).
  unfold Spec.isoText. rewrite Ey, Em, Ed. cbn [String.append].
  assert (Hnone : forall rest, forallb clockOnly rest = true ->
            Parse (isoDate ++ rest)
              (String a (String b (String c (String e (String "-" (String m1 (String m2
                 (String "-" (String d1 (String d2 ""))))))))))
            = None).
  { intros rest Hrest. destruct (Parse _ _) as [t|] eqn:Hp; [exfalso | reflexivity].
    apply (Parse_iso_result rest "" _ _ _ _ _ _ _ _ _ _ _ _ _ _ _ _ t
             Ha Hb Hc He Hm1 Hm2 Hd1 Hd2 Hrest) in Hp.
    cbv zeta in Hp. rewrite Hys, Hms, Hds in Hp. apply Hbad. unfold Spec.validDate. tauto. }
  unfold parseBirthday.
  destruct (digitOf_plain _ _ Ha) as (Ha1 & Ha2 & _).
  destruct (digitOf_plain _ _ Hd2) as (Hz1 & Hz2 & _).
  change (String a (String b (String c (String e (String "-" (String m1 (String m2
            (String "-" (String d1 (String d2 ""))))))))))
    with (String a (String b (String c (String e (String "-" (String m1 (String m2
            (String "-" (String d1 ""))))))) +:+ String d2 ""))%string.
  rewrite TrimSpace_plain by assumption. cbn [String.append String.eqb].
  unfold matchBirthday.
  rewrite (tryFormats_iso "" _ _ _ _ _ _ _ _ _ _ _ _ _ _ _ _ Ha Hb Hc He Hm1 Hm2 Hd1 Hd2).
  rewrite !Hnone by reflexivity.
  cbn [String.length Nat.leb String.substring].
  change isoDate with (isoDate ++ []). now rewrite Hnone.
Qed.

(** X21: a birthday that begins with a date in full ISO form, and that has
    no white space left to trim, keeps that date whatever follows it, a time
    of day, a zone or any other text: the parsed birthday has the year, month
    and day of the date. *)
Theorem parseBirthday_date_prefix (y m d : Z) (tail : string) :
  Spec.validDate y m d ->
  GoStrings.TrimSpace (Spec.isoText y m d +:+ tail) = (Spec.isoText y m d +:+ tail)%string ->
  let t := parseBirthday (Spec.isoText y m d +:+ tail) in
  Year t = y /\ Month t = m /\ Day t = d.
Proof.
  intros Hv Htrim. cbv zeta. unfold parseBirthday. rewrite Htrim. clear Htrim.
  pose proof (Parse_isoText y m d Hv) as (_ & _ & _ & _ & _ & _ & Hiso).
  destruct Hv as (Hy & Hm & Hd). pose proof (daysIn_le m y) as Hdays.
  destruct (date_digits y m d Hy ltac:(lia) ltac:(lia))
    as (a & b & c & e & m1 & m2 & d1 & d2 & x1 & x2 & x3 & x4 & u1 & u2 & v1 & v2
        & Ey & Em & Ed & Ha & Hb & Hc & He & Hm1 & Hm2 & Hd1 & Hd2 & Hys & Hms & Hds).
  revert Hiso. unfold Spec.isoText. rewrite Ey, Em, Ed. cbn [String.append String.eqb].
  intros Hiso. unfold matchBirthday.
  rewrite (tryFormats_iso tail _ _ _ _ _ _ _ _ _ _ _ _ _ _ _ _ Ha Hb Hc He Hm1 Hm2 Hd1 Hd2).
  cbv zeta.
  assert (Hdate : forall rest t, forallb clockOnly rest = true ->
            Parse (isoDate ++ rest)
              (String a (String b (String c (String e (String "-" (String m1 (String m2
                 (String "-" (String d1 (String d2 tail))))))))))
            = Some t ->
            Year t = y /\ Month t = m /\ Day t = d).
  { intros rest t Hrest Hp.
    apply (Parse_iso_result rest tail _ _ _ _ _ _ _ _ _ _ _ _ _ _ _ _ t
             Ha Hb Hc He Hm1 Hm2 Hd1 Hd2 Hrest) in Hp.
    cbv zeta in Hp. rewrite Hys, Hms, Hds in Hp. tauto. }
  destruct (Parse (isoDate ++ []) _) as [t|] eqn:Hp1; [now apply (Hdate [] t) |].
  destruct (Parse (isoDate ++ [lit "T"; stdHour; lit ":"; stdZeroMinute; lit ":";
                               stdZeroSecond; lit "Z"]) _) as [t|] eqn:Hp2;
    [apply (Hdate _ t) in Hp2; [exact Hp2 | reflexivity] |].
  destruct (Parse (isoDate ++ [lit "T"; stdHour; lit ":"; stdZeroMinute; lit ":";
                               stdZeroSecond]) _) as [t|] eqn:Hp3;
    [apply (Hdate _ t) in Hp3; [exact Hp3 | reflexivity] |].
  cbn [String.length Nat.leb String.substring].
  replace (String.substring 0 0 tail) with ""%string by now destruct tail.
  rewrite Hiso. cbn. tauto.
Qed.

(** X22: a birthday with a year that falls in the current calendar year is
    displayed without its year, as MM/DD, like a birthday whose year is
    unknown. *)
Theorem birthday_in_current_year (m d : Z) :
  Spec.validDate Now_Year m d ->
  (Now_Year, m, d) <> (1, 1, 1) ->
  FormatBirthdayForDisplay (parseBirthday (Spec.isoText Now_Year m d)) = monthDayText m d.
Proof.
  intros Hv Hnot1. rewrite parseBirthday_isoText by exact Hv.
  unfold FormatBirthdayForDisplay, IsZero, monthDayText.
  cbn [Year Month Day Hour Minute Second Nanosecond].
  destruct (Z.eqb_spec Now_Year 1) as [E |], (Z.eqb_spec m 1) as [Em |],
    (Z.eqb_spec d 1) as [Ed |]; cbn [andb]; rewrite ?Z.eqb_refl; try reflexivity.
  exfalso. apply Hnot1. now rewrite E, Em, Ed.
Qed.

End BirthdayForms.
(** X20 at the 30th of February 1990 *)
Lemma parseBirthday_off_calendar_witness :
  ~ Spec.validDate 1990 2 30 /\
  @vcard.parseBirthday sampleRuntime "1990-02-30" = GoTime.zeroTime.
Proof.
  assert (Hbad : ~ Spec.validDate 1990 2 30).
  { intros (_ & _ & Hd). vm_compute in Hd. destruct Hd as [_ Hd]. apply Hd. reflexivity. }
  split; [exact Hbad |].
  apply (@parseBirthday_off_calendar sampleRuntime 1990 2 30); [lia | lia | lia | exact Hbad].
Defined.

(** X21 at a birthday with a time of day and a zone offset *)
Lemma parseBirthday_date_prefix_witness :
  let t := @vcard.parseBirthday sampleRuntime "1990-01-15T10:30:00+01:00" in
  Spec.validDate 1990 1 15 /\
  GoTime.Year t = 1990 /\ GoTime.Month t = 1 /\ GoTime.Day t = 15.
Proof.
  assert (Hv : Spec.validDate 1990 1 15).
  { split; [lia |]. split; [lia |]. split; vm_compute; discriminate. }
  cbv zeta. split; [exact Hv |].
  apply (@parseBirthday_date_prefix sampleRuntime 1990 1 15 "T10:30:00+01:00");
    [exact Hv | reflexivity].
Defined.

(** X22 at 15 January of the current year, 2026 *)
Lemma birthday_in_current_year_witness :
  Spec.validDate 2026 1 15 /\
  @vcard.FormatBirthdayForDisplay sampleRuntime
    (@vcard.parseBirthday sampleRuntime "2026-01-15") = "01/15"%string.
Proof.
  assert (Hv : Spec.validDate 2026 1 15).
  { split; [lia |]. split; [lia |]. split; vm_compute; discriminate. }
  split; [exact Hv |].
  apply (@birthday_in_current_year sampleRuntime 1 15); [exact Hv | discriminate].
Defined.

Section BirthdayCompactForms.

Context `{GoRuntime}.

Import GoTime vcard.

(** X23: the compact form YYYYMMDD of a date is read as the same birthday as
    its ISO form YYYY-MM-DD: midnight of that date. *)
Theorem parseBirthday_compact (y m d : Z) :
  Spec.validDate y m d ->
  parseBirthday (compactText y m d) = mkTime y m d 0 0 0 0 /\
  parseBirthday (compactText y m d) = parseBirthday (Spec.isoText y m d).
Proof.
  intros Hv. rewrite (parseBirthday_isoText y m d Hv).
  enough (parseBirthday (compactText y m d) = mkTime y m d 0 0 0 0) by now split.
  destruct Hv as (Hy & Hm & Hd). pose proof (daysIn_le m y) as Hdays.
  destruct (date_digits y m d Hy ltac:(lia) ltac:(lia))
    as (a & b & c & e & m1 & m2 & d1 & d2 & x1 & x2 & x3 & x4 & u1 & u2 & v1 & v2
        & Ey & Em & Ed & Ha & Hb & Hc & He & Hm1 & Hm2 & Hd1 & Hd2 & Hys & Hms & Hds).
  unfold compactText. rewrite Ey, Em, Ed. cbn [String.append].
  unfold parseBirthday.
  destruct (digitOf_plain _ _ Ha) as (Ha1 & Ha2 & Hadash).
  destruct (digitOf_plain _ _ Hd2) as (Hz1 & Hz2 & _).
  change (String a (String b (String c (String e (String m1 (String m2 (String d1
            (String d2 ""))))))))
    with (String a (String b (String c (String e (String m1 (String m2 (String d1 "")))))
                    +:+ String d2 ""))%string.
  rewrite TrimSpace_plain by assumption. cbn [String.append String.eqb].
  unfold matchBirthday, layouts. cbv zeta. cbn [tryFormats].
  assert (Hiso : Parse [stdLongYear; lit "-"; stdZeroMonth; lit "-"; stdZeroDay]
                   (String a (String b (String c (String e (String m1 (String m2 (String d1
                      (String d2 "")))))))) = None).
  { unfold Parse. cbn [parseChunks].
    rewrite (getyear_digits _ _ _ _ _ _ _ _ _ Ha Hb Hc He).
    now rewrite (skip_digit _ _ _ _ _ Hm1 digitOf_dash). }
  rewrite Hiso. unfold Parse. cbn [parseChunks].
  rewrite (getyear_digits _ _ _ _ _ _ _ _ _ Ha Hb Hc He).
  rewrite (getnum_digits _ _ _ _ _ _ Hm1 Hm2). rewrite Hys, Hms.
  destruct (Z.leb_spec m 0); [lia |]. destruct (Z.ltb_spec 12 m); [lia |]. cbn [orb].
  rewrite (getnum_digits _ _ _ _ _ _ Hd1 Hd2). rewrite Hds.
  cbn [String.eqb f_month f_day f_year f_hour f_min f_sec f_nsec].
  destruct (Z.ltb_spec m 0); [lia |]. destruct (Z.ltb_spec d 0); [lia |].
  destruct (Z.ltb_spec d 1); [lia |]. destruct (Z.ltb_spec (daysIn m y) d); [lia |].
  cbn [orb GoStrings.HasPrefix]. rewrite Hadash. cbn [andb].
  now rewrite Date_valid by lia.
Qed.

Lemma yearless_digits (m d : Z) :
  1 <= m <= 12 -> 1 <= d <= daysIn m 0 ->
  exists m1 m2 d1 d2 u1 u2 v1 v2,
    GoFmt.Sprintf_0d 2 m = String m1 (String m2 "") /\
    GoFmt.Sprintf_0d 2 d = String d1 (String d2 "") /\
    digitOf m1 = Some u1 /\ digitOf m2 = Some u2 /\
    digitOf d1 = Some v1 /\ digitOf d2 = Some v2 /\
    u1 * 10 + u2 = m /\ v1 * 10 + v2 = d.
Proof.
  intros Hm Hd. pose proof (daysIn_le m 0).
  destruct (Sprintf_two m) as (m1 & m2 & u1 & u2 & Em & Hm1 & Hm2 & Hmsum); [lia |].
  destruct (Sprintf_two d) as (d1 & d2 & v1 & v2 & Ed & Hd1 & Hd2 & Hdsum); [lia |].
  exists m1, m2, d1, d2, u1, u2, v1, v2. repeat split; assumption.
Qed.

(** the form --MM-DD gives the day of the year in the current year *)
Lemma parseBirthday_yearless (m d : Z) :
  1 <= m <= 12 -> 1 <= d <= daysIn m 0 ->
  parseBirthday (yearlessText m d) = Date Now_Year m d 0 0 0 0.
Proof.
  intros Hm Hd. pose proof (daysIn_le m 0) as Hdays.
  destruct (yearless_digits m d Hm Hd)
    as (m1 & m2 & d1 & d2 & u1 & u2 & v1 & v2 & Em & Ed & Hm1 & Hm2 & Hd1 & Hd2 & Hms & Hds).
  unfold yearlessText. rewrite Em, Ed. cbn [String.append].
  unfold parseBirthday.
  destruct (digitOf_plain _ _ Hd2) as (Hz1 & Hz2 & _).
  change (String "-" (String "-" (String m1 (String m2 (String "-" (String d1
            (String d2 "")))))))
    with (String "-" (String "-" (String m1 (String m2 (String "-" (String d1 ""))))
                      +:+ String d2 ""))%string.
  rewrite TrimSpace_plain by (reflexivity || assumption). cbn [String.append String.eqb].
  change (Ascii.eqb "-" "-") with true. cbv iota.
  unfold matchBirthday, layouts. cbv zeta. cbn [tryFormats List.app].
  unfold Parse, noFields. cbn [parseChunks getyear]. rewrite digitOf_dash.
  cbn [skip]. change (Ascii.eqb "-" "-") with true. cbv iota.
  rewrite (getnum_digits _ _ _ _ _ _ Hm1 Hm2). rewrite Hms.
  destruct (Z.leb_spec m 0); [lia |]. destruct (Z.ltb_spec 12 m); [lia |]. cbn [orb].
  cbn [skip]. change (Ascii.eqb "-" "-") with true. cbv iota.
  rewrite (getnum_digits _ _ _ _ _ _ Hd1 Hd2). rewrite Hds.
  cbn [String.eqb f_month f_day f_year f_hour f_min f_sec f_nsec].
  destruct (Z.ltb_spec m 0); [lia |]. destruct (Z.ltb_spec d 0); [lia |].
  destruct (Z.ltb_spec d 1); [lia |]. destruct (Z.ltb_spec (daysIn m 0) d); [lia |].
  cbn [orb GoStrings.HasPrefix]. change (Ascii.eqb "-" "-") with true. cbn [andb].
  rewrite (Date_valid 0 m d) by lia. reflexivity.
Qed.

(** the form --MMDD gives the day of the year in the current year *)
Lemma parseBirthday_yearless_compact (m d : Z) :
  1 <= m <= 12 -> 1 <= d <= daysIn m 0 ->
  parseBirthday (yearlessCompactText m d) = Date Now_Year m d 0 0 0 0.
Proof.
  intros Hm Hd. pose proof (daysIn_le m 0) as Hdays.
  destruct (yearless_digits m d Hm Hd)
    as (m1 & m2 & d1 & d2 & u1 & u2 & v1 & v2 & Em & Ed & Hm1 & Hm2 & Hd1 & Hd2 & Hms & Hds).
  unfold yearlessCompactText. rewrite Em, Ed. cbn [String.append].
  unfold parseBirthday.
  destruct (digitOf_plain _ _ Hd2) as (Hz1 & Hz2 & _).
  change (String "-" (String "-" (String m1 (String m2 (String d1 (String d2 ""))))))
    with (String "-" (String "-" (String m1 (String m2 (String d1 "")))
                      +:+ String d2 ""))%string.
  rewrite TrimSpace_plain by (reflexivity || assumption). cbn [String.append String.eqb].
  change (Ascii.eqb "-" "-") with true. cbv iota.
  unfold matchBirthday, layouts. cbv zeta. cbn [tryFormats List.app].
  unfold Parse, noFields. cbn [parseChunks getyear]. rewrite digitOf_dash.
  cbn [skip]. change (Ascii.eqb "-" "-") with true. cbv iota.
  rewrite (getnum_digits _ _ _ _ _ _ Hm1 Hm2). rewrite Hms.
  destruct (Z.leb_spec m 0); [lia |]. destruct (Z.ltb_spec 12 m); [lia |]. cbn [orb].
  destruct (digitOf_plain _ _ Hd1) as (_ & _ & Hd1dash). rewrite Hd1dash.
  rewrite (getnum_digits _ _ _ _ _ _ Hd1 Hd2). rewrite Hds.
  cbn [String.eqb f_month f_day f_year f_hour f_min f_sec f_nsec].
  destruct (Z.ltb_spec m 0); [lia |]. destruct (Z.ltb_spec d 0); [lia |].
  destruct (Z.ltb_spec d 1); [lia |]. destruct (Z.ltb_spec (daysIn m 0) d); [lia |].
  cbn [orb GoStrings.HasPrefix]. change (Ascii.eqb "-" "-") with true. cbn [andb].
  rewrite (Date_valid 0 m d) by lia. reflexivity.
Qed.

(** X24: a birthday without year, --MM-DD or --MMDD, is read as that day of
    the current year, and when the current year has the day it is displayed
    as MM/DD.  The 29th of February is accepted whatever the current year. *)
Theorem parseBirthday_year_unknown (m d : Z) :
  1 <= m <= 12 -> 1 <= d <= daysIn m 0 ->
  parseBirthday (yearlessText m d) = Date Now_Year m d 0 0 0 0 /\
  parseBirthday (yearlessCompactText m d) = Date Now_Year m d 0 0 0 0 /\
  (d <= daysIn m Now_Year -> (Now_Year, m, d) <> (1, 1, 1) ->
   FormatBirthdayForDisplay (parseBirthday (yearlessText m d)) = monthDayText m d).
Proof.
  intros Hm Hd. split; [now apply parseBirthday_yearless |].
  split; [now apply parseBirthday_yearless_compact |].
  intros Hday Hnot1. rewrite parseBirthday_yearless, Date_valid by assumption.
  unfold FormatBirthdayForDisplay, IsZero, monthDayText.
  cbn [Year Month Day Hour Minute Second Nanosecond].
  destruct (Z.eqb_spec Now_Year 1) as [E |], (Z.eqb_spec m 1) as [Em |],
    (Z.eqb_spec d 1) as [Ed |]; cbn [andb]; rewrite ?Z.eqb_refl; try reflexivity.
  exfalso. apply Hnot1. now rewrite E, Em, Ed.
Qed.

(** X25: in a year that is not a leap year, a birthday given as the 29th of
    February without year is moved to the 1st of March: it is displayed as
    03/01 and sorted among the March birthdays. *)
Theorem leap_day_in_common_year :
  isLeap Now_Year = false ->
  parseBirthday "--02-29" = mkTime Now_Year 3 1 0 0 0 0 /\
  parseBirthday "--0229" = mkTime Now_Year 3 1 0 0 0 0 /\
  FormatBirthdayForDisplay (parseBirthday "--02-29") = "03/01"%string.
Proof.
  intros Hleap.
  assert (Hroll : Date Now_Year 2 29 0 0 0 0 = mkTime Now_Year 3 1 0 0 0 0).
  { unfold Date. change 12%nat with (S 11). rewrite rollDays_S.
    unfold daysIn at 1. rewrite Hleap. cbn [Z.eqb Pos.eqb andb Z.ltb Z.compare Pos.compare
      Pos.compare_cont].
    change (29 - daysIn 2 Now_Year) with (29 - (if (2 =? 2) && isLeap Now_Year then 29 else 28)).
    rewrite Hleap. cbn [Z.eqb Pos.eqb andb].
    rewrite rollDays_valid; [reflexivity |]. pose proof (daysIn_le (2 + 1) Now_Year). lia. }
  assert (Hp : parseBirthday "--02-29" = mkTime Now_Year 3 1 0 0 0 0).
  { rewrite <- Hroll. apply (parseBirthday_yearless 2 29); [lia | vm_compute; split; discriminate]. }
  split; [exact Hp |]. split.
  - rewrite <- Hroll.
    apply (parseBirthday_yearless_compact 2 29); [lia | vm_compute; split; discriminate].
  - rewrite Hp. unfold FormatBirthdayForDisplay, IsZero.
    cbn [Year Month Day Hour Minute Second Nanosecond]. rewrite !Z.eqb_refl.
    destruct (Now_Year =? 1); reflexivity.
Qed.

End BirthdayCompactForms.
(** X23 at 15 January 1990 *)
Lemma parseBirthday_compact_witness :
  Spec.validDate 1990 1 15 /\
  @vcard.parseBirthday sampleRuntime "19900115" = GoTime.mkTime 1990 1 15 0 0 0 0.
Proof.
  assert (Hv : Spec.validDate 1990 1 15).
  { split; [lia |]. split; [lia |]. split; vm_compute; discriminate. }
  split; [exact Hv |].
  apply (@parseBirthday_compact sampleRuntime 1990 1 15 Hv).
Defined.

(** X24 at the 15th of June, read in 2026 *)
Lemma parseBirthday_year_unknown_witness :
  1 <= 15 <= GoTime.daysIn 6 0 /\
  @vcard.parseBirthday sampleRuntime "--06-15" = GoTime.mkTime 2026 6 15 0 0 0 0 /\
  @vcard.parseBirthday sampleRuntime "--0615" = GoTime.mkTime 2026 6 15 0 0 0 0 /\
  @vcard.FormatBirthdayForDisplay sampleRuntime (@vcard.parseBirthday sampleRuntime "--06-15")
  = "06/15"%string.
Proof.
  assert (Hd : 1 <= 15 <= GoTime.daysIn 6 0) by (split; vm_compute; discriminate).
  split; [exact Hd |].
  destruct (@parseBirthday_year_unknown sampleRuntime 6 15 ltac:(lia) Hd)
    as (Hlong & Hshort & Hshow).
  split; [exact Hlong |]. split; [exact Hshort |].
  apply Hshow; [vm_compute; discriminate | discriminate].
Defined.

(** X25 read in 2026, which is not a leap year *)
Lemma leap_day_in_common_year_witness :
  GoTime.isLeap (@Now_Year sampleRuntime) = false /\
  @vcard.parseBirthday sampleRuntime "--02-29" = GoTime.mkTime 2026 3 1 0 0 0 0 /\
  @vcard.FormatBirthdayForDisplay sampleRuntime (@vcard.parseBirthday sampleRuntime "--02-29")
  = "03/01"%string.
Proof.
  split; [reflexivity |].
  destruct (@leap_day_in_common_year sampleRuntime eq_refl) as (Hlong & _ & Hshow).
  split; [exact Hlong | exact Hshow].
Defined.

(** ** Sorting what is already in order *)

Section SortedInput.

Context {A : Type} `{Inhabited A} `{GoRuntime} (less : A -> A -> bool).

Implicit Types l : list A.

Lemma insertionShift_sorted l (a b j : nat) :
  sortedRange less l a b -> (j < b)%nat -> GoSort.insertionShift less l a j = l.
Proof.
  intros Hs Hj. destruct j as [|j']; [reflexivity |]. cbn [GoSort.insertionShift].
  destruct (Nat.ltb_spec a (S j')) as [Ha | Ha]; [| reflexivity].
  unfold GoSort.Less. rewrite (Hs j' (S j')) by lia. reflexivity.
Qed.

Lemma insertionSort_func_sorted l (a b : nat) :
  sortedRange less l a b -> GoSort.insertionSort_func less l a b = l.
Proof.
  intros Hs. unfold GoSort.insertionSort_func.
  assert (Hall : forall i, In i (seq (a + 1) (b - (a + 1))) -> (i < b)%nat).
  { intros i Hi. apply in_seq in Hi. lia. }
  induction (seq (a + 1) (b - (a + 1))) as [|i turns IH]; [reflexivity |].
  cbn [fold_left]. rewrite (insertionShift_sorted l a b i Hs) by (apply Hall; now left).
  apply IH. intros k Hk. apply Hall. now right.
Qed.

Lemma order2_func_sorted l (a b x y s : nat) :
  sortedRange less l a b -> (a <= x)%nat -> (x < y)%nat -> (y < b)%nat ->
  GoSort.order2_func less l x y s = (x, y, s).
Proof.
  intros Hs Hx Hxy Hy. unfold GoSort.order2_func, GoSort.Less.
  now rewrite (Hs x y) by lia.
Qed.

Lemma median_func_sorted l (a b x y z s : nat) :
  sortedRange less l a b -> (a <= x)%nat -> (x < y)%nat -> (y < z)%nat -> (z < b)%nat ->
  GoSort.median_func less l x y z s = (y, s).
Proof.
  intros Hs Hx Hxy Hyz Hz. unfold GoSort.median_func.
  rewrite (order2_func_sorted l a b x y s) by (assumption || lia).
  rewrite (order2_func_sorted l a b y z s) by (assumption || lia).
  rewrite (order2_func_sorted l a b x y s) by (assumption || lia).
  reflexivity.
Qed.

(** on a range in order no comparison of [choosePivot_func] asks for a swap:
    the hint says increasing *)
Lemma choosePivot_func_sorted l (a b : nat) :
  sortedRange less l a b -> (12 < b - a)%nat ->
  snd (GoSort.choosePivot_func less l a b) = GoSort.increasingHint.
Proof.
  intros Hs Hlen. unfold GoSort.choosePivot_func. cbv zeta.
  set (n := (b - a)%nat) in *.
  pose proof (Nat.div_mod_eq n 4) as Hdiv.
  pose proof (Nat.mod_upper_bound n 4 ltac:(lia)) as Hmod.
  set (q := (n / 4)%nat) in *. clearbody q.
  destruct (Nat.leb_spec 8 n) as [_ | Hsmall]; [| lia].
  destruct (Nat.leb_spec 50 n) as [Hbig | Hmid].
  - unfold GoSort.medianAdjacent_func.
    rewrite (median_func_sorted l a b (a + q * 1 - 1) (a + q * 1) (a + q * 1 + 1) 0)
      by (assumption || lia).
    rewrite (median_func_sorted l a b (a + q * 2 - 1) (a + q * 2) (a + q * 2 + 1) 0)
      by (assumption || lia).
    rewrite (median_func_sorted l a b (a + q * 3 - 1) (a + q * 3) (a + q * 3 + 1) 0)
      by (assumption || lia).
    rewrite (median_func_sorted l a b (a + q * 1) (a + q * 2) (a + q * 3) 0)
      by (assumption || lia).
    reflexivity.
  - rewrite (median_func_sorted l a b (a + q * 1) (a + q * 2) (a + q * 3) 0)
      by (assumption || lia).
    reflexivity.
Qed.

Lemma scanOrdered_sorted l (a b fuel : nat) : forall i : nat,
  sortedRange less l a b -> (a < i)%nat -> (i <= b)%nat -> (b - i <= fuel)%nat ->
  GoSort.scanOrdered less fuel l i b = b.
Proof.
  induction fuel as [|fuel IH]; intros i Hs Ha Hb Hfuel; cbn [GoSort.scanOrdered]; [lia |].
  destruct (Nat.ltb_spec i b) as [Hlt | Hge]; cbn [andb]; [| lia].
  unfold GoSort.Less. rewrite (Hs (i - 1)%nat i) by lia. cbn [negb].
  apply IH; [exact Hs | lia | lia | lia].
Qed.

Lemma partialInsertionSort_loop_done (steps : nat) l (a b i : nat) :
  GoSort.scanOrdered less (b - a) l i b = b ->
  GoSort.partialInsertionSort_loop less (S steps) l a b i = (l, true).
Proof.
  intros Hscan. cbn [GoSort.partialInsertionSort_loop]. cbv zeta.
  now rewrite Hscan, Nat.eqb_refl.
Qed.

Lemma partialInsertionSort_func_sorted l (a b : nat) :
  sortedRange less l a b -> (a < b)%nat ->
  GoSort.partialInsertionSort_func less l a b = (l, true).
Proof.
  intros Hs Hab. unfold GoSort.partialInsertionSort_func.
  apply partialInsertionSort_loop_done.
  apply (scanOrdered_sorted l a b); [exact Hs | lia | lia | lia].
Qed.

Lemma pdqsort_func_sorted (fuel : nat) l (a b limit : nat) :
  sortedRange less l a b -> ((b - a <= 12)%nat \/ (0 < limit)%nat) ->
  GoSort.pdqsort_func less (S fuel) l a b limit true true = l.
Proof.
  intros Hs Hlimit. cbn [GoSort.pdqsort_func]. cbv zeta.
  destruct (Nat.leb_spec (b - a) 12) as [Hsmall | Hlong];
    [now apply insertionSort_func_sorted |].
  destruct (Nat.eqb_spec limit 0) as [-> | _]; [lia |]. cbn [negb].
  pose proof (choosePivot_func_sorted l a b Hs Hlong) as Hhint.
  destruct (GoSort.choosePivot_func less l a b) as [pivot hint]. cbn [snd] in Hhint.
  subst hint. cbn [GoSort.isDecreasing GoSort.isIncreasing andb].
  now rewrite partialInsertionSort_func_sorted by (assumption || lia).
Qed.

Lemma bits_Len_pos (n : nat) : (0 < n)%nat -> (0 < GoSort.bits_Len n)%nat.
Proof.
  intros Hn. unfold GoSort.bits_Len. destruct (N.of_nat n) as [|p] eqn:E; [lia |].
  cbn. lia.
Qed.

(** [sort.Slice] returns a slice that is in order as it is, elements that
    compare equal included *)
Lemma Slice_sorted_id l :
  (forall (i j : nat) (x y : A),
     (i < j)%nat -> l !! i = Some x -> l !! j = Some y -> less y x = false) ->
  GoSort.Slice less l = l.
Proof.
  intros Hs. unfold GoSort.Slice. cbv zeta. rewrite Nat.add_1_r.
  apply pdqsort_func_sorted.
  - intros i j _ Hij Hj. apply (Hs i j); [exact Hij | |];
      apply list_lookup_lookup_total_lt; lia.
  - destruct (Nat.leb_spec (length l - 0) 12); [now left | right].
    apply bits_Len_pos. lia.
Qed.

End SortedInput.

Section SortedContacts.

Context `{GoRuntime}.

Import vcard app.

(** X26: a contact list that already stands in the order of the sort keys is
    returned as it is, however long it is: contacts with equal sort keys keep
    their places. *)
Theorem sortContacts_sorted_input (contacts : list Contact) (reverse : bool) :
  (forall (i j : nat) (ci cj : Contact),
     (i < j)%nat -> contacts !! i = Some ci -> contacts !! j = Some cj ->
     if reverse then String.leb (extractSortKey cj) (extractSortKey ci) = true
     else String.leb (extractSortKey ci) (extractSortKey cj) = true) ->
  sortContacts contacts reverse = contacts.
Proof.
  intros Hs. unfold sortContacts. apply Slice_sorted_id.
  intros i j ci cj Hij Hi Hj. specialize (Hs i j ci cj Hij Hi Hj).
  unfold sortKeyLess. cbv zeta. destruct reverse; now apply string_ltb_leb.
Qed.

(** X27: both sorts are idempotent: sorting again what [sortContacts] or
    [sortContactsByBirthday] returned changes nothing, so a listing shows the
    same order however often it is sorted. *)
Theorem sorts_idempotent (contacts : list Contact) (reverse : bool) :
  sortContacts (sortContacts contacts reverse) reverse = sortContacts contacts reverse /\
  sortContactsByBirthday (sortContactsByBirthday contacts reverse) reverse
  = sortContactsByBirthday contacts reverse.
Proof.
  unfold sortContacts, sortContactsByBirthday. split; apply Slice_sorted_id.
  - apply (Slice_sorted (sortKeyLess reverse) (sortKeyLess_strictWeakOrder reverse)).
  - apply (Slice_sorted (birthdayLess reverse) (birthdayLess_strictWeakOrder reverse)).
Qed.

(** X28: [loadAndFilterContacts] returns exactly the loaded contacts that
    match the filter, in the order they were loaded; with an empty filter
    these are all of them.  It fails exactly when [LoadContacts] fails, and
    then returns no contact. *)
Theorem loadAndFilterContacts_matches (a : App) (w : World) (filter : list string) :
  let '(loaded, loadErr, _) := LoadContacts (books w) (addressBookPaths a) (wlog w) in
  let '(_, matched, err) := loadAndFilterContacts a w filter in
  (err = None <-> loadErr = None) /\
  matched = match loadErr with
            | Some _ => []
            | None => List.filter (fun c => matchesFilter c filter) loaded
            end.
Proof.
  unfold loadAndFilterContacts.
  destruct (LoadContacts (books w) (addressBookPaths a) (wlog w)) as [[loaded [e|]] l].
  - split; [split; discriminate | reflexivity].
  - destruct filter as [|term terms]; cbn [length Nat.eqb].
    + split; [tauto |]. symmetry. apply forallb_filter_id. apply forallb_forall.
      intros c _. reflexivity.
    + split; [tauto | reflexivity].
Qed.

End SortedContacts.
(** X26 at thirteen contacts that all have the sort key abel: they keep their
    order *)
Lemma sortContacts_sorted_input_witness :
  Forall (fun c => @app.extractSortKey sampleRuntime c = "abel"%string) thirteenAbels /\
  @app.sortContacts sampleRuntime thirteenAbels false = thirteenAbels.
Proof.
  assert (Hkeys : Forall (fun c => @app.extractSortKey sampleRuntime c = "abel"%string)
                    thirteenAbels) by (repeat constructor).
  split; [exact Hkeys |].
  apply (@sortContacts_sorted_input sampleRuntime thirteenAbels false).
  intros i j ci cj _ Hi Hj. rewrite List.Forall_forall in Hkeys.
  rewrite (Hkeys ci), (Hkeys cj); [reflexivity | |];
    apply list_elem_of_In; eapply list_elem_of_lookup_2; eassumption.
Defined.

(** ** The configuration: which address books are accepted *)

Section Configuration.

Import config.

Variable os : Host.

Lemma expandPath_path (path : string) (log : Log) :
  fst (expandPath os path log) = fst (expandPath os path []).
Proof.
  unfold expandPath. destruct (GoStrings.HasPrefix path "~/"); [| reflexivity].
  now destruct (UserHomeDir os) as [homeDir [err|]].
Qed.

Lemma validateAddressBook_ok (name : string) (ab : AddressBook) (log : Log) :
  fst (validateAddressBook os name ab log) = None <-> usable os (name, ab).
Proof.
  unfold validateAddressBook, usable. cbn [fst snd].
  destruct (String.eqb_spec (Path ab) "") as [E | E].
  - split; [discriminate | tauto].
  - pose proof (expandPath_path (Path ab) log) as Hp.
    destruct (expandPath os (Path ab) log) as [expandedPath log']. cbn [fst] in Hp.
    rewrite <- Hp.
    destruct (paths os !! expandedPath) as [[err | | [err|]]|]; cbn [fst];
      split; try discriminate; try tauto; intros [_ Hdir]; discriminate.
Qed.

Lemma validate_loop (entries : list (string * AddressBook)) :
  forall (validationErrors : list string) (log : Log),
  fst (fold_left (validateStep os) entries (validationErrors, log)) = [] <->
  validationErrors = [] /\ Forall (usable os) entries.
Proof.
  induction entries as [|[name ab] entries IH]; intros errs log.
  - cbn. split; [intros ->; split; [reflexivity | constructor] | tauto].
  - cbn [fold_left]. unfold validateStep at 2.
    pose proof (validateAddressBook_ok name ab log) as Hok.
    destruct (validateAddressBook os name ab log) as [[err|] log']; cbn [fst] in Hok;
      rewrite IH.
    + split.
      * intros [Hnil _]. now apply app_eq_nil in Hnil as [_ Hnil].
      * intros [_ Hall]. inversion Hall as [|? ? Hhead _]; subst.
        apply Hok in Hhead. discriminate.
    + split.
      * intros [-> Hall]. split; [reflexivity |]. constructor; [now apply Hok | exact Hall].
      * intros [-> Hall]. inversion Hall; subst. now split.
Qed.

(** X29: [Validate] accepts a configuration exactly when it has at least one
    address book and every address book has a path that is set and that
    leads, once expanded, to an existing directory that can be opened. *)
Theorem Validate_accepts_iff (c : Config) (log : Log) :
  fst (Validate os c log) = None <->
  AddressBooks c <> [] /\ Forall (usable os) (AddressBooks c).
Proof.
  unfold Validate. destruct (AddressBooks c) as [|entry entries] eqn:Hbooks.
  - cbn. split; [discriminate | intros [Hne _]; contradiction].
  - cbn [length Nat.eqb].
    pose proof (validate_loop (entry :: entries) [] log) as Hloop.
    destruct (fold_left (validateStep os) (entry :: entries) ([], log))
      as [validationErrors log']. cbn [fst] in Hloop.
    destruct validationErrors as [|err errs]; cbn [length Nat.ltb Nat.leb fst].
    + split; [intros _ | reflexivity]. split; [discriminate | now apply Hloop].
    + split; [discriminate |]. intros [_ Hall].
      assert (Hnil : err :: errs = []) by (apply Hloop; now split). discriminate.
Qed.

Lemma paths_loop (entries : list (string * AddressBook)) :
  forall (found : list string) (log : Log),
  fst (fold_left (fun '(paths, log) '(_, ab) =>
                    let '(path, log) := expandPath os (Path ab) log in
                    (paths ++ [path], log)) entries (found, log))
  = found ++ map (fun entry => fst (expandPath os (Path (snd entry)) [])) entries.
Proof.
  induction entries as [|[name ab] entries IH]; intros found log.
  - cbn. now rewrite app_nil_r.
  - cbn [fold_left map snd]. pose proof (expandPath_path (Path ab) log) as Hp.
    destruct (expandPath os (Path ab) log) as [path log']. cbn [fst] in Hp.
    rewrite IH, <- app_assoc, Hp. reflexivity.
Qed.

(** X30: once [Validate] has accepted the configuration,
    [GetAddressBookPaths] returns one path per address book, and every one
    of them is an existing directory that can be opened; there is at least
    one. *)
Theorem validated_paths (c : Config) (log log' : Log) :
  fst (Validate os c log) = None ->
  let found := fst (GetAddressBookPaths os c log') in
  found <> [] /\ length found = length (AddressBooks c) /\
  Forall (fun path => paths os !! path = Some (IsDir None)) found.
Proof.
  intros Hok. cbv zeta. unfold GetAddressBookPaths. rewrite paths_loop. cbn [List.app].
  rewrite length_map. unfold Validate in Hok.
  destruct (AddressBooks c) as [|entry entries]; [discriminate |].
  cbn [length Nat.eqb] in Hok.
  pose proof (validate_loop (entry :: entries) [] log) as Hloop.
  destruct (fold_left (validateStep os) (entry :: entries) ([], log))
    as [validationErrors log0]. cbn [fst] in Hloop.
  destruct validationErrors as [|err errs]; [| discriminate].
  destruct Hloop as [Hall _]. specialize (Hall eq_refl) as [_ Hall].
  split; [discriminate |]. split; [reflexivity |].
  apply List.Forall_forall. intros path Hin.
  apply List.in_map_iff in Hin as (e & <- & He).
  rewrite List.Forall_forall in Hall. now apply Hall.
Qed.

End Configuration.
(** X30 at an address book in the home directory *)
Lemma validated_paths_witness :
  fst (config.Validate sampleHost sampleConfig []) = None /\
  fst (config.GetAddressBookPaths sampleHost sampleConfig []) = ["/home/ann/contacts"%string] /\
  config.paths sampleHost !! "/home/ann/contacts"%string = Some (config.IsDir None).
Proof.
  split; [reflexivity |]. split; [reflexivity |].
  destruct (validated_paths sampleHost sampleConfig [] [] eq_refl) as (_ & _ & Hall).
  now inversion Hall.
Defined.
